(** * mind-web: weather service, response cache and polygon slice

    A shallow embedding of the value-to-colour classifier, the windowed
    aggregator, the date-range validator, the response cache, the fetch
    orchestrator (services/weatherService) and the polygon slice reducers
    (store/slices/polygonSlice.ts), followed by the properties proved
    about them.

    Conventions of the embedding:
    - a JavaScript [number] holding a measurement, a coordinate or a
      threshold is the exact rational value ([Q]) of that double;
      comparisons are taken on those values;
    - the sums and quotients of the aggregator and of the centroid are
      rounded to the nearest double after every operation ([Num.round]),
      as IEEE 754 arithmetic does; a result beyond the largest double,
      which is [Infinity] in the code, is outside the model;
    - where the code can produce NaN from finite input (0 / 0, the
      centroid of no points) the value is a [Num.number], which has NaN;
      a rational where a [Num.number] is expected is that finite number;
    - the remaining arithmetic (the tolerance of the '=' test, the
      projection of a click on the map) is taken on the exact values;
    - a [Date] is its epoch value in milliseconds ([Z]); an element of the
      upstream [time] array is the instant [new Date(timeStr)] denotes;
    - [Date.now()] and [new Date()] are read from explicit clock arguments;
    - the module-level [Map] is an association list in insertion order
      with unique keys, which is the order [Array.from(map.entries())]
      observes;
    - [Array.prototype.sort] is a stable sort, as ECMAScript requires. *)

From Stdlib Require Import ZArith QArith Qabs List String Ascii Bool Lia.
From Stdlib Require Import Permutation Sorted DecimalString.
From Stdlib Require Import Qminmax Qround Qpower Lqa.
Import ListNotations.

Local Open Scope string_scope.
Local Open Scope Z_scope.

(** ** Numbers *)

Module Num.

(** [x < y] on JavaScript numbers. *)
Definition ltb (x y : Q) : bool := negb (Qle_bool y x).

(** [x <= y] on JavaScript numbers. *)
Definition leb (x y : Q) : bool := Qle_bool x y.

(** [Math.abs]. *)
Definition abs (x : Q) : Q := Qabs x.

(** *** Rounding to binary64 *)

(** [2^k], for any integer [k]. *)
Definition pow2 (k : Z) : Q := Qpower (2 # 1) k.

(** The integer part of the binary logarithm of [x > 0]: the quotient of
    the binary lengths of numerator and denominator, corrected by one
    comparison. *)
Definition ilog2 (x : Q) : Z :=
  let e := Z.log2 (Qnum x) - Z.log2 (Z.pos (Qden x)) in
  if Qle_bool (pow2 e) x then e else e - 1.

(** The nearest integer, the even one on a tie. *)
Definition roundHalfEven (x : Q) : Z :=
  let f := Qfloor x in
  match (x - inject_Z f ?= 1 # 2)%Q with
  | Lt => f
  | Eq => if Z.even f then f else f + 1
  | Gt => f + 1
  end.

(** The exponent of the spacing of the doubles around [x > 0]: 53-bit
    significands, and [2^-1074] in the subnormal range. *)
Definition spacing (x : Q) : Z := Z.max (ilog2 x - 52) (-1074).

Definition roundPositive (x : Q) : Q :=
  let s := spacing x in
  (inject_Z (roundHalfEven (x / pow2 s)) * pow2 s)%Q.

(** The double nearest to [x], ties to the even significand (IEEE 754
    round-to-nearest), in lowest terms.  Beyond the largest double the
    code has [Infinity]; the model does not go there. *)
Definition round (x : Q) : Q :=
  match (x ?= 0)%Q with
  | Eq => 0 # 1
  | Gt => Qred (roundPositive x)
  | Lt => Qred (- roundPositive (- x))
  end.

(** [x + y] on doubles. *)
Definition add (x y : Q) : Q := round (x + y).

(** [x / y] on doubles, for [y] other than zero. *)
Definition div (x y : Q) : Q := round (x / y).

(** *** Numbers that need not be finite *)

Inductive number : Type :=
| Finite (q : Q)
| Infinity (negative : bool)
| NaN.

(** [x / length] for the length of an array: [0 / 0] is NaN and any
    other [x / 0] is infinite, with the sign of [x]. *)
Definition divByLength (x : Q) (length : nat) : number :=
  match length with
  | O =>
      match (x ?= 0)%Q with
      | Eq => NaN
      | Gt => Infinity false
      | Lt => Infinity true
      end
  | S _ => Finite (div x (inject_Z (Z.of_nat length)))
  end.

End Num.

Coercion Num.Finite : Q >-> Num.number.

(** ** Array.prototype.sort *)

Module JsArray.

Section Sort.
Context {A : Type}.
(** [lt a b] is [compareFn(a, b) < 0]. *)
Variable lt : A -> A -> bool.

(** Insert [x] behind every element that does not compare greater than
    it, so that elements comparing equal keep their relative order. *)
Fixpoint insertLast (x : A) (l : list A) : list A :=
  match l with
  | [] => [x]
  | y :: l' => if lt x y then x :: l else y :: insertLast x l'
  end.

(** [sort l] is the stable sort of [l]: the elements are taken from
    left to right and each is placed behind its equals. *)
Definition sort (l : list A) : list A :=
  fold_left (fun acc x => insertLast x acc) l [].
End Sort.

End JsArray.

(** ** store/slices/dataSourceSlice.ts: the rule type *)

Inductive Operator : Type := OpEq | OpLt | OpGt | OpLe | OpGe.

Record ColorRule : Type := mkColorRule {
  rule_id : string;
  operator : Operator;
  rule_value : Q;
  rule_color : string
}.

(** ** The classifier of the weather service (App.tsx, lines 216-261) *)

Module WeatherService.

Definition defaultColor : string := "#3388ff".

(** The comparator [(a, b) => a.value - b.value] is negative exactly when
    [a.value < b.value]. *)
Definition ruleBefore (a b : ColorRule) : bool :=
  Num.ltb (rule_value a) (rule_value b).

Definition sortRules (colorRules : list ColorRule) : list ColorRule :=
  JsArray.sort ruleBefore colorRules.

(** The [switch] on [rule.operator]. *)
Definition ruleMatches (value : Q) (rule : ColorRule) : bool :=
  match operator rule with
  | OpLt => Num.ltb value (rule_value rule)
  | OpLe => Num.leb value (rule_value rule)
  | OpEq => Num.ltb (Num.abs (value - rule_value rule)) (1 # 10)
  | OpGe => Num.leb (rule_value rule) value
  | OpGt => Num.ltb (rule_value rule) value
  end.

(** One iteration of the [for ... of] loop over the sorted rules. *)
Definition applyRule (value : Q) (matchedColor : string) (rule : ColorRule)
  : string :=
  if ruleMatches value rule then rule_color rule else matchedColor.

Definition applyColorRules (value : Q) (colorRules : list ColorRule)
  : string :=
  match colorRules with
  | [] => defaultColor
  | _ :: _ =>
      let sortedRules := sortRules colorRules in
      fold_left (applyRule value) sortedRules defaultColor
  end.

End WeatherService.

(** ** The earlier classifier (unnamed/part_000, lines 41-67) *)

Module LegacyWeatherService.

Definition sortRules (colorRules : list ColorRule) : list ColorRule :=
  JsArray.sort WeatherService.ruleBefore colorRules.

(** The [for ... of] loop returns from inside the [switch] at the first
    rule whose test succeeds. *)
Fixpoint firstMatch (value : Q) (sortedRules : list ColorRule) : string :=
  match sortedRules with
  | [] => "#3388ff"
  | rule :: rest =>
      let hit :=
        match operator rule with
        | OpLt => Num.ltb value (rule_value rule)
        | OpLe => Num.leb value (rule_value rule)
        | OpEq => Num.ltb (Num.abs (value - rule_value rule)) (1 # 10)
        | OpGe => Num.leb (rule_value rule) value
        | OpGt => Num.ltb (rule_value rule) value
        end in
      if hit then rule_color rule else firstMatch value rest
  end.

Definition applyColorRules (value : Q) (colorRules : list ColorRule)
  : string :=
  firstMatch value (sortRules colorRules).

End LegacyWeatherService.

(** ** The aggregator (App.tsx, lines 264-305) *)

Module Aggregator.

(** An element of the upstream series: [None] is [null] (or a hole). *)
Definition Sample : Type := option Q.

(** [data[index]]: [None] when the index is out of range ([undefined]),
    [Some None] for [null]. *)
Definition at_index (data : list Sample) (index : nat) : option Sample :=
  nth_error data index.

(** [timeArray.forEach((timeStr, index) => ...)], from position [index]
    on; the result is the list of values pushed, in push order. *)
Fixpoint collect (data : list Sample) (startTime endTime : Z)
    (timeArray : list Z) (index : nat) : list Q :=
  match timeArray with
  | [] => []
  | time :: rest =>
      let pushed := collect data startTime endTime rest (S index) in
      if (startTime <=? time) && (time <=? endTime) then
        match at_index data index with
        | Some (Some v) => v :: pushed
        | _ => pushed
        end
      else pushed
  end.

(** [data.filter(val => val !== null && val !== undefined)]. *)
Fixpoint validData (data : list Sample) : list Q :=
  match data with
  | [] => []
  | Some v :: rest => v :: validData rest
  | None :: rest => validData rest
  end.

(** [values.reduce((sum, val) => sum + val, 0)]: each sum is rounded. *)
Definition reduceSum (values : list Q) : Q :=
  fold_left (fun sum val => Num.add sum val) values (0 # 1).

Definition calculateAverageValue (data : list Sample) (timeArray : list Z)
    (startTime endTime : Z) : Q :=
  let values := collect data startTime endTime timeArray 0 in
  match values with
  | [] =>
      match validData data with
      | [] => 0 # 1
      | v :: vs => last (v :: vs) (0 # 1)
      end
  | _ :: _ =>
      Num.div (reduceSum values) (inject_Z (Z.of_nat (List.length values)))
  end.

End Aggregator.

(** ** The date-range validator (App.tsx, lines 176-213) *)

Module Validator.

Definition msPerDay : Z := 24 * 60 * 60 * 1000.
Definition maxRangeDays : Z := 30.

(** [new Date('1940-01-01')]: midnight UTC, 10958 days before the epoch. *)
Definition oldestDate : Z := - (10958 * msPerDay).

(** [Math.ceil(n / d)] for an integer [n] and a positive integer [d]. *)
Definition ceilDiv (n d : Z) : Z := - ((- n) / d).

Record Validation : Type := mkValidation {
  isValid : bool;
  adjustedStart : option Z;
  adjustedEnd : option Z
}.

Definition validateDateRange (now startDate endDate : Z) : Validation :=
  let rangeDays := ceilDiv (endDate - startDate) msPerDay in
  if now <? startDate then
    mkValidation false (Some (now - msPerDay)) (Some now)
  else if maxRangeDays <? rangeDays then
    mkValidation false (Some (endDate - maxRangeDays * msPerDay))
      (Some endDate)
  else if startDate <? oldestDate then
    mkValidation false (Some oldestDate) (Some endDate)
  else
    mkValidation true None None.

(** [validation.adjustedStart || startDate] and
    [validation.adjustedEnd || endDate], as the orchestrator resolves
    them (a [Date] object is always truthy). *)
Definition actualStartDate (v : Validation) (startDate : Z) : Z :=
  match adjustedStart v with Some d => d | None => startDate end.

Definition actualEndDate (v : Validation) (endDate : Z) : Z :=
  match adjustedEnd v with Some d => d | None => endDate end.

(** The window the orchestrator works with after validation. *)
Definition resolve (now startDate endDate : Z) : Z * Z :=
  let validation := validateDateRange now startDate endDate in
  (actualStartDate validation startDate, actualEndDate validation endDate).

End Validator.

(** ** Number and date formatting *)

Module Format.

(** Decimal digits of a natural number. *)
Definition digits (n : Z) : string :=
  NilZero.string_of_uint (N.to_uint (Z.to_N n)).

(** [String(n)] for an integer. *)
Definition numberToString (n : Z) : string :=
  if n <? 0 then "-" ++ digits (- n) else digits n.

Fixpoint zeros (k : nat) : string :=
  match k with
  | O => ""
  | S k' => String "0"%char (zeros k')
  end.

(** [s.padStart(width, '0')]. *)
Definition padStart (width : nat) (s : string) : string :=
  zeros (width - String.length s) ++ s.

(** The integer [n] with [n / 10^4] nearest to [|x|], the larger one on
    a tie (Number.prototype.toFixed, step 10.a). *)
Definition scaled4 (x : Q) : Z :=
  let p := Z.abs (Qnum x) in
  let q := Z.pos (Qden x) in
  (2 * p * 10000 + q) / (2 * q).

(** [x.toFixed(4)] for |x| below 10^21. *)
Definition toFixed4 (x : Q) : string :=
  let n := scaled4 x in
  let sign := if Qnum x <? 0 then "-" else "" in
  sign ++ digits (n / 10000) ++ "." ++ padStart 4 (digits (n mod 10000)).

(** [parseFloat(x.toFixed(4))]: the number the rendered string denotes. *)
Definition roundTo4 (x : Q) : Q :=
  let n := scaled4 x in
  if Qnum x <? 0 then (- n) # 10000 else n # 10000.

(** [x.toFixed(4)] for any number: NaN and the infinities render as
    their names. *)
Definition fixed4 (x : Num.number) : string :=
  match x with
  | Num.Finite q => toFixed4 q
  | Num.Infinity false => "Infinity"
  | Num.Infinity true => "-Infinity"
  | Num.NaN => "NaN"
  end.

(** [parseFloat(x.toFixed(4))] for any number: [parseFloat] reads the
    three names back. *)
Definition parsedFixed4 (x : Num.number) : Num.number :=
  match x with
  | Num.Finite q => Num.Finite (roundTo4 q)
  | Num.Infinity negative => Num.Infinity negative
  | Num.NaN => Num.NaN
  end.

(** Year, month and day (UTC) of the day number [days] counted from
    1970-01-01, in the proleptic Gregorian calendar. *)
Definition civilFromDays (days : Z) : Z * Z * Z :=
  let z := days + 719468 in
  let era := z / 146097 in
  let doe := z - era * 146097 in
  let yoe := (doe - doe / 1460 + doe / 36524 - doe / 146096) / 365 in
  let doy := doe - (365 * yoe + yoe / 4 - yoe / 100) in
  let mp := (5 * doy + 2) / 153 in
  let d := doy - (153 * mp + 2) / 5 + 1 in
  let m := if mp <? 10 then mp + 3 else mp - 9 in
  let y := yoe + era * 400 + (if m <=? 2 then 1 else 0) in
  (y, m, d).

(** The year field of [toISOString]: four digits, or a sign and six
    digits outside 0..9999. *)
Definition isoYear (y : Z) : string :=
  if (0 <=? y) && (y <=? 9999) then padStart 4 (digits y)
  else (if y <? 0 then "-" else "+") ++ padStart 6 (digits (Z.abs y)).

(** [date.toISOString().split('T')[0]]. *)
Definition formatDateForAPI (date : Z) : string :=
  let '(y, m, d) := civilFromDays (date / Validator.msPerDay) in
  isoYear y ++ "-" ++ padStart 2 (digits m) ++ "-" ++ padStart 2 (digits d).

End Format.

(** ** Map<string, V> *)

Module JsMap.

Section Ops.
Context {V : Type}.

Definition t : Type := list (string * V).

Fixpoint get (key : string) (m : t) : option V :=
  match m with
  | [] => None
  | (k, v) :: m' => if String.eqb k key then Some v else get key m'
  end.

(** [set] overwrites in place when the key is present and appends
    otherwise. *)
Fixpoint set (key : string) (v : V) (m : t) : t :=
  match m with
  | [] => [(key, v)]
  | (k, v') :: m' =>
      if String.eqb k key then (k, v) :: m'
      else (k, v') :: set key v m'
  end.

Fixpoint delete (key : string) (m : t) : t :=
  match m with
  | [] => []
  | (k, v) :: m' =>
      if String.eqb k key then delete key m'
      else (k, v) :: delete key m'
  end.

Definition size (m : t) : nat := List.length m.

Definition keys (m : t) : list string := map fst m.
End Ops.

Arguments t : clear implicits.

End JsMap.

(** ** The upstream response *)

Module OpenMeteo.

(** [hourly.time] and [hourly.temperature_2m] may be missing from a
    malformed body; the orchestrator tests for them. *)
Record Hourly : Type := mkHourly {
  time : option (list Z);
  temperature_2m : option (list Aggregator.Sample)
}.

Record Response : Type := mkResponse {
  latitude : Q;
  longitude : Q;
  hourly : option Hourly
}.

End OpenMeteo.

(** ** The response cache (App.tsx, lines 75-152) *)

Module Cache.

Definition CACHE_DURATION : Z := 5 * 60 * 1000.

Record Entry : Type := mkEntry {
  data : OpenMeteo.Response;
  timestamp : Z
}.

Definition t : Type := JsMap.t Entry.

Definition empty : t := [].

Definition generateCacheKey (latitude longitude : Num.number)
    (startDate endDate : string) : string :=
  Format.fixed4 latitude ++ "_" ++ Format.fixed4 longitude ++ "_"
    ++ startDate ++ "_" ++ endDate.

Definition isCacheValid (now timestamp : Z) : bool :=
  now - timestamp <? CACHE_DURATION.

(** The lookup returns the series, if any, and the cache it leaves. *)
Definition getCachedWeatherData (now : Z) (latitude longitude : Num.number)
    (startDate endDate : string) (cache : t)
  : option OpenMeteo.Response * t :=
  let cacheKey := generateCacheKey latitude longitude startDate endDate in
  match JsMap.get cacheKey cache with
  | Some cached =>
      if isCacheValid now (timestamp cached) then (Some (data cached), cache)
      else (None, JsMap.delete cacheKey cache)
  | None => (None, cache)
  end.

(** The comparator [(a, b) => a[1].timestamp - b[1].timestamp]. *)
Definition olderThan (a b : string * Entry) : bool :=
  timestamp (snd a) <? timestamp (snd b).

(** [for (let i = 0; i < 10; i++) cache.delete(entries[i][0])]; the loop
    runs only when there are more than 50 entries, so every index is in
    range. *)
Definition deleteOldest (entries : list (string * Entry)) (cache : t) : t :=
  fold_left (fun c e => JsMap.delete (fst e) c) (firstn 10 entries) cache.

Definition cacheWeatherData (now : Z) (latitude longitude : Num.number)
    (startDate endDate : string) (response : OpenMeteo.Response)
    (cache : t) : t :=
  let cacheKey := generateCacheKey latitude longitude startDate endDate in
  let cache1 := JsMap.set cacheKey (mkEntry response now) cache in
  if (50 <? JsMap.size cache1)%nat then
    let entries := JsArray.sort olderThan cache1 in
    deleteOldest entries cache1
  else cache1.

End Cache.

(** ** store/slices/polygonSlice.ts *)

Module PolygonSlice.

Record PolygonPoint : Type := mkPoint { lat : Q; lng : Q }.

Record Polygon : Type := mkPolygon {
  id : string;
  name : string;
  points : list PolygonPoint;
  dataSourceId : string;
  color : string;
  value : option Q;
  isEditing : option bool
}.

Record PolygonState : Type := mkState {
  polygons : list Polygon;
  isDrawing : bool;
  selectedPolygonId : option string;
  drawingPoints : list PolygonPoint
}.

Definition initialState : PolygonState := mkState [] false None [].

(** [Partial<Polygon>]: [None] is an absent key. *)
Record Updates : Type := mkUpdates {
  u_id : option string;
  u_name : option string;
  u_points : option (list PolygonPoint);
  u_dataSourceId : option string;
  u_color : option string;
  u_value : option (option Q);
  u_isEditing : option (option bool)
}.

Definition orElse {A : Type} (o : option A) (d : A) : A :=
  match o with Some a => a | None => d end.

(** [{ ...polygon, ...updates }]. *)
Definition spread (p : Polygon) (u : Updates) : Polygon :=
  mkPolygon (orElse (u_id u) (id p)) (orElse (u_name u) (name p))
    (orElse (u_points u) (points p))
    (orElse (u_dataSourceId u) (dataSourceId p))
    (orElse (u_color u) (color p)) (orElse (u_value u) (value p))
    (orElse (u_isEditing u) (isEditing p)).

(** [const index = l.findIndex(p => p.id === key); if (index !== -1)
    l[index] = f(l[index])]. *)
Fixpoint updateFirst (key : string) (f : Polygon -> Polygon)
    (l : list Polygon) : list Polygon :=
  match l with
  | [] => []
  | p :: l' =>
      if String.eqb (id p) key then f p :: l'
      else p :: updateFirst key f l'
  end.

Definition startDrawing (state : PolygonState) : PolygonState :=
  mkState (polygons state) true (selectedPolygonId state) [].

Definition addDrawingPoint (state : PolygonState) (payload : PolygonPoint)
  : PolygonState :=
  mkState (polygons state) (isDrawing state) (selectedPolygonId state)
    (drawingPoints state ++ [payload])%list.

(** [now] is the value [Date.now()] returns inside the reducer. *)
Definition finishDrawing (now : Z) (state : PolygonState)
    (payloadName payloadDataSourceId : string) : PolygonState :=
  let polygons' :=
    if (3 <=? List.length (drawingPoints state))%nat then
      let newPolygon :=
        mkPolygon ("polygon_" ++ Format.numberToString now) payloadName
          (drawingPoints state) payloadDataSourceId "#3388ff" None None in
      (polygons state ++ [newPolygon])%list
    else polygons state in
  mkState polygons' false (selectedPolygonId state) [].

Definition cancelDrawing (state : PolygonState) : PolygonState :=
  mkState (polygons state) false (selectedPolygonId state) [].

Definition updatePolygon (state : PolygonState) (payloadId : string)
    (updates : Updates) : PolygonState :=
  mkState (updateFirst payloadId (fun p => spread p updates) (polygons state))
    (isDrawing state) (selectedPolygonId state) (drawingPoints state).

Definition deletePolygon (state : PolygonState) (payload : string)
  : PolygonState :=
  mkState (filter (fun p => negb (String.eqb (id p) payload)) (polygons state))
    (isDrawing state) (selectedPolygonId state) (drawingPoints state).

Definition selectPolygon (state : PolygonState) (payload : option string)
  : PolygonState :=
  mkState (polygons state) (isDrawing state) payload (drawingPoints state).

(** The colour is assigned always, the value only when the payload
    carries one. *)
Definition recolour (payloadColor : string) (payloadValue : option Q)
    (p : Polygon) : Polygon :=
  mkPolygon (id p) (name p) (points p) (dataSourceId p) payloadColor
    (match payloadValue with Some v => Some v | None => value p end)
    (isEditing p).

Definition updatePolygonColor (state : PolygonState) (payloadId : string)
    (payloadColor : string) (payloadValue : option Q) : PolygonState :=
  mkState
    (updateFirst payloadId (recolour payloadColor payloadValue)
       (polygons state))
    (isDrawing state) (selectedPolygonId state) (drawingPoints state).

Inductive Action : Type :=
| StartDrawing
| AddDrawingPoint (payload : PolygonPoint)
| FinishDrawing (now : Z) (payloadName payloadDataSourceId : string)
| CancelDrawing
| UpdatePolygon (payloadId : string) (updates : Updates)
| DeletePolygon (payload : string)
| SelectPolygon (payload : option string)
| UpdatePolygonColor (payloadId payloadColor : string)
    (payloadValue : option Q).

Definition reducer (state : PolygonState) (action : Action) : PolygonState :=
  match action with
  | StartDrawing => startDrawing state
  | AddDrawingPoint p => addDrawingPoint state p
  | FinishDrawing now n d => finishDrawing now state n d
  | CancelDrawing => cancelDrawing state
  | UpdatePolygon i u => updatePolygon state i u
  | DeletePolygon i => deletePolygon state i
  | SelectPolygon i => selectPolygon state i
  | UpdatePolygonColor i c v => updatePolygonColor state i c v
  end.

(** The first polygon carrying the identifier, if any. *)
Definition findPolygon (key : string) (state : PolygonState)
  : option Polygon :=
  find (fun p => String.eqb (id p) key) (polygons state).

End PolygonSlice.

(** ** store/slices/dataSourceSlice.ts: the state the service publishes to *)

Module DataSourceSlice.

Record WeatherData : Type := mkWeatherData {
  latitude : Q;
  longitude : Q;
  time : list Z;
  temperature_2m : list Aggregator.Sample
}.

Record DataSource : Type := mkDataSource {
  id : string;
  name : string;
  field : string;
  unitName : string;
  colorRules : list ColorRule;
  isActive : bool
}.

Record DataSourceState : Type := mkState {
  availableDataSources : list DataSource;
  selectedDataSourceId : string;
  weatherData : JsMap.t WeatherData;
  isLoading : bool;
  error : option string
}.

Definition setWeatherData (state : DataSourceState) (polygonId : string)
    (d : WeatherData) : DataSourceState :=
  mkState (availableDataSources state) (selectedDataSourceId state)
    (JsMap.set polygonId d (weatherData state)) (isLoading state)
    (error state).

Definition setLoading (state : DataSourceState) (payload : bool)
  : DataSourceState :=
  mkState (availableDataSources state) (selectedDataSourceId state)
    (weatherData state) payload (error state).

Definition setError (state : DataSourceState) (payload : option string)
  : DataSourceState :=
  mkState (availableDataSources state) (selectedDataSourceId state)
    (weatherData state) (isLoading state) payload.

(** The actions the weather service dispatches to this slice. *)
Inductive Action : Type :=
| SetWeatherData (polygonId : string) (d : WeatherData)
| SetLoading (payload : bool)
| SetError (payload : option string).

Definition reducer (state : DataSourceState) (action : Action)
  : DataSourceState :=
  match action with
  | SetWeatherData i d => setWeatherData state i d
  | SetLoading b => setLoading state b
  | SetError e => setError state e
  end.

End DataSourceSlice.

(** ** The fetch orchestrator (App.tsx, lines 154-168 and 307-440) *)

Module Orchestrator.

Import PolygonSlice.

(** *** The store *)

Inductive Action : Type :=
| OfPolygons (a : PolygonSlice.Action)
| OfDataSources (a : DataSourceSlice.Action).

Record RootState : Type := mkRoot {
  polygonState : PolygonSlice.PolygonState;
  dataSourceState : DataSourceSlice.DataSourceState
}.

Definition rootReducer (s : RootState) (a : Action) : RootState :=
  match a with
  | OfPolygons a' =>
      mkRoot (PolygonSlice.reducer (polygonState s) a') (dataSourceState s)
  | OfDataSources a' =>
      mkRoot (polygonState s) (DataSourceSlice.reducer (dataSourceState s) a')
  end.

Definition setLoading (b : bool) : Action :=
  OfDataSources (DataSourceSlice.SetLoading b).
Definition setError (e : option string) : Action :=
  OfDataSources (DataSourceSlice.SetError e).
Definition setWeatherData (polygonId : string)
    (d : DataSourceSlice.WeatherData) : Action :=
  OfDataSources (DataSourceSlice.SetWeatherData polygonId d).
Definition updatePolygonColor (polygonId colour : string) (v : Q) : Action :=
  OfPolygons (PolygonSlice.UpdatePolygonColor polygonId colour (Some v)).

(** *** What can be thrown inside the [try] block *)

(** [AxiosError] carries what the [catch] block reads from an axios error:
    [error.response?.status], [error.code] and
    [error.response?.data?.reason]; [ErrorObject] is any other
    [instanceof Error], with its message; [OtherValue] is a thrown value
    that is not an [Error]. *)
Inductive Thrown : Type :=
| AxiosError (status : option Z) (code : option string)
    (reason : option string)
| ErrorObject (message : string)
| OtherValue.

(** *** The environment of one refresh *)

Record Params : Type := mkParams {
  param_latitude : string;
  param_longitude : string;
  start_date : string;
  end_date : string
}.

Inductive Reply : Type :=
| Resolved (body : OpenMeteo.Response)
| Rejected (e : Thrown).

(** [now] is the clock before the request is awaited, [settledAt] the
    clock when the reply is cached, [axiosGet] the upstream archive
    behind the 10 s timeout. *)
Record Env : Type := mkEnv {
  now : Z;
  settledAt : Z;
  axiosGet : Params -> Reply
}.

(** *** State, dispatch and exceptions *)

Record World : Type := mkWorld {
  store : RootState;
  dispatched : list Action;
  cache : Cache.t
}.

Inductive Completion (A : Type) : Type :=
| Normal (a : A)
| Throw (e : Thrown).
Arguments Normal {A} a.
Arguments Throw {A} e.

Definition M (A : Type) : Type := World -> Completion A * World.

Definition ret {A : Type} (a : A) : M A := fun w => (Normal a, w).

Definition bind {A B : Type} (m : M A) (k : A -> M B) : M B :=
  fun w =>
    match m w with
    | (Normal a, w') => k a w'
    | (Throw e, w') => (Throw e, w')
    end.

Definition throw {A : Type} (e : Thrown) : M A := fun w => (Throw e, w).

Definition dispatch (a : Action) : M unit :=
  fun w =>
    (Normal tt,
     mkWorld (rootReducer (store w) a) (dispatched w ++ [a])%list (cache w)).

(** Run a cache operation against the module-level map. *)
Definition onCache {A : Type} (f : Cache.t -> A * Cache.t) : M A :=
  fun w =>
    let '(a, c) := f (cache w) in
    (Normal a, mkWorld (store w) (dispatched w) c).

(** [await] of a settled promise. *)
Definition await (r : Reply) : M OpenMeteo.Response :=
  match r with
  | Resolved body => ret body
  | Rejected e => throw e
  end.

(** [try { body } catch (error) { handler(error) }]. *)
Definition tryCatch {A : Type} (body : M A) (handler : Thrown -> M A) : M A :=
  fun w =>
    match body w with
    | (Normal a, w') => (Normal a, w')
    | (Throw e, w') => handler e w'
    end.

(** [... finally { finalizer }]: the finalizer runs on both exits and the
    completion of the protected block is kept unless the finalizer
    itself throws. *)
Definition andFinally {A : Type} (m : M A) (finalizer : M unit) : M A :=
  fun w =>
    match m w with
    | (c, w') =>
        match finalizer w' with
        | (Normal _, w'') => (c, w'')
        | (Throw e, w'') => (Throw e, w'')
        end
    end.

Declare Scope orch_scope.
Delimit Scope orch_scope with orch.
Notation "x <- m ;; k" := (bind m (fun x => k))
  (at level 61, m at next level, right associativity) : orch_scope.
Notation "m ;;; k" := (bind m (fun _ => k))
  (at level 61, right associativity) : orch_scope.
Local Open Scope orch_scope.

(** *** The service *)

(** The two sums are accumulated point by point, each addition rounded;
    for an empty array both quotients are [0 / 0]. *)
Definition getPolygonCentroid (pts : list PolygonPoint)
  : Num.number * Num.number :=
  let latSum := fold_left (fun acc p => Num.add acc (lat p)) pts (0 # 1) in
  let lngSum := fold_left (fun acc p => Num.add acc (lng p)) pts (0 # 1) in
  (Num.divByLength latSum (List.length pts),
   Num.divByLength lngSum (List.length pts)).

(** The [catch] block's choice of message. *)
Definition errorMessageOf (error : Thrown) : string :=
  match error with
  | AxiosError status code reason =>
      if match status with Some s => s =? 429 | None => false end then
        "API rate limit exceeded. Please try again later."
      else if match status with
              | Some s => negb (s =? 0) && (500 <=? s)
              | None => false
              end then
        "Weather service temporarily unavailable."
      else if match code with
              | Some c => String.eqb c "ECONNABORTED"
              | None => false
              end then
        "Request timeout. Please check your connection."
      else
        match reason with
        | Some r =>
            if String.eqb r "" then "Failed to fetch weather data"
            else ("API Error: " ++ r)%string
        | None => "Failed to fetch weather data"
        end
  | ErrorObject message => message
  | OtherValue => "Failed to fetch weather data"
  end.

(** The window the request is made for (lines 321-341). *)
Definition requestedWindow (env : Env)
    (selectedStartTime selectedEndTime : option Z) : Z * Z :=
  let endDate := orElse selectedEndTime (now env - 24 * 60 * 60 * 1000) in
  let startDate :=
    orElse selectedStartTime (endDate - 7 * 24 * 60 * 60 * 1000) in
  (startDate, endDate).

(** Cache lookup and, on a miss, the request and the caching of its
    reply (lines 343-378). *)
Definition loadData (env : Env) (centroid : Num.number * Num.number)
    (startDateStr endDateStr : string) : M OpenMeteo.Response :=
  let '(centroidLat, centroidLng) := centroid in
  cached <- onCache (Cache.getCachedWeatherData (now env)
              (Format.parsedFixed4 centroidLat)
              (Format.parsedFixed4 centroidLng)
              startDateStr endDateStr) ;;
  match cached with
  | Some d => ret d
  | None =>
      let params :=
        mkParams (Format.fixed4 centroidLat) (Format.fixed4 centroidLng)
          startDateStr endDateStr in
      body <- await (axiosGet env params) ;;
      onCache (fun c =>
        (tt, Cache.cacheWeatherData (settledAt env)
               (Format.parsedFixed4 centroidLat)
               (Format.parsedFixed4 centroidLng)
               startDateStr endDateStr body c)) ;;;
      ret body
  end.

(** The [try] block. *)
Definition tryBlock (env : Env) (polygon : Polygon)
    (selectedStartTime selectedEndTime : option Z)
    (colorRules : option (list ColorRule)) : M unit :=
  dispatch (setLoading true) ;;;
  dispatch (setError None) ;;;
  let centroid := getPolygonCentroid (points polygon) in
  let '(startDate, endDate) :=
    requestedWindow env selectedStartTime selectedEndTime in
  let validation := Validator.validateDateRange (now env) startDate endDate in
  let actualStartDate := Validator.actualStartDate validation startDate in
  let actualEndDate := Validator.actualEndDate validation endDate in
  let startDateStr := Format.formatDateForAPI actualStartDate in
  let endDateStr := Format.formatDateForAPI actualEndDate in
  response <- loadData env centroid startDateStr endDateStr ;;
  match OpenMeteo.hourly response with
  | Some {| OpenMeteo.time := Some times;
            OpenMeteo.temperature_2m := Some temperatures |} =>
      let weatherData :=
        DataSourceSlice.mkWeatherData (OpenMeteo.latitude response)
          (OpenMeteo.longitude response) times temperatures in
      dispatch (setWeatherData (id polygon) weatherData) ;;;
      let averageValue :=
        Aggregator.calculateAverageValue temperatures times
          actualStartDate actualEndDate in
      let colour :=
        WeatherService.applyColorRules averageValue
          (orElse colorRules []) in
      dispatch (updatePolygonColor (id polygon) colour averageValue)
  | _ => throw (ErrorObject "Invalid response format from Open-Meteo API")
  end.

Definition fetchWeatherData (env : Env) (polygon : Polygon)
    (selectedStartTime selectedEndTime : option Z)
    (colorRules : option (list ColorRule)) : M unit :=
  andFinally
    (tryCatch
       (tryBlock env polygon selectedStartTime selectedEndTime colorRules)
       (fun error => dispatch (setError (Some (errorMessageOf error)))))
    (dispatch (setLoading false)).

End Orchestrator.

(** ** The earlier aggregator (unnamed/part_000, lines 69-88) *)

Module LegacyAggregator.

(** The [forEach] loop is the one of the current service; an empty
    selection gives 0. *)
Definition calculateAverageValue (data : list Aggregator.Sample)
    (timeArray : list Z) (startTime endTime : Z) : Q :=
  let values := Aggregator.collect data startTime endTime timeArray 0 in
  match values with
  | [] => 0 # 1
  | _ :: _ =>
      Num.div (Aggregator.reduceSum values)
        (inject_Z (Z.of_nat (List.length values)))
  end.

End LegacyAggregator.

(** ** The cache utilities (App.tsx, lines 489-507) *)

Module CacheUtil.

Definition clearWeatherDataCache (cache : Cache.t) : Cache.t := [].

(** [Math.round(ms / 1000)] for an integer number of milliseconds: the
    nearest integer, the larger one on a tie. *)
Definition roundedSeconds (ms : Z) : Z := (ms + 500) / 1000.

Record Stats : Type := mkStats {
  size : nat;
  entries : list (string * Z)
}.

Definition getCacheStats (now : Z) (cache : Cache.t) : Stats :=
  mkStats (JsMap.size cache)
    (map (fun kv => (fst kv, roundedSeconds (now - Cache.timestamp (snd kv))))
       cache).

End CacheUtil.

(** ** The refresh effect of the map (components/MapContainer.tsx,
    lines 70-105) *)

Module MapEffects.

Import Orchestrator.
Local Open Scope orch_scope.

(** [for (const polygon of polygons) { try { await fetchWeatherData(...) }
    catch (error) { console.error(...) } }], from position [index] on;
    [envAt i] is the clock and the upstream as the [i]-th refresh finds
    them. *)
Fixpoint refreshEach (envAt : nat -> Env) (index : nat)
    (polygons : list PolygonSlice.Polygon)
    (selectedStartTime selectedEndTime : Z) (colorRules : list ColorRule)
  : M unit :=
  match polygons with
  | [] => ret tt
  | polygon :: rest =>
      tryCatch
        (fetchWeatherData (envAt index) polygon (Some selectedStartTime)
           (Some selectedEndTime) (Some colorRules))
        (fun _ => ret tt) ;;;
      refreshEach envAt (S index) rest selectedStartTime selectedEndTime
        colorRules
  end.

(** [updatePolygonData], run by the effect when there is a polygon; the
    polygons, the data sources and the selection are those of the render
    the effect belongs to. *)
Definition updatePolygonData (envAt : nat -> Env)
    (polygons : list PolygonSlice.Polygon)
    (availableDataSources : list DataSourceSlice.DataSource)
    (selectedDataSourceId : string)
    (selectedStartTime selectedEndTime : Z) : M unit :=
  match find (fun ds => String.eqb (DataSourceSlice.id ds) selectedDataSourceId)
          availableDataSources with
  | None => ret tt
  | Some selectedDataSource =>
      refreshEach envAt 0 polygons selectedStartTime selectedEndTime
        (DataSourceSlice.colorRules selectedDataSource)
  end.

Definition refreshEffect (envAt : nat -> Env)
    (polygons : list PolygonSlice.Polygon)
    (availableDataSources : list DataSourceSlice.DataSource)
    (selectedDataSourceId : string)
    (selectedStartTime selectedEndTime : Z) : M unit :=
  if (0 <? List.length polygons)%nat then
    updatePolygonData envAt polygons availableDataSources
      selectedDataSourceId selectedStartTime selectedEndTime
  else ret tt.

End MapEffects.

(** ** store/slices/timelineSlice.ts (unnamed/part_002, lines 238-285) *)

Module TimelineSlice.

Record TimelineState : Type := mkState {
  startTime : Z;
  endTime : Z;
  selectedStartTime : Z;
  selectedEndTime : Z;
  isRangeMode : bool
}.

(** The initial state is built when the module is loaded; [now] is the
    clock at that moment. *)
Definition initialState (now : Z) : TimelineState :=
  let thirtyDaysAgo := now - 30 * 24 * 60 * 60 * 1000 in
  mkState thirtyDaysAgo now (now - 24 * 60 * 60 * 1000) now true.

Definition setSelectedTimeRange (state : TimelineState)
    (payloadStart payloadEnd : Z) : TimelineState :=
  mkState (startTime state) (endTime state) payloadStart payloadEnd
    (isRangeMode state).

Definition setSelectedTime (state : TimelineState) (payload : Z)
  : TimelineState :=
  mkState (startTime state) (endTime state) payload payload
    (isRangeMode state).

Definition toggleRangeMode (state : TimelineState) : TimelineState :=
  let mode := negb (isRangeMode state) in
  mkState (startTime state) (endTime state) (selectedStartTime state)
    (if negb mode then selectedStartTime state else selectedEndTime state)
    mode.

Definition setTimelineWindow (state : TimelineState)
    (payloadStart payloadEnd : Z) : TimelineState :=
  mkState payloadStart payloadEnd (selectedStartTime state)
    (selectedEndTime state) (isRangeMode state).

End TimelineSlice.

(** ** The timeline control (components/TimelineSlider.tsx) *)

Module TimelineSlider.

Import TimelineSlice.

(** What the slider hands to [onChange]: a number, or the two ends of a
    range. *)
Inductive SliderValue : Type :=
| Single (value : Z)
| Range (rangeStart rangeEnd : Z).

(** Lines 37-53. *)
Definition handleSliderChange (state : TimelineState) (value : SliderValue)
  : TimelineState :=
  match value with
  | Range rangeStart rangeEnd =>
      if isRangeMode state
      then setSelectedTimeRange state rangeStart rangeEnd
      else state
  | Single v =>
      if negb (isRangeMode state) then setSelectedTime state v else state
  end.

(** The body shared by the three quick-selection buttons (lines 143-182),
    which differ in the span only; [clock] is [Date.now()]. *)
Definition quickSelect (span : Z) (clock : Z) (state : TimelineState)
  : TimelineState :=
  let now := Z.min clock (endTime state) in
  let ago := Z.max (now - span) (startTime state) in
  if isRangeMode state then setSelectedTimeRange state ago now
  else setSelectedTime state now.

Definition lastHour : Z -> TimelineState -> TimelineState :=
  quickSelect (60 * 60 * 1000).
Definition last6Hours : Z -> TimelineState -> TimelineState :=
  quickSelect (6 * 60 * 60 * 1000).
Definition last24Hours : Z -> TimelineState -> TimelineState :=
  quickSelect (24 * 60 * 60 * 1000).

(** What the user can do with the control. *)
Inductive Event : Type :=
| SliderChanged (value : SliderValue)
| ModeSwitched
| LastHourClicked (clock : Z)
| Last6HoursClicked (clock : Z)
| Last24HoursClicked (clock : Z).

Definition handle (state : TimelineState) (event : Event) : TimelineState :=
  match event with
  | SliderChanged value => handleSliderChange state value
  | ModeSwitched => toggleRangeMode state
  | LastHourClicked clock => lastHour clock state
  | Last6HoursClicked clock => last6Hours clock state
  | Last24HoursClicked clock => last24Hours clock state
  end.

End TimelineSlider.

(** ** The handlers of the map (components/MapContainer.tsx) *)

Module MapContainer.

Import PolygonSlice.

(** [selectedPolygonId === polygonId]. *)
Definition isSelected (state : PolygonState) (polygonId : string) : bool :=
  match selectedPolygonId state with
  | Some k => String.eqb k polygonId
  | None => false
  end.

(** Lines 22-29. *)
Definition handleStartDrawing (state : PolygonState) : PolygonState :=
  if isDrawing state then cancelDrawing state else startDrawing state.

(** Lines 31-33. *)
Definition handlePolygonClick (state : PolygonState) (polygonId : string)
  : PolygonState :=
  selectPolygon state
    (if isSelected state polygonId then None else Some polygonId).

(** Lines 35-52; [confirmed] is the answer [window.confirm] gives when it
    is asked. *)
Definition handleDeletePolygon (state : PolygonState) (polygonId : string)
    (skipConfirmation confirmed : bool) : PolygonState :=
  match find (fun p => String.eqb (id p) polygonId) (polygons state) with
  | None => state
  | Some _ =>
      if negb skipConfirmation && negb confirmed then state
      else
        let deleted := deletePolygon state polygonId in
        if isSelected state polygonId then selectPolygon deleted None
        else deleted
  end.

(** Lines 54-67. *)
Definition handleDeleteAllPolygons (state : PolygonState) (confirmed : bool)
  : PolygonState :=
  match polygons state with
  | [] => state
  | _ :: _ =>
      if confirmed then
        selectPolygon
          (fold_left (fun s polygon => deletePolygon s (id polygon))
             (polygons state) state)
          None
      else state
  end.

(** Lines 108-116; [clock] is the [Date.now()] of the handler, [reducerClock]
    the one of the reducer, [selectedDataSourceId] the selection of the
    data source slice. *)
Definition handleFinishDrawing (state : PolygonState)
    (clock reducerClock : Z) (selectedDataSourceId : string)
  : PolygonState :=
  if (3 <=? List.length (drawingPoints state))%nat then
    finishDrawing reducerClock state
      ("Polygon " ++ Format.numberToString clock)
      (if String.eqb selectedDataSourceId "" then "temperature"
       else selectedDataSourceId)
  else state.

(** Lines 118-121. *)
Definition handleCancelDrawing (state : PolygonState) : PolygonState :=
  cancelDrawing state.

(** [Math.max(lo, Math.min(hi, x))]. *)
Definition clamp (lo hi x : Q) : Q := Qmax lo (Qmin hi x).

(** [0.6 / 111.32], the latitude half-height of the view (line 153). *)
Definition latDelta : Q := ((6 # 10) / (11132 # 100))%Q.

(** A click on the map overlay: the pointer, the rectangle of the overlay,
    the centre of the map and the longitude half-width of the view, which
    [getCoordinateDeltas] computes from the centre with [Math.cos]. *)
Record Click : Type := mkClick {
  clientX : Q;
  clientY : Q;
  rectLeft : Q;
  rectTop : Q;
  rectWidth : Q;
  rectHeight : Q;
  centerLat : Q;
  centerLng : Q;
  lngDelta : Q
}.

(** The point a click denotes (lines 125-139). *)
Definition clickedPoint (e : Click) : PolygonPoint :=
  let x := (clientX e - rectLeft e)%Q in
  let y := (clientY e - rectTop e)%Q in
  let relativeX := ((x / rectWidth e - (1 # 2)) * (2 # 1))%Q in
  let relativeY := ((y / rectHeight e - (1 # 2)) * (2 # 1))%Q in
  mkPoint
    (clamp (-85 # 1) (85 # 1) (centerLat e - relativeY * latDelta)%Q)
    (clamp (-180 # 1) (180 # 1) (centerLng e + relativeX * lngDelta e)%Q).

(** Lines 123-144. *)
Definition handleMapClick (state : PolygonState) (e : Click) : PolygonState :=
  if isDrawing state then addDrawingPoint state (clickedPoint e) else state.

(** The [Escape] key (lines 295-302); an empty identifier is falsy. *)
Definition handleEscape (state : PolygonState) : PolygonState :=
  if isDrawing state then cancelDrawing state
  else
    match selectedPolygonId state with
    | Some k => if String.eqb k "" then state else selectPolygon state None
    | None => state
    end.

(** The [Delete] and [Backspace] keys (lines 285-294). *)
Definition handleDeleteKey (state : PolygonState) (confirmed : bool)
  : PolygonState :=
  match selectedPolygonId state with
  | Some k =>
      if String.eqb k "" then state
      else
        match find (fun p => String.eqb (id p) k) (polygons state) with
        | Some _ => handleDeletePolygon state k false confirmed
        | None => state
        end
  | None => state
  end.

(** The polygon the panel of the selection shows (lines 775-790): the
    panel is rendered when the selection is truthy and a polygon carries
    it; its buttons exist only then. *)
Definition selectedPanel (state : PolygonState) : option Polygon :=
  match selectedPolygonId state with
  | Some k =>
      if String.eqb k "" then None
      else find (fun p => String.eqb (id p) k) (polygons state)
  | None => None
  end.

(** What the user can do on the map.  A click or a right click on a
    polygon reaches the handler with the identifier of a polygon that is
    rendered, given here by its position in the list. *)
Inductive Event : Type :=
| DrawButton
| MapClicked (e : Click)
| FinishButton (clock reducerClock : Z) (selectedDataSourceId : string)
| CancelButton
| PolygonClicked (index : nat)
| PolygonRightClicked (index : nat) (confirmed : bool)
| DeleteAllButton (confirmed : bool)
| DeleteSelectedButton (confirmed : bool)
| CloseButton
| EscapeKey
| DeleteKey (confirmed : bool).

Definition handle (state : PolygonState) (event : Event) : PolygonState :=
  match event with
  | DrawButton => handleStartDrawing state
  | MapClicked e => handleMapClick state e
  | FinishButton clock reducerClock source =>
      handleFinishDrawing state clock reducerClock source
  | CancelButton => handleCancelDrawing state
  | PolygonClicked index =>
      match nth_error (polygons state) index with
      | Some polygon => handlePolygonClick state (id polygon)
      | None => state
      end
  | PolygonRightClicked index confirmed =>
      match nth_error (polygons state) index with
      | Some polygon => handleDeletePolygon state (id polygon) false confirmed
      | None => state
      end
  | DeleteAllButton confirmed => handleDeleteAllPolygons state confirmed
  | DeleteSelectedButton confirmed =>
      match selectedPanel state with
      | Some selectedPolygon =>
          handleDeletePolygon state (id selectedPolygon) false confirmed
      | None => state
      end
  | CloseButton =>
      match selectedPanel state with
      | Some _ => selectPolygon state None
      | None => state
      end
  | EscapeKey => handleEscape state
  | DeleteKey confirmed => handleDeleteKey state confirmed
  end.

End MapContainer.

(** ** store/slices/dataSourceSlice.ts: the reducers of the rule editor
    (test/src/store/index.ts, lines 75-98) *)

Module DataSourceRules.

Import DataSourceSlice.

(** The rules every data source starts with (lines 48-52). *)
Definition defaultColorRules : list ColorRule :=
  [mkColorRule "rule1" OpLt (10 # 1) "#0000ff";
   mkColorRule "rule2" OpGe (10 # 1) "#00ff00";
   mkColorRule "rule3" OpGe (25 # 1) "#ff0000"].

(** [Partial<ColorRule>]: [None] is an absent key. *)
Record RuleUpdates : Type := mkRuleUpdates {
  u_rule_id : option string;
  u_operator : option Operator;
  u_rule_value : option Q;
  u_rule_color : option string
}.

(** [Object.assign(rule, updates)]. *)
Definition assign (rule : ColorRule) (updates : RuleUpdates) : ColorRule :=
  mkColorRule
    (PolygonSlice.orElse (u_rule_id updates) (rule_id rule))
    (PolygonSlice.orElse (u_operator updates) (operator rule))
    (PolygonSlice.orElse (u_rule_value updates) (rule_value rule))
    (PolygonSlice.orElse (u_rule_color updates) (rule_color rule)).

Definition withRules (ds : DataSource) (rules : list ColorRule)
  : DataSource :=
  mkDataSource (id ds) (name ds) (field ds) (unitName ds) rules (isActive ds).

Definition findSource (key : string) (sources : list DataSource)
  : option DataSource :=
  find (fun ds => String.eqb (id ds) key) sources.

(** [const dataSource = sources.find(ds => ds.id === key); if (dataSource)
    { ...mutate dataSource... }]: the first source with the identifier is
    the one changed. *)
Fixpoint mutateSource (key : string) (f : DataSource -> DataSource)
    (sources : list DataSource) : list DataSource :=
  match sources with
  | [] => []
  | ds :: rest =>
      if String.eqb (id ds) key then f ds :: rest
      else ds :: mutateSource key f rest
  end.

(** [const rule = rules.find(r => r.id === ruleId); if (rule)
    Object.assign(rule, updates)]. *)
Fixpoint mutateRule (ruleId : string) (updates : RuleUpdates)
    (rules : list ColorRule) : list ColorRule :=
  match rules with
  | [] => []
  | rule :: rest =>
      if String.eqb (rule_id rule) ruleId then assign rule updates :: rest
      else rule :: mutateRule ruleId updates rest
  end.

Definition withSources (state : DataSourceState)
    (sources : list DataSource) : DataSourceState :=
  mkState sources (selectedDataSourceId state) (weatherData state)
    (isLoading state) (error state).

Definition setSelectedDataSource (state : DataSourceState) (payload : string)
  : DataSourceState :=
  mkState (availableDataSources state) payload (weatherData state)
    (isLoading state) (error state).

Definition addColorRule (state : DataSourceState) (dataSourceId : string)
    (rule : ColorRule) : DataSourceState :=
  withSources state
    (mutateSource dataSourceId
       (fun ds => withRules ds (colorRules ds ++ [rule])%list)
       (availableDataSources state)).

Definition updateColorRule (state : DataSourceState)
    (dataSourceId ruleId : string) (updates : RuleUpdates)
  : DataSourceState :=
  withSources state
    (mutateSource dataSourceId
       (fun ds => withRules ds (mutateRule ruleId updates (colorRules ds)))
       (availableDataSources state)).

Definition deleteColorRule (state : DataSourceState)
    (dataSourceId ruleId : string) : DataSourceState :=
  withSources state
    (mutateSource dataSourceId
       (fun ds =>
          withRules ds
            (filter (fun r => negb (String.eqb (rule_id r) ruleId))
               (colorRules ds)))
       (availableDataSources state)).

End DataSourceRules.

(** * Vocabulary of the statements

    The terms in which the properties below are worded: orderings,
    selections, histories of calls and sample data.  None of them is part
    of the embedding of the program; each property relates them to the
    definitions above. *)

Module Vocabulary.

(** [notAfter lt a b]: [b] does not compare below [a]. *)
Definition notAfter {A : Type} (lt : A -> A -> bool) (a b : A) : Prop :=
  lt b a = false.

(** Two elements that the comparator tells apart. *)
Definition comparable {A : Type} (lt : A -> A -> bool) (a b : A) : Prop :=
  lt a b = true \/ lt b a = true.

(** The operator tests as the specification words them. *)
Definition operatorTest (v : Q) (r : ColorRule) : Prop :=
  match operator r with
  | OpLt => (v < rule_value r)%Q
  | OpLe => (v <= rule_value r)%Q
  | OpEq => (Qabs (v - rule_value r) < 1 # 10)%Q
  | OpGe => (rule_value r <= v)%Q
  | OpGt => (rule_value r < v)%Q
  end.

(** Ascending by threshold. *)
Definition ascending (rules : list ColorRule) : Prop :=
  StronglySorted (fun a b => (rule_value a <= rule_value b)%Q) rules.

(** The last rule of [rules] that matches, if any. *)
Definition lastMatching (v : Q) (rules : list ColorRule)
  : option ColorRule :=
  find (WeatherService.ruleMatches v) (rev rules).

(** The first rule of [rules] that matches, if any. *)
Definition firstMatching (v : Q) (rules : list ColorRule)
  : option ColorRule :=
  find (WeatherService.ruleMatches v) rules.

Definition colourOr (d : string) (r : option ColorRule) : string :=
  match r with Some r' => rule_color r' | None => d end.

(** No two rules share a threshold. *)
Definition distinctThresholds (rules : list ColorRule) : Prop :=
  ForallOrdPairs (fun a b => ~ (rule_value a == rule_value b)%Q) rules.

(** A rule of [rules] that matches [v] and whose threshold no matching
    rule of [rules] exceeds. *)
Definition topMatch (v : Q) (rules : list ColorRule) (r : ColorRule) : Prop :=
  In r rules /\ WeatherService.ruleMatches v r = true
  /\ forall r', In r' rules -> WeatherService.ruleMatches v r' = true ->
       (rule_value r' <= rule_value r)%Q.

(** The matching rules of highest threshold carry one colour. *)
Definition topMatchesAgree (v : Q) (rules : list ColorRule) : Prop :=
  forall r1 r2, topMatch v rules r1 -> topMatch v rules r2 ->
    rule_color r1 = rule_color r2.

(** Every rule of [rules] that matches [v] carries the same colour. *)
Definition matchesAgree (v : Q) (rules : list ColorRule) : Prop :=
  forall r1 r2, In r1 rules -> In r2 rules ->
    WeatherService.ruleMatches v r1 = true ->
    WeatherService.ruleMatches v r2 = true ->
    rule_color r1 = rule_color r2.

(** The tiered rules of the specification's example. *)
Definition tierGreen : ColorRule := mkColorRule "g" OpGe (10 # 1) "green".
Definition tierRed : ColorRule := mkColorRule "r" OpGe (25 # 1) "red".

(** The values at the indices whose timestamp lies in
    [[windowStart, windowEnd]] and whose value is present. *)
Fixpoint windowed (values : list (option Q)) (timestamps : list Z)
    (windowStart windowEnd : Z) : list Q :=
  match values, timestamps with
  | v :: values', t :: timestamps' =>
      let rest := windowed values' timestamps' windowStart windowEnd in
      match v with
      | Some x =>
          if (windowStart <=? t) && (t <=? windowEnd) then x :: rest
          else rest
      | None => rest
      end
  | _, _ => []
  end.

Definition sumQ (l : list Q) : Q := fold_right Qplus (0 # 1) l.

(** The arithmetic mean of a list of numbers. *)
Definition mean (l : list Q) : Q :=
  (sumQ l / inject_Z (Z.of_nat (List.length l)))%Q.

(** The mean as double arithmetic computes it: the numbers are added
    one by one to 0, from left to right, and the sum is divided by their
    count; every sum and the quotient are rounded to the nearest
    double. *)
Definition roundedMean (l : list Q) : Q :=
  Num.div (fold_left Num.add l (0 # 1)) (inject_Z (Z.of_nat (List.length l))).

(** The doubles nearest to 0.1, 0.2 and 0.3. *)
Definition double01 : Q := 3602879701896397 # 36028797018963968.
Definition double02 : Q := 3602879701896397 # 18014398509481984.
Definition double03 : Q := 5404319552844595 # 18014398509481984.

(** The last present value of a series, if there is one. *)
Fixpoint lastPresent (values : list (option Q)) : option Q :=
  match values with
  | [] => None
  | v :: values' =>
      match lastPresent values' with
      | Some x => Some x
      | None => v
      end
  end.

(** A call on the cache: the clock reading when it is made and its
    arguments. *)
Record Request : Type := mkRequest {
  at_time : Z;
  req_latitude : Q;
  req_longitude : Q;
  req_startDate : string;
  req_endDate : string
}.

Inductive CacheOp : Type :=
| Put (r : Request) (series : OpenMeteo.Response)
| Get (r : Request).

Definition requestKey (r : Request) : string :=
  Cache.generateCacheKey (req_latitude r) (req_longitude r)
    (req_startDate r) (req_endDate r).

Definition opTime (op : CacheOp) : Z :=
  match op with Put r _ => at_time r | Get r => at_time r end.

Definition put (r : Request) (series : OpenMeteo.Response) (c : Cache.t)
  : Cache.t :=
  Cache.cacheWeatherData (at_time r) (req_latitude r) (req_longitude r)
    (req_startDate r) (req_endDate r) series c.

Definition get (r : Request) (c : Cache.t)
  : option OpenMeteo.Response * Cache.t :=
  Cache.getCachedWeatherData (at_time r) (req_latitude r) (req_longitude r)
    (req_startDate r) (req_endDate r) c.

Definition cacheStep (c : Cache.t) (op : CacheOp) : Cache.t :=
  match op with
  | Put r series => put r series c
  | Get r => snd (get r c)
  end.

(** The cache a history of calls leaves, starting from the empty one. *)
Definition runCache (history : list CacheOp) : Cache.t :=
  fold_left cacheStep history Cache.empty.

Definition putOf (p : Request * OpenMeteo.Response) : CacheOp :=
  Put (fst p) (snd p).

(** [delete] applied to a list of keys, first to last. *)
Definition deleteKeys {V : Type} (ks : list string) (m : JsMap.t V)
  : JsMap.t V :=
  fold_left (fun c k => JsMap.delete k c) ks m.

Fixpoint nodupb (l : list string) : bool :=
  match l with
  | [] => true
  | x :: l' => negb (existsb (String.eqb x) l') && nodupb l'
  end.

Fixpoint nondecreasingb (l : list Z) : bool :=
  match l with
  | [] => true
  | x :: l' => forallb (Z.leb x) l' && nondecreasingb l'
  end.

(** The entry a put stores. *)
Definition entryOf (p : Request * OpenMeteo.Response)
  : string * Cache.Entry :=
  (requestKey (fst p), Cache.mkEntry (snd p) (at_time (fst p))).

(** The invariant of the cache: unique keys and at most 50 entries. *)
Definition wellFormed (c : Cache.t) : Prop :=
  NoDup (JsMap.keys c) /\ (JsMap.size c <= 50)%nat.

(** No entry was stored after [t]. *)
Definition storedBy (t : Z) (c : Cache.t) : Prop :=
  Forall (fun e => Cache.timestamp (snd e) <= t) c.

(** Sample data for the concrete instances. *)
Definition sampleSeries : OpenMeteo.Response :=
  OpenMeteo.mkResponse (515 # 10) (-9 # 100)
    (Some (OpenMeteo.mkHourly (Some [0; 3600000])
             (Some [Some (12 # 1); Some (14 # 1)]))).

Definition samplePut (i : nat) : Request * OpenMeteo.Response :=
  (mkRequest (Z.of_nat i) (inject_Z (Z.of_nat i)) (-9 # 100)
     "2024-01-01" "2024-01-02", sampleSeries).

Definition samplePuts : list (Request * OpenMeteo.Response) :=
  map samplePut (seq 0 51).

(** The first fifty sample puts, followed by a put at time 60 under
    the key stored first. *)
Definition renewedCache : Cache.t :=
  runCache
    (map putOf (firstn 50 samplePuts)
     ++ [Put (mkRequest 60 (0 # 1) (-9 # 100) "2024-01-01" "2024-01-02")
           sampleSeries])%list.

(** Two coordinates that are equal after rounding to four decimals and
    that, when they round to zero, are both negative or both not: a
    negative coordinate that rounds to zero renders as "-0.0000". *)
Definition sameTo4Decimals (a b : Q) : Prop :=
  (Format.roundTo4 a == Format.roundTo4 b)%Q
  /\ ((Format.roundTo4 a == 0)%Q -> (Qnum a <? 0) = (Qnum b <? 0)).

(** A polygon that may be persisted: at least three vertices. *)
Definition persistable (p : PolygonSlice.Polygon) : Prop :=
  (3 <= List.length (PolygonSlice.points p))%nat.

(** An action that does not replace a vertex list by one of fewer than
    three points; the application dispatches [updatePolygon] with a
    name only. *)
Definition keepsVertices (a : PolygonSlice.Action) : Prop :=
  match a with
  | PolygonSlice.UpdatePolygon _ u =>
      match PolygonSlice.u_points u with
      | Some pts => (3 <= List.length pts)%nat
      | None => True
      end
  | _ => True
  end.

Definition sampleTriangle : list PolygonSlice.PolygonPoint :=
  [PolygonSlice.mkPoint (515 # 10) (-9 # 100);
   PolygonSlice.mkPoint (516 # 10) (-9 # 100);
   PolygonSlice.mkPoint (515 # 10) (-8 # 100)].

(** The window a refresh was asked for, before validation. *)
Definition selectedWindow (env : Orchestrator.Env)
    (selectedStartTime selectedEndTime : option Z) : Z * Z :=
  Orchestrator.requestedWindow env selectedStartTime selectedEndTime.

(** The window after validation. *)
Definition resolvedWindow (env : Orchestrator.Env)
    (selectedStartTime selectedEndTime : option Z) : Z * Z :=
  let '(startDate, endDate) :=
    selectedWindow env selectedStartTime selectedEndTime in
  Validator.resolve (Orchestrator.now env) startDate endDate.

(** The cache lookup a refresh makes. *)
Definition lookedUp (env : Orchestrator.Env) (polygon : PolygonSlice.Polygon)
    (selectedStartTime selectedEndTime : option Z) (c : Cache.t)
  : option OpenMeteo.Response * Cache.t :=
  let '(centroidLat, centroidLng) :=
    Orchestrator.getPolygonCentroid (PolygonSlice.points polygon) in
  let '(actualStart, actualEnd) :=
    resolvedWindow env selectedStartTime selectedEndTime in
  Cache.getCachedWeatherData (Orchestrator.now env)
    (Format.parsedFixed4 centroidLat) (Format.parsedFixed4 centroidLng)
    (Format.formatDateForAPI actualStart)
    (Format.formatDateForAPI actualEnd) c.

(** The request a refresh sends on a cache miss. *)
Definition requestParams (env : Orchestrator.Env)
    (polygon : PolygonSlice.Polygon)
    (selectedStartTime selectedEndTime : option Z) : Orchestrator.Params :=
  let '(centroidLat, centroidLng) :=
    Orchestrator.getPolygonCentroid (PolygonSlice.points polygon) in
  let '(actualStart, actualEnd) :=
    resolvedWindow env selectedStartTime selectedEndTime in
  Orchestrator.mkParams (Format.fixed4 centroidLat)
    (Format.fixed4 centroidLng) (Format.formatDateForAPI actualStart)
    (Format.formatDateForAPI actualEnd).

(** What a refresh receives: the cached series, or the upstream reply on
    a miss. *)
Definition supplied (env : Orchestrator.Env) (polygon : PolygonSlice.Polygon)
    (selectedStartTime selectedEndTime : option Z) (c : Cache.t)
  : Orchestrator.Reply :=
  match fst (lookedUp env polygon selectedStartTime selectedEndTime c) with
  | Some d => Orchestrator.Resolved d
  | None =>
      Orchestrator.axiosGet env
        (requestParams env polygon selectedStartTime selectedEndTime)
  end.

(** The two arrays of a well-formed body. *)
Definition seriesOf (response : OpenMeteo.Response)
  : option (list Z * list Aggregator.Sample) :=
  match OpenMeteo.hourly response with
  | Some h =>
      match OpenMeteo.time h, OpenMeteo.temperature_2m h with
      | Some times, Some temperatures => Some (times, temperatures)
      | _, _ => None
      end
  | None => None
  end.

(** A refresh fails when the reply is a rejection (time-out, rate limit,
    server error, any other error) or a body without its series. *)
Definition failure (env : Orchestrator.Env) (polygon : PolygonSlice.Polygon)
    (selectedStartTime selectedEndTime : option Z) (c : Cache.t)
  : option Orchestrator.Thrown :=
  match supplied env polygon selectedStartTime selectedEndTime c with
  | Orchestrator.Rejected e => Some e
  | Orchestrator.Resolved d =>
      match seriesOf d with
      | Some _ => None
      | None =>
          Some (Orchestrator.ErrorObject
                  "Invalid response format from Open-Meteo API")
      end
  end.

(** A refresh whose selected window spans sixty days: the clock stands
    at noon of day 100, the selection is [noon of day 40, noon of day 100],
    and upstream, asked for the days 70 to 100, holds one sample at 06:00
    of day 70 and one at 00:00 of day 80. *)
Definition dayMs : Z := 86400000.
Definition noon : Z := 43200000.

Definition sampleTimes : list Z := [70 * dayMs + 21600000; 80 * dayMs].
Definition sampleTemperatures : list Aggregator.Sample :=
  [Some (0 # 1); Some (30 # 1)].

Definition sampleBody : OpenMeteo.Response :=
  OpenMeteo.mkResponse (515 # 10) (-9 # 100)
    (Some (OpenMeteo.mkHourly (Some sampleTimes) (Some sampleTemperatures))).

Definition sampleEnv : Orchestrator.Env :=
  Orchestrator.mkEnv (100 * dayMs + noon) (100 * dayMs + noon + 500)
    (fun _ => Orchestrator.Resolved sampleBody).

Definition selectedStart : Z := 40 * dayMs + noon.
Definition selectedEnd : Z := 100 * dayMs + noon.

(** The same clock with an upstream that times out. *)
Definition timeoutEnv : Orchestrator.Env :=
  Orchestrator.mkEnv (100 * dayMs + noon) (100 * dayMs + noon + 10000)
    (fun _ =>
       Orchestrator.Rejected
         (Orchestrator.AxiosError None (Some "ECONNABORTED") None)).

Definition samplePolygon : PolygonSlice.Polygon :=
  PolygonSlice.mkPolygon "p1" "Polygon 1" sampleTriangle "temperature"
    "#3388ff" None None.

Definition sampleWorld : Orchestrator.World :=
  Orchestrator.mkWorld
    (Orchestrator.mkRoot
       (PolygonSlice.mkState [samplePolygon] false None [])
       (DataSourceSlice.mkState [] "temperature" [] false None))
    [] Cache.empty.

(** The value and colour the store holds for a polygon. *)
Definition shown (polygonId : string) (w : Orchestrator.World)
  : option (string * option Q) :=
  match PolygonSlice.findPolygon polygonId
          (Orchestrator.polygonState (Orchestrator.store w)) with
  | Some p => Some (PolygonSlice.color p, PolygonSlice.value p)
  | None => None
  end.

End Vocabulary.

Import Vocabulary.

(** Further notions, for the properties of the remaining functions. *)

Module Notions.

(** What a refresh must not touch in a polygon: everything except its
    colour and value. *)
Definition outline (p : PolygonSlice.Polygon)
  : string * string * list PolygonSlice.PolygonPoint * string * option bool :=
  (PolygonSlice.id p, PolygonSlice.name p, PolygonSlice.points p,
   PolygonSlice.dataSourceId p, PolygonSlice.isEditing p).

(** The polygon slice with colours and values left out. *)
Definition outlines (s : PolygonSlice.PolygonState)
  : list (string * string * list PolygonSlice.PolygonPoint * string
          * option bool)
    * bool * option string * list PolygonSlice.PolygonPoint :=
  (map outline (PolygonSlice.polygons s), PolygonSlice.isDrawing s,
   PolygonSlice.selectedPolygonId s, PolygonSlice.drawingPoints s).

(** The error slot of the store. *)
Definition errorSlot (w : Orchestrator.World) : option string :=
  DataSourceSlice.error
    (Orchestrator.dataSourceState (Orchestrator.store w)).

Definition loadingFlag (w : Orchestrator.World) : bool :=
  DataSourceSlice.isLoading
    (Orchestrator.dataSourceState (Orchestrator.store w)).

(** The cache a refresh leaves: the lookup may drop a stale entry, and a
    reply fetched on a miss is stored, whatever its body. *)
Definition cacheAfter (env : Orchestrator.Env)
    (polygon : PolygonSlice.Polygon)
    (selectedStartTime selectedEndTime : option Z) (c : Cache.t) : Cache.t :=
  let '(found, c1) :=
    lookedUp env polygon selectedStartTime selectedEndTime c in
  match found with
  | Some _ => c1
  | None =>
      match Orchestrator.axiosGet env
              (requestParams env polygon selectedStartTime selectedEndTime)
      with
      | Orchestrator.Resolved body =>
          let '(centroidLat, centroidLng) :=
            Orchestrator.getPolygonCentroid (PolygonSlice.points polygon) in
          let '(actualStart, actualEnd) :=
            resolvedWindow env selectedStartTime selectedEndTime in
          Cache.cacheWeatherData (Orchestrator.settledAt env)
            (Format.parsedFixed4 centroidLat)
            (Format.parsedFixed4 centroidLng)
            (Format.formatDateForAPI actualStart)
            (Format.formatDateForAPI actualEnd) body c1
      | Orchestrator.Rejected _ => c1
      end
  end.

(** Sample data: a later clock with an upstream that is down, a second
    polygon, the temperature source with the tiered rules. *)
Definition laterDownEnv : Orchestrator.Env :=
  Orchestrator.mkEnv (100 * dayMs + noon + 60000) (100 * dayMs + noon + 70000)
    (fun _ => Orchestrator.Rejected Orchestrator.OtherValue).

Definition secondPolygon : PolygonSlice.Polygon :=
  PolygonSlice.mkPolygon "p2" "Polygon 2"
    [PolygonSlice.mkPoint (40 # 1) (3 # 1);
     PolygonSlice.mkPoint (41 # 1) (3 # 1);
     PolygonSlice.mkPoint (40 # 1) (4 # 1)]
    "temperature" "#3388ff" None None.

Definition temperatureSource : DataSourceSlice.DataSource :=
  DataSourceSlice.mkDataSource "temperature" "Temperature (2m)"
    "temperature_2m" "C" [tierGreen; tierRed] true.

(** The first refresh times out, the following ones are answered. *)
Definition firstDown (i : nat) : Orchestrator.Env :=
  match i with O => timeoutEnv | S _ => sampleEnv end.

(** The selection, when there is one, is the identifier of a polygon of
    the list. *)
Definition selectionResolves (s : PolygonSlice.PolygonState) : Prop :=
  match PolygonSlice.selectedPolygonId s with
  | Some k => exists p, In p (PolygonSlice.polygons s) /\ PolygonSlice.id p = k
  | None => True
  end.

(** A point of the map: latitude within 85 degrees of the equator,
    longitude within 180 degrees of Greenwich. *)
Definition onTheMap (p : PolygonSlice.PolygonPoint) : Prop :=
  (-85 # 1 <= PolygonSlice.lat p)%Q /\ (PolygonSlice.lat p <= 85 # 1)%Q
  /\ (-180 # 1 <= PolygonSlice.lng p)%Q /\ (PolygonSlice.lng p <= 180 # 1)%Q.

(** The centroid is a point of the map. *)
Definition centroidOnTheMap (pts : list PolygonSlice.PolygonPoint) : Prop :=
  exists centroidLat centroidLng : Q,
    Orchestrator.getPolygonCentroid pts
    = (Num.Finite centroidLat, Num.Finite centroidLng)
    /\ onTheMap (PolygonSlice.mkPoint centroidLat centroidLng).

(** A click inside an overlay of positive width and height. *)
Definition wellSized (event : MapContainer.Event) : Prop :=
  match event with
  | MapContainer.MapClicked e =>
      (0 < MapContainer.rectWidth e)%Q /\ (0 < MapContainer.rectHeight e)%Q
  | _ => True
  end.

Definition sampleClick (x y : Z) : MapContainer.Click :=
  MapContainer.mkClick (inject_Z x) (inject_Z y) (0 # 1) (0 # 1) (800 # 1)
    (600 # 1) (51505 # 1000) (-9 # 100) (87 # 10000).

(** The vertices drawn and the vertices persisted are on the map, and
    every persisted polygon has at least three of them. *)
Definition drawnOnTheMap (s : PolygonSlice.PolygonState) : Prop :=
  Forall onTheMap (PolygonSlice.drawingPoints s)
  /\ Forall
       (fun p => persistable p /\ Forall onTheMap (PolygonSlice.points p))
       (PolygonSlice.polygons s).

(** The store's data sources at start, with the tiered rules. *)
Definition sampleSources : DataSourceSlice.DataSourceState :=
  DataSourceSlice.mkState [temperatureSource] "temperature" [] false None.

Definition coldRule : ColorRule := mkColorRule "c" OpLt (0 # 1) "blue".

End Notions.

Import Notions.

(** * Properties *)

(** ** The stable sort *)

Section SortFacts.
Context {A : Type}.
Variable lt : A -> A -> bool.

Hypothesis lt_asym : forall a b, lt a b = true -> lt b a = false.
Hypothesis le_trans :
  forall a b c, notAfter lt a b -> notAfter lt b c -> notAfter lt a c.

Lemma lt_le_trans a b c : lt a b = true -> notAfter lt b c -> notAfter lt a c.
Proof.
  intros Hab Hbc. unfold notAfter in *.
  destruct (lt c a) eqn:Hca; [| reflexivity].
  assert (Hb : notAfter lt b a).
  { apply (le_trans b c a); unfold notAfter; auto. }
  unfold notAfter in Hb. congruence.
Qed.

Lemma insertLast_perm x l : Permutation (x :: l) (JsArray.insertLast lt x l).
Proof.
  induction l as [| y l IH]; simpl.
  - apply Permutation_refl.
  - destruct (lt x y).
    + apply Permutation_refl.
    + eapply perm_trans; [apply perm_swap |]. now apply perm_skip.
Qed.

Lemma fold_insert_perm l acc :
  Permutation (acc ++ l)
    (fold_left (fun a x => JsArray.insertLast lt x a) l acc).
Proof.
  revert acc. induction l as [| x l IH]; intros acc; simpl.
  - rewrite app_nil_r. apply Permutation_refl.
  - eapply perm_trans; [| apply IH].
    eapply perm_trans; [apply Permutation_sym, Permutation_middle |].
    change (x :: acc ++ l)%list with ((x :: acc) ++ l)%list.
    apply Permutation_app_tail, insertLast_perm.
Qed.

Lemma sort_perm l : Permutation l (JsArray.sort lt l).
Proof. exact (fold_insert_perm l []). Qed.

Lemma insertLast_sorted x l :
  StronglySorted (notAfter lt) l ->
  StronglySorted (notAfter lt) (JsArray.insertLast lt x l).
Proof.
  induction l as [| y l IH]; intros Hs; simpl.
  - constructor; [constructor | constructor].
  - inversion Hs as [| ? ? Hl Hy]; subst.
    destruct (lt x y) eqn:Hxy.
    + constructor; [exact Hs |].
      constructor.
      * unfold notAfter. now apply lt_asym.
      * rewrite Forall_forall in *. intros z Hz.
        apply (lt_le_trans x y z Hxy). now apply Hy.
    + constructor; [now apply IH |].
      apply (Permutation_Forall (insertLast_perm x l)).
      constructor; [exact Hxy | exact Hy].
Qed.

Lemma fold_insert_sorted l acc :
  StronglySorted (notAfter lt) acc ->
  StronglySorted (notAfter lt)
    (fold_left (fun a x => JsArray.insertLast lt x a) l acc).
Proof.
  revert acc. induction l as [| x l IH]; intros acc Hs; simpl; auto.
  apply IH. now apply insertLast_sorted.
Qed.

Lemma sort_sorted l : StronglySorted (notAfter lt) (JsArray.sort lt l).
Proof. apply fold_insert_sorted. constructor. Qed.

(** An element that no element of [l] exceeds goes to the end. *)
Lemma insertLast_end x l :
  Forall (fun y => notAfter lt y x) l ->
  JsArray.insertLast lt x l = (l ++ [x])%list.
Proof.
  induction 1 as [| y l Hy _ IH]; simpl; [reflexivity |].
  unfold notAfter in Hy. rewrite Hy, IH. reflexivity.
Qed.

Lemma sorted_app_last l x :
  StronglySorted (notAfter lt) (l ++ [x]) ->
  Forall (fun y => notAfter lt y x) l.
Proof.
  induction l as [| y l IH]; simpl; intros Hs; [constructor |].
  inversion Hs as [| ? ? Hl Hy]; subst.
  constructor; [| now apply IH].
  rewrite Forall_forall in Hy. apply Hy, in_or_app. right. now left.
Qed.

Lemma sorted_app_front (l1 l2 : list A) :
  StronglySorted (notAfter lt) (l1 ++ l2) -> StronglySorted (notAfter lt) l1.
Proof.
  induction l1 as [| y l1 IH]; simpl; intros Hs; [constructor |].
  inversion Hs as [| ? ? Hl Hy]; subst.
  constructor; [now apply IH |].
  apply Forall_app in Hy. tauto.
Qed.

(** Sorting leaves an already sorted array as it is. *)
Lemma fold_insert_sorted_id l acc :
  StronglySorted (notAfter lt) (acc ++ l) ->
  fold_left (fun a x => JsArray.insertLast lt x a) l acc = (acc ++ l)%list.
Proof.
  revert acc. induction l as [| x l IH]; intros acc Hs; simpl.
  - now rewrite app_nil_r.
  - assert (Hs' : StronglySorted (notAfter lt) ((acc ++ [x]) ++ l)).
    { now rewrite <- app_assoc. }
    rewrite insertLast_end.
    + rewrite IH by exact Hs'. now rewrite <- app_assoc.
    + apply sorted_app_last. now apply sorted_app_front in Hs'.
Qed.

Lemma sort_sorted_id l :
  StronglySorted (notAfter lt) l -> JsArray.sort lt l = l.
Proof. intros Hs. exact (fold_insert_sorted_id l [] Hs). Qed.

(** Two strictly ascending arrangements of the same elements coincide. *)
Lemma strictly_sorted_unique l1 l2 :
  StronglySorted (fun a b => lt a b = true) l1 ->
  StronglySorted (fun a b => lt a b = true) l2 ->
  Permutation l1 l2 -> l1 = l2.
Proof.
  revert l2. induction l1 as [| a t1 IH]; intros l2 H1 H2 Hp.
  - apply Permutation_nil in Hp. now subst.
  - destruct l2 as [| b t2].
    + apply Permutation_sym, Permutation_nil in Hp. discriminate.
    + inversion H1 as [| ? ? Ht1 Ha]; subst.
      inversion H2 as [| ? ? Ht2 Hb]; subst.
      rewrite Forall_forall in Ha, Hb.
      assert (Hab : a = b).
      { assert (Hin1 : In a (b :: t2)).
        { apply (Permutation_in _ Hp). now left. }
        assert (Hin2 : In b (a :: t1)).
        { apply (Permutation_in _ (Permutation_sym Hp)). now left. }
        destruct Hin1 as [-> | Hin1]; [reflexivity |].
        destruct Hin2 as [-> | Hin2]; [reflexivity |].
        apply Hb in Hin1. apply Ha in Hin2.
        apply lt_asym in Hin1. congruence. }
      subst b. f_equal.
      apply IH; auto. now apply Permutation_cons_inv in Hp.
Qed.

Lemma comparable_pairs_perm l l' :
  Permutation l l' ->
  ForallOrdPairs (comparable lt) l -> ForallOrdPairs (comparable lt) l'.
Proof.
  induction 1 as [| x l l' Hp IH | x y l | l l' l'' _ IH1 _ IH2]; intros Hf.
  - exact Hf.
  - inversion Hf; subst. constructor; [| now apply IH].
    now apply (Permutation_Forall Hp).
  - inversion Hf as [| ? ? Hy Hf']; subst.
    inversion Hf' as [| ? ? Hx Hf'']; subst.
    inversion Hy as [| ? ? Hyx Hyl]; subst.
    constructor; [| constructor; assumption].
    constructor; [| assumption].
    unfold comparable in *. tauto.
  - auto.
Qed.

Lemma sorted_comparable_strict l :
  StronglySorted (notAfter lt) l -> ForallOrdPairs (comparable lt) l ->
  StronglySorted (fun a b => lt a b = true) l.
Proof.
  induction 1 as [| a l Hs IH Ha]; intros Hf; [constructor |].
  inversion Hf as [| ? ? Hc Hf']; subst.
  constructor; [now apply IH |].
  rewrite Forall_forall in *. intros b Hb.
  specialize (Ha b Hb). specialize (Hc b Hb).
  unfold notAfter, comparable in *. destruct Hc; congruence.
Qed.

(** With pairwise distinct keys the sorted array does not depend on the
    order of the input. *)
Lemma sort_perm_invariant l l' :
  ForallOrdPairs (comparable lt) l -> Permutation l l' ->
  JsArray.sort lt l = JsArray.sort lt l'.
Proof.
  intros Hf Hp.
  assert (Hpp : Permutation (JsArray.sort lt l) (JsArray.sort lt l')).
  { eapply perm_trans; [apply Permutation_sym, sort_perm |].
    eapply perm_trans; [exact Hp | apply sort_perm]. }
  apply strictly_sorted_unique; auto.
  - apply sorted_comparable_strict; [apply sort_sorted |].
    apply (comparable_pairs_perm l); [apply sort_perm | exact Hf].
  - apply sorted_comparable_strict; [apply sort_sorted |].
    apply (comparable_pairs_perm l); [| exact Hf].
    eapply perm_trans; [exact Hp | apply sort_perm].
Qed.

End SortFacts.

Lemma StronglySorted_weaken {A : Type} (P Q : A -> A -> Prop) (l : list A) :
  (forall a b, P a b -> Q a b) -> StronglySorted P l -> StronglySorted Q l.
Proof.
  intros Hpq. induction 1 as [| a l Hs IH Ha]; constructor; auto.
  eapply Forall_impl; [| exact Ha]. intros b. apply Hpq.
Qed.

(** ** The classifier *)

Section ClassifierFacts.
Import WeatherService.

Lemma ltb_lt x y : Num.ltb x y = true <-> (x < y)%Q.
Proof.
  unfold Num.ltb. rewrite negb_true_iff. split; intros H.
  - apply Qnot_le_lt. intros Hle. apply Qle_bool_iff in Hle. congruence.
  - destruct (Qle_bool y x) eqn:E; [| reflexivity].
    apply Qle_bool_iff in E. exfalso. exact (Qlt_not_le _ _ H E).
Qed.

Lemma leb_le x y : Num.leb x y = true <-> (x <= y)%Q.
Proof. apply Qle_bool_iff. Qed.

Lemma notAfter_le a b :
  notAfter ruleBefore a b <-> (rule_value a <= rule_value b)%Q.
Proof.
  unfold notAfter, ruleBefore, Num.ltb. rewrite negb_false_iff.
  apply Qle_bool_iff.
Qed.

Lemma ruleBefore_asym a b : ruleBefore a b = true -> ruleBefore b a = false.
Proof.
  intros H. apply ltb_lt in H. apply (proj2 (notAfter_le a b)).
  now apply Qlt_le_weak.
Qed.

Lemma ruleBefore_trans a b c :
  notAfter ruleBefore a b -> notAfter ruleBefore b c ->
  notAfter ruleBefore a c.
Proof. rewrite !notAfter_le. apply Qle_trans. Qed.

Lemma ruleMatches_test v r : ruleMatches v r = true <-> operatorTest v r.
Proof.
  unfold ruleMatches, operatorTest, Num.abs.
  destruct (operator r); first [apply ltb_lt | apply leb_le].
Qed.

Lemma sortRules_ascending R : ascending (sortRules R).
Proof.
  unfold ascending, sortRules.
  eapply StronglySorted_weaken;
    [| apply (sort_sorted ruleBefore ruleBefore_asym ruleBefore_trans)].
  intros a b. apply notAfter_le.
Qed.

(** The loop keeps the colour of the last rule that matched. *)
Lemma fold_applyRule_last v l d :
  fold_left (applyRule v) l d = colourOr d (lastMatching v l).
Proof.
  unfold lastMatching.
  induction l as [| x l IH] using rev_ind; [reflexivity |].
  rewrite fold_left_app, rev_app_distr. simpl.
  unfold applyRule at 1. destruct (ruleMatches v x); [reflexivity | exact IH].
Qed.

Lemma applyColorRules_sorted v R :
  applyColorRules v R = colourOr defaultColor (lastMatching v (sortRules R)).
Proof.
  destruct R as [| r R]; [reflexivity |].
  unfold applyColorRules. apply fold_applyRule_last.
Qed.

(** The test inlined in the earlier loop is the same [switch]. *)
Lemma firstMatch_cons v x l :
  LegacyWeatherService.firstMatch v (x :: l)
  = if ruleMatches v x then rule_color x
    else LegacyWeatherService.firstMatch v l.
Proof. reflexivity. Qed.

(** The earlier loop returns the colour of the first rule that matches. *)
Lemma firstMatch_first v l :
  LegacyWeatherService.firstMatch v l
  = colourOr defaultColor (firstMatching v l).
Proof.
  unfold firstMatching.
  induction l as [| x l IH]; [reflexivity |].
  rewrite firstMatch_cons. cbn [find].
  destruct (ruleMatches v x); [reflexivity | exact IH].
Qed.

Lemma distinct_comparable R :
  distinctThresholds R -> ForallOrdPairs (comparable ruleBefore) R.
Proof.
  unfold distinctThresholds.
  induction 1 as [| a l Ha _ IH]; constructor; [| exact IH].
  eapply Forall_impl; [| exact Ha]. intros b Hab. unfold comparable, ruleBefore.
  destruct (Q_dec (rule_value a) (rule_value b)) as [[Hlt | Hgt] | Heq].
  - left. now apply ltb_lt.
  - right. now apply ltb_lt.
  - contradiction.
Qed.


(** C7, as stated, fails: two rules with the same threshold keep their
    input order, so swapping them changes the colour. *)
Lemma applyColorRules_order_dependent :
  let a := mkColorRule "a" OpGe (10 # 1) "green" in
  let b := mkColorRule "b" OpLe (10 # 1) "red" in
  Permutation [a; b] [b; a]
  /\ applyColorRules (10 # 1) [a; b] = "red"
  /\ applyColorRules (10 # 1) [b; a] = "green"
  /\ ~ (forall (R R' : list ColorRule) (v : Q),
          Permutation R R' -> applyColorRules v R = applyColorRules v R').
Proof.
  intros a b. split; [apply perm_swap |].
  split; [reflexivity |]. split; [reflexivity |].
  intros H. specialize (H [a; b] [b; a] (10 # 1) (perm_swap _ _ _)).
  vm_compute in H. discriminate H.
Qed.




End ClassifierFacts.

(** ** Rounding to the nearest double *)

Section RoundingFacts.
Import Num.
Local Open Scope Q_scope.

Lemma pow2_pos k : 0 < pow2 k.
Proof. apply Qpower_0_lt. reflexivity. Qed.

Lemma pow2_plus a b : pow2 (a + b) == pow2 a * pow2 b.
Proof. apply Qpower_plus. discriminate. Qed.

Lemma pow2_le a b : (a <= b)%Z -> pow2 a <= pow2 b.
Proof. intros H. apply Qpower_le_compat_l; [exact H | discriminate]. Qed.

Lemma pow2_lt a b : (a < b)%Z -> pow2 a < pow2 b.
Proof. intros H. apply Qpower_lt_compat_l; [exact H | reflexivity]. Qed.

Lemma pow2_Z k : (0 <= k)%Z -> pow2 k == inject_Z (2 ^ k).
Proof. intros H. unfold pow2. rewrite (Zpower_Qpower 2 k H). reflexivity. Qed.

Lemma roundHalfEven_range x :
  (Qfloor x <= roundHalfEven x <= Qfloor x + 1)%Z.
Proof.
  unfold roundHalfEven.
  destruct (x - inject_Z (Qfloor x) ?= 1 # 2); [destruct (Z.even _) | |]; lia.
Qed.

Lemma roundHalfEven_le x y : x <= y -> (roundHalfEven x <= roundHalfEven y)%Z.
Proof.
  intros Hxy. pose proof (Qfloor_resp_le x y Hxy) as Hf.
  pose proof (roundHalfEven_range x) as Hx.
  pose proof (roundHalfEven_range y) as Hy.
  destruct (Z.eq_dec (Qfloor x) (Qfloor y)) as [E | N]; [| lia].
  clear Hx Hy Hf. unfold roundHalfEven. rewrite <- E.
  destruct (Qcompare_spec (x - inject_Z (Qfloor x)) (1 # 2)) as [Hx | Hx | Hx];
    destruct (Qcompare_spec (y - inject_Z (Qfloor x)) (1 # 2)) as [Hy | Hy | Hy];
    try (destruct (Z.even (Qfloor x))); try lia; exfalso; lra.
Qed.

Lemma roundHalfEven_Z z : roundHalfEven (inject_Z z) = z.
Proof.
  unfold roundHalfEven. rewrite Qfloor_Z.
  destruct (Qcompare_spec (inject_Z z - inject_Z z) (1 # 2)) as [H | H | H];
    [exfalso; lra | reflexivity | exfalso; lra].
Qed.

Lemma roundHalfEven_eq x z : x == inject_Z z -> roundHalfEven x = z.
Proof.
  intros H. apply Z.le_antisymm.
  - rewrite <- (roundHalfEven_Z z). apply roundHalfEven_le. lra.
  - rewrite <- (roundHalfEven_Z z) at 1. apply roundHalfEven_le. lra.
Qed.

(** [ilog2 x] is the integer part of the binary logarithm of [x]. *)
Lemma ilog2_spec x : 0 < x -> pow2 (ilog2 x) <= x /\ x < pow2 (ilog2 x + 1).
Proof.
  intros Hx. destruct x as [a b]. unfold ilog2. cbn [Qnum Qden].
  assert (Ha : (0 < a)%Z).
  { unfold Qlt in Hx. cbn in Hx. lia. }
  set (la := Z.log2 a). set (lb := Z.log2 (Z.pos b)).
  pose proof (Z.log2_spec a Ha) as [Ha1 Ha2]. fold la in Ha1, Ha2.
  pose proof (Z.log2_spec (Z.pos b) ltac:(lia)) as [Hb1 Hb2].
  fold lb in Hb1, Hb2.
  pose proof (Z.log2_nonneg a) as Hla. fold la in Hla.
  pose proof (Z.log2_nonneg (Z.pos b)) as Hlb. fold lb in Hlb.
  assert (Hq : a # b == inject_Z a / inject_Z (Z.pos b)).
  { rewrite (Qmake_Qdiv a b). reflexivity. }
  assert (Hbpos : 0 < inject_Z (Z.pos b)).
  { change 0 with (inject_Z 0). rewrite <- Zlt_Qlt. lia. }
  assert (Ha1q : pow2 la <= inject_Z a).
  { rewrite pow2_Z by exact Hla. rewrite <- Zle_Qle. exact Ha1. }
  assert (Ha2q : inject_Z a < pow2 (la + 1)).
  { rewrite pow2_Z by lia. rewrite <- Zlt_Qlt.
    replace (la + 1)%Z with (Z.succ la) by lia. exact Ha2. }
  assert (Hb1q : pow2 lb <= inject_Z (Z.pos b)).
  { rewrite pow2_Z by exact Hlb. rewrite <- Zle_Qle. exact Hb1. }
  assert (Hb2q : inject_Z (Z.pos b) < pow2 (lb + 1)).
  { rewrite pow2_Z by lia. rewrite <- Zlt_Qlt.
    replace (lb + 1)%Z with (Z.succ lb) by lia. exact Hb2. }
  assert (Hup : a # b < pow2 (la - lb + 1)).
  { rewrite Hq. apply Qlt_shift_div_r; [exact Hbpos |].
    apply Qlt_le_trans with (pow2 (la + 1)); [exact Ha2q |].
    replace (la + 1)%Z with ((la - lb + 1) + lb)%Z by lia.
    rewrite pow2_plus. apply Qmult_le_l; [apply pow2_pos | exact Hb1q]. }
  assert (Hlow : pow2 (la - lb - 1) <= a # b).
  { rewrite Hq. apply Qle_shift_div_l; [exact Hbpos |].
    apply Qle_trans with (pow2 la); [| exact Ha1q].
    replace la with ((la - lb - 1) + (lb + 1))%Z at 2 by lia.
    rewrite pow2_plus. apply Qmult_le_l; [apply pow2_pos |].
    apply Qlt_le_weak. exact Hb2q. }
  destruct (Qle_bool (pow2 (la - lb)) (a # b)) eqn:E.
  - apply Qle_bool_iff in E. split; assumption.
  - split; [exact Hlow |].
    replace (la - lb - 1 + 1)%Z with (la - lb)%Z by lia.
    apply Qnot_le_lt. intros H. apply Qle_bool_iff in H. congruence.
Qed.

Lemma ilog2_le x y : 0 < x -> x <= y -> (ilog2 x <= ilog2 y)%Z.
Proof.
  intros Hx Hxy.
  destruct (ilog2_spec x Hx) as [Hx1 _].
  destruct (ilog2_spec y ltac:(lra)) as [_ Hy2].
  destruct (Z_le_gt_dec (ilog2 x) (ilog2 y)) as [H | H]; [exact H |].
  exfalso. pose proof (pow2_le (ilog2 y + 1) (ilog2 x) ltac:(lia)). lra.
Qed.

Lemma spacing_le x y : 0 < x -> x <= y -> (spacing x <= spacing y)%Z.
Proof.
  intros Hx Hxy. pose proof (ilog2_le x y Hx Hxy). unfold spacing. lia.
Qed.

(** The scaled significand of a positive number is below [2^53]. *)
Lemma scaled_below x : 0 < x -> x / pow2 (spacing x) < inject_Z (2 ^ 53).
Proof.
  intros Hx. destruct (ilog2_spec x Hx) as [_ H2].
  apply Qlt_shift_div_r; [apply pow2_pos |].
  rewrite <- pow2_Z by lia. rewrite <- pow2_plus.
  apply Qlt_le_trans with (pow2 (ilog2 x + 1)); [exact H2 |].
  apply pow2_le. unfold spacing. lia.
Qed.

(** Above the subnormal range it is at least [2^52]. *)
Lemma scaled_above x :
  0 < x -> (-1074 < spacing x)%Z -> inject_Z (2 ^ 52) <= x / pow2 (spacing x).
Proof.
  intros Hx Hs. destruct (ilog2_spec x Hx) as [H1 _].
  apply Qle_shift_div_l; [apply pow2_pos |].
  rewrite <- pow2_Z by lia. rewrite <- pow2_plus.
  apply Qle_trans with (pow2 (ilog2 x)); [| exact H1].
  apply pow2_le. unfold spacing in *. lia.
Qed.

Lemma roundPositive_nonneg x : 0 < x -> 0 <= roundPositive x.
Proof.
  intros Hx. unfold roundPositive.
  apply Qmult_le_0_compat; [| apply Qlt_le_weak, pow2_pos].
  change 0 with (inject_Z 0). rewrite <- Zle_Qle.
  rewrite <- (roundHalfEven_Z 0). apply roundHalfEven_le.
  apply Qle_shift_div_l; [apply pow2_pos |].
  change (inject_Z 0) with 0. rewrite Qmult_0_l. lra.
Qed.

Lemma roundPositive_upper x :
  0 < x -> roundPositive x <= pow2 (spacing x + 53).
Proof.
  intros Hx. unfold roundPositive.
  replace (spacing x + 53)%Z with (53 + spacing x)%Z by lia.
  rewrite pow2_plus.
  apply Qmult_le_compat_r; [| apply Qlt_le_weak, pow2_pos].
  rewrite (pow2_Z 53) by lia. rewrite <- Zle_Qle.
  rewrite <- (roundHalfEven_Z (2 ^ 53)). apply roundHalfEven_le.
  apply Qlt_le_weak. now apply scaled_below.
Qed.

Lemma roundPositive_lower x :
  0 < x -> (-1074 < spacing x)%Z -> pow2 (spacing x + 52) <= roundPositive x.
Proof.
  intros Hx Hs. unfold roundPositive.
  replace (spacing x + 52)%Z with (52 + spacing x)%Z by lia.
  rewrite pow2_plus.
  apply Qmult_le_compat_r; [| apply Qlt_le_weak, pow2_pos].
  rewrite (pow2_Z 52) by lia. rewrite <- Zle_Qle.
  rewrite <- (roundHalfEven_Z (2 ^ 52)) at 1. apply roundHalfEven_le.
  now apply scaled_above.
Qed.

Lemma roundPositive_le x y :
  0 < x -> x <= y -> roundPositive x <= roundPositive y.
Proof.
  intros Hx Hxy. assert (Hy : 0 < y) by lra.
  pose proof (spacing_le x y Hx Hxy) as Hs.
  destruct (Z.eq_dec (spacing x) (spacing y)) as [E | N].
  - unfold roundPositive. rewrite E.
    apply Qmult_le_compat_r; [| apply Qlt_le_weak, pow2_pos].
    rewrite <- Zle_Qle. apply roundHalfEven_le.
    apply Qmult_le_compat_r; [exact Hxy |].
    apply Qlt_le_weak, Qinv_lt_0_compat, pow2_pos.
  - apply Qle_trans with (pow2 (spacing x + 53));
      [now apply roundPositive_upper |].
    apply Qle_trans with (pow2 (spacing y + 52)).
    + apply pow2_le. lia.
    + apply roundPositive_lower; [exact Hy |].
      unfold spacing in *. lia.
Qed.

(** Rounding to the nearest double is monotone. *)
Lemma round_le x y : x <= y -> round x <= round y.
Proof.
  intros Hxy. unfold round.
  destruct (Qcompare_spec x 0) as [Hx | Hx | Hx];
    destruct (Qcompare_spec y 0) as [Hy | Hy | Hy];
    rewrite ?Qred_correct; try lra.
  - now apply roundPositive_nonneg.
  - pose proof (roundPositive_nonneg (- x) ltac:(lra)). lra.
  - pose proof (roundPositive_le (- y) (- x) ltac:(lra) ltac:(lra)). lra.
  - pose proof (roundPositive_nonneg (- x) ltac:(lra)).
    pose proof (roundPositive_nonneg y Hy). lra.
  - now apply roundPositive_le.
Qed.

Lemma round_eq x y : x == y -> round x == round y.
Proof.
  intros H. apply Qle_antisym; apply round_le; lra.
Qed.

Lemma roundPositive_Z z :
  (0 < z <= 2 ^ 53)%Z -> roundPositive (inject_Z z) == inject_Z z.
Proof.
  intros [Hz1 Hz2].
  assert (Hx : 0 < inject_Z z).
  { change 0 with (inject_Z 0). rewrite <- Zlt_Qlt. exact Hz1. }
  destruct (ilog2_spec (inject_Z z) Hx) as [H1 H2].
  set (e := ilog2 (inject_Z z)) in *.
  assert (He0 : (0 <= e)%Z).
  { destruct (Z_le_gt_dec 0 e) as [H | H]; [exact H | exfalso].
    pose proof (pow2_le (e + 1) 0 ltac:(lia)) as Hp.
    change (pow2 0) with 1 in Hp.
    assert (1 <= inject_Z z).
    { change 1 with (inject_Z 1). rewrite <- Zle_Qle. lia. }
    lra. }
  assert (He53 : (e <= 53)%Z).
  { destruct (Z_le_gt_dec e 53) as [H | H]; [exact H | exfalso].
    pose proof (pow2_le 54 e ltac:(lia)) as Hp.
    assert (inject_Z z <= inject_Z (2 ^ 53)) by (rewrite <- Zle_Qle; exact Hz2).
    assert (pow2 53 < pow2 54) by (apply pow2_lt; lia).
    rewrite (pow2_Z 53) in H3 by lia. lra. }
  unfold roundPositive. fold e.
  assert (Hs : spacing (inject_Z z) = (e - 52)%Z).
  { unfold spacing. fold e. lia. }
  rewrite Hs.
  destruct (Z_le_gt_dec e 52) as [Hle | Hgt].
  - rewrite (roundHalfEven_eq _ (z * 2 ^ (52 - e))).
    + rewrite inject_Z_mult, <- (pow2_Z (52 - e)) by lia.
      rewrite <- Qmult_assoc, <- pow2_plus.
      replace (52 - e + (e - 52))%Z with 0%Z by lia.
      change (pow2 0) with 1. ring.
    + rewrite inject_Z_mult, <- (pow2_Z (52 - e)) by lia.
      unfold Qdiv. apply Qmult_comp; [reflexivity |].
      replace (52 - e)%Z with (- (e - 52))%Z by lia.
      unfold pow2. rewrite Qpower_opp. reflexivity.
  - assert (e = 53%Z) by lia. subst e.
    assert (Hz : z = (2 ^ 53)%Z).
    { rewrite H in H1. rewrite (pow2_Z 53) in H1 by lia.
      rewrite <- Zle_Qle in H1. lia. }
    rewrite H, Hz. vm_compute. reflexivity.
Qed.

(** Whole numbers up to [2^53] in magnitude are doubles. *)
Lemma round_Z z : (Z.abs z <= 2 ^ 53)%Z -> round (inject_Z z) == inject_Z z.
Proof.
  intros Hz. unfold round.
  destruct (Qcompare_spec (inject_Z z) 0) as [H | H | H].
  - rewrite H. reflexivity.
  - rewrite Qred_correct.
    change 0 with (inject_Z 0) in H. rewrite <- Zlt_Qlt in H.
    rewrite <- inject_Z_opp. rewrite roundPositive_Z by lia.
    rewrite inject_Z_opp. ring.
  - rewrite Qred_correct.
    change 0 with (inject_Z 0) in H. rewrite <- Zlt_Qlt in H.
    apply roundPositive_Z. lia.
Qed.


Lemma roundHalfEven_error t : Qabs (inject_Z (roundHalfEven t) - t) <= 1 # 2.
Proof.
  pose proof (Qfloor_le t) as H1. pose proof (Qlt_floor t) as H2.
  rewrite inject_Z_plus in H2. change (inject_Z 1) with 1 in H2.
  apply Qabs_Qle_condition. unfold roundHalfEven.
  destruct (Qcompare_spec (t - inject_Z (Qfloor t)) (1 # 2)) as [H | H | H];
    [destruct (Z.even (Qfloor t)) | |];
    rewrite ?inject_Z_plus; change (inject_Z 1) with 1; split; lra.
Qed.

Lemma roundPositive_error x M :
  0 < x -> x <= M -> 1 <= M ->
  Qabs (roundPositive x - x) <= M / inject_Z (2 ^ 53).
Proof.
  intros Hx HxM HM. destruct (ilog2_spec x Hx) as [H1 _].
  pose proof (roundHalfEven_error (x / pow2 (spacing x))) as He.
  pose proof (pow2_pos (spacing x)) as Hp.
  assert (Hhalf : Qabs (roundPositive x - x) <= pow2 (spacing x) * (1 # 2)).
  { unfold roundPositive.
    setoid_replace
      (inject_Z (roundHalfEven (x / pow2 (spacing x))) * pow2 (spacing x) - x)
      with ((inject_Z (roundHalfEven (x / pow2 (spacing x)))
             - x / pow2 (spacing x)) * pow2 (spacing x))
      by (field; lra).
    rewrite Qabs_Qmult, (Qabs_pos (pow2 (spacing x))) by lra.
    rewrite Qmult_comm. apply Qmult_le_l; [exact Hp | exact He]. }
  apply Qle_trans with (pow2 (spacing x) * (1 # 2)); [exact Hhalf |].
  apply Qle_shift_div_l; [reflexivity |].
  assert (H53 : pow2 (spacing x) * (1 # 2) * inject_Z (2 ^ 53)
                == pow2 (spacing x + 52)).
  { rewrite pow2_plus, (pow2_Z 52) by lia.
    change (inject_Z (2 ^ 53)) with (2 * inject_Z (2 ^ 52)). ring. }
  rewrite H53. unfold spacing.
  destruct (Z.max_spec (ilog2 x - 52) (-1074)) as [[_ ->] | [_ ->]].
  - apply Qle_trans with 1; [| exact HM].
    change 1 with (pow2 0). apply pow2_le. lia.
  - replace (ilog2 x - 52 + 52)%Z with (ilog2 x) by lia. lra.
Qed.

(** Rounding moves a number of magnitude at most [M] by at most
    [M / 2^53]. *)
Lemma round_error x M :
  Qabs x <= M -> 1 <= M -> Qabs (round x - x) <= M / inject_Z (2 ^ 53).
Proof.
  intros HxM HM. unfold round.
  destruct (Qcompare_spec x 0) as [H | H | H]; rewrite ?Qred_correct.
  - setoid_replace ((0 # 1) - x) with 0 by lra.
    apply Qle_shift_div_l; [reflexivity |].
    change (Qabs 0) with 0. lra.
  - rewrite <- (Qabs_opp x) in HxM. rewrite Qabs_pos in HxM by lra.
    pose proof (roundPositive_error (- x) M ltac:(lra) HxM HM) as He.
    rewrite <- Qabs_opp.
    setoid_replace (- (- roundPositive (- x) - x))
      with (roundPositive (- x) - - x) by ring.
    exact He.
  - rewrite Qabs_pos in HxM by lra.
    now apply roundPositive_error.
Qed.

(** Sums of numbers between whole bounds stay between the multiples of
    the bounds, as long as these are doubles. *)
Lemma fold_add_bracket (lo hi N : Z) (l : list Q) :
  (N * Z.max (Z.abs lo) (Z.abs hi) <= 2 ^ 53)%Z ->
  Forall (fun x => inject_Z lo <= x /\ x <= inject_Z hi) l ->
  forall (acc : Q) (k : Z),
    (0 <= k)%Z -> (k + Z.of_nat (List.length l) <= N)%Z ->
    inject_Z (k * lo) <= acc /\ acc <= inject_Z (k * hi) ->
    inject_Z ((k + Z.of_nat (List.length l)) * lo)
    <= fold_left Num.add l acc
    /\ fold_left Num.add l acc
       <= inject_Z ((k + Z.of_nat (List.length l)) * hi).
Proof.
  intros HN. induction 1 as [| x l [Hlo Hhi] _ IH]; intros acc k Hk Hlen Hacc.
  - cbn [List.length fold_left Z.of_nat]. rewrite Z.add_0_r. exact Hacc.
  - cbn [List.length fold_left] in *. rewrite Nat2Z.inj_succ in *.
    replace (k + Z.succ (Z.of_nat (List.length l)))%Z
      with ((k + 1) + Z.of_nat (List.length l))%Z by lia.
    apply IH; [lia | lia |].
    destruct Hacc as [Ha1 Ha2]. unfold Num.add.
    rewrite <- (round_Z ((k + 1) * lo)), <- (round_Z ((k + 1) * hi)) by nia.
    split; apply round_le.
    + replace ((k + 1) * lo)%Z with (k * lo + lo)%Z by lia.
      rewrite inject_Z_plus. lra.
    + replace ((k + 1) * hi)%Z with (k * hi + hi)%Z by lia.
      rewrite inject_Z_plus. lra.
Qed.

(** The rounded mean of numbers between whole bounds lies between
    them. *)
Lemma rounded_mean_bracket (lo hi : Z) (l : list Q) :
  l <> [] ->
  (Z.of_nat (List.length l) * Z.max (Z.abs lo) (Z.abs hi) <= 2 ^ 53)%Z ->
  Forall (fun x => inject_Z lo <= x /\ x <= inject_Z hi) l ->
  inject_Z lo
  <= Num.div (fold_left Num.add l (0 # 1))
       (inject_Z (Z.of_nat (List.length l)))
  /\ Num.div (fold_left Num.add l (0 # 1))
       (inject_Z (Z.of_nat (List.length l)))
     <= inject_Z hi.
Proof.
  intros Hne HN Hall.
  set (n := Z.of_nat (List.length l)) in *.
  assert (Hn : (1 <= n)%Z).
  { subst n. destruct l; [contradiction | cbn [List.length]; lia]. }
  destruct (fold_add_bracket lo hi n l HN Hall (0 # 1) 0 ltac:(lia)
              ltac:(fold n; lia)) as [H1 H2].
  { cbn. split; apply Qle_refl. }
  fold n in H1, H2. rewrite Z.add_0_l in H1, H2.
  rewrite inject_Z_mult in H1, H2.
  assert (Hnq : 0 < inject_Z n).
  { change 0 with (inject_Z 0). rewrite <- Zlt_Qlt. lia. }
  unfold Num.div.
  rewrite <- (round_Z lo), <- (round_Z hi) by nia.
  split; apply round_le.
  - apply Qle_shift_div_l; [exact Hnq |]. lra.
  - apply Qle_shift_div_r; [exact Hnq |]. lra.
Qed.


Lemma Qabs_bracket x (B : Z) :
  Qabs x <= inject_Z B <-> inject_Z (- B) <= x /\ x <= inject_Z B.
Proof. rewrite inject_Z_opp. apply Qabs_Qle_condition. Qed.

(** Every rounded addition of a sum of at most [N] numbers of magnitude
    at most [B] moves it by at most [N * B / 2^53]. *)
Lemma fold_add_error (B N : Z) (l : list Q) :
  (1 <= B)%Z -> (N * B <= 2 ^ 53)%Z ->
  Forall (fun x => Qabs x <= inject_Z B) l ->
  forall (acc exact e : Q) (k : Z),
    (0 <= k)%Z -> (k + Z.of_nat (List.length l) <= N)%Z ->
    Qabs acc <= inject_Z (k * B) ->
    Qabs (acc - exact) <= e ->
    Qabs (fold_left Num.add l acc - (exact + sumQ l))
    <= e + inject_Z (Z.of_nat (List.length l))
           * (inject_Z (N * B) / inject_Z (2 ^ 53)).
Proof.
  intros HB HN. set (d := inject_Z (N * B) / inject_Z (2 ^ 53)).
  induction 1 as [| x l Hx _ IH]; intros acc exact e k Hk Hlen Hacc He.
  - cbn [List.length fold_left Z.of_nat sumQ fold_right].
    change (inject_Z 0) with 0.
    setoid_replace (acc - (exact + (0 # 1))) with (acc - exact) by ring.
    lra.
  - cbn [List.length fold_left sumQ fold_right] in *. fold (sumQ l).
    rewrite Nat2Z.inj_succ in *.
    assert (Hsum : Qabs (acc + x) <= inject_Z ((k + 1) * B)).
    { replace ((k + 1) * B)%Z with (k * B + B)%Z by lia.
      rewrite inject_Z_plus.
      eapply Qle_trans; [apply Qabs_triangle |]. lra. }
    assert (Hstep : Qabs (Num.add acc x - (acc + x)) <= d).
    { apply round_error.
      - eapply Qle_trans; [exact Hsum |]. rewrite <- Zle_Qle. nia.
      - change 1 with (inject_Z 1). rewrite <- Zle_Qle. nia. }
    assert (Hacc' : Qabs (Num.add acc x) <= inject_Z ((k + 1) * B)).
    { apply Qabs_bracket. apply Qabs_bracket in Hsum. unfold Num.add.
      rewrite <- (round_Z (- ((k + 1) * B))),
        <- (round_Z ((k + 1) * B)) by nia.
      split; apply round_le; tauto. }
    assert (He' : Qabs (Num.add acc x - (exact + x)) <= e + d).
    { setoid_replace (Num.add acc x - (exact + x))
        with ((Num.add acc x - (acc + x)) + (acc - exact)) by ring.
      eapply Qle_trans; [apply Qabs_triangle |]. lra. }
    pose proof (IH (Num.add acc x) (exact + x) (e + d) (k + 1)%Z
                  ltac:(lia) ltac:(lia) Hacc' He') as Hrec.
    setoid_replace (exact + (x + sumQ l)) with (exact + x + sumQ l) by ring.
    eapply Qle_trans; [exact Hrec |].
    unfold Z.succ. rewrite inject_Z_plus. change (inject_Z 1) with 1. lra.
Qed.

(** The mean computed in double arithmetic is within
    [(n + 1) * B / 2^53] of the exact mean of [n] numbers of magnitude
    at most [B]. *)
Lemma rounded_mean_error (B : Z) (l : list Q) :
  l <> [] -> (1 <= B)%Z ->
  (Z.of_nat (List.length l) * B <= 2 ^ 53)%Z ->
  Forall (fun x => Qabs x <= inject_Z B) l ->
  Qabs (Num.div (fold_left Num.add l (0 # 1))
          (inject_Z (Z.of_nat (List.length l)))
        - sumQ l / inject_Z (Z.of_nat (List.length l)))
  <= inject_Z ((Z.of_nat (List.length l) + 1) * B) / inject_Z (2 ^ 53).
Proof.
  intros Hne HB HN Hall.
  set (n := Z.of_nat (List.length l)) in *.
  set (S := fold_left Num.add l (0 # 1)).
  assert (Hn : (1 <= n)%Z).
  { subst n. destruct l; [contradiction | cbn [List.length]; lia]. }
  assert (Hnq : 0 < inject_Z n).
  { change 0 with (inject_Z 0). rewrite <- Zlt_Qlt. lia. }
  assert (Hbr : Forall (fun x => inject_Z (- B) <= x /\ x <= inject_Z B) l).
  { eapply Forall_impl; [| exact Hall]. intros x. apply Qabs_bracket. }
  destruct (fold_add_bracket (- B) B n l ltac:(lia) Hbr (0 # 1) 0
              ltac:(lia) ltac:(fold n; lia)) as [H1 H2].
  { cbn. split; apply Qle_refl. }
  fold n in H1, H2. rewrite Z.add_0_l in H1, H2. fold S in H1, H2.
  pose proof (fold_add_error B n l HB HN Hall (0 # 1) (0 # 1) 0 0
                ltac:(lia) ltac:(fold n; lia)) as Herr.
  fold n S in Herr.
  assert (Hsum : Qabs (S - sumQ l)
                 <= inject_Z n * (inject_Z (n * B) / inject_Z (2 ^ 53))).
  { setoid_replace (S - sumQ l) with (S - ((0 # 1) + sumQ l)) by ring.
    eapply Qle_trans; [apply Herr |].
    - cbn. discriminate.
    - cbn. discriminate.
    - lra. }
  assert (Hquot : Qabs (S / inject_Z n) <= inject_Z B).
  { apply Qabs_Qle_condition. rewrite <- inject_Z_opp.
    rewrite inject_Z_mult in H1, H2. split.
    - apply Qle_shift_div_l; [exact Hnq |]. lra.
    - apply Qle_shift_div_r; [exact Hnq |]. lra. }
  assert (Hdiv : Qabs (Num.div S (inject_Z n) - S / inject_Z n)
                 <= inject_Z B / inject_Z (2 ^ 53)).
  { apply round_error; [exact Hquot |].
    change 1 with (inject_Z 1). rewrite <- Zle_Qle. exact HB. }
  assert (Hscaled : Qabs (S / inject_Z n - sumQ l / inject_Z n)
                    <= inject_Z (n * B) / inject_Z (2 ^ 53)).
  { setoid_replace (S / inject_Z n - sumQ l / inject_Z n)
      with ((S - sumQ l) * / inject_Z n) by (field; lra).
    rewrite Qabs_Qmult.
    rewrite (Qabs_pos (/ inject_Z n))
      by (apply Qlt_le_weak, Qinv_lt_0_compat, Hnq).
    apply Qle_shift_div_r; [exact Hnq |].
    rewrite (Qmult_comm _ (inject_Z n)). exact Hsum. }
  setoid_replace (Num.div S (inject_Z n) - sumQ l / inject_Z n)
    with ((Num.div S (inject_Z n) - S / inject_Z n)
          + (S / inject_Z n - sumQ l / inject_Z n)) by ring.
  eapply Qle_trans; [apply Qabs_triangle |].
  replace ((n + 1) * B)%Z with (B + n * B)%Z by lia.
  rewrite inject_Z_plus.
  setoid_replace ((inject_Z B + inject_Z (n * B)) / inject_Z (2 ^ 53))
    with (inject_Z B / inject_Z (2 ^ 53)
          + inject_Z (n * B) / inject_Z (2 ^ 53)) by (field; discriminate).
  lra.
Qed.

End RoundingFacts.

(** ** The aggregator *)

Section AggregatorFacts.
Import Aggregator.

Lemma collect_shift d data s e times i :
  collect (d :: data) s e times (S i) = collect data s e times i.
Proof.
  revert i. induction times as [| t times IH]; intros i; [reflexivity |].
  cbn [collect]. rewrite IH. reflexivity.
Qed.

Lemma collect_nil s e times i : collect [] s e times i = [].
Proof.
  revert i. induction times as [| t times IH]; intros i; [reflexivity |].
  cbn [collect]. rewrite IH. unfold at_index.
  destruct i; cbn [nth_error]; destruct ((s <=? t) && (t <=? e));
    reflexivity.
Qed.

(** The indexed loop selects what the position-wise reading selects. *)
Lemma collect_windowed data times s e :
  collect data s e times 0 = windowed data times s e.
Proof.
  revert times. induction data as [| d data IH]; intros times.
  - rewrite collect_nil. destruct times; reflexivity.
  - destruct times as [| t times]; [reflexivity |].
    cbn [collect windowed]. unfold at_index. cbn [nth_error].
    rewrite collect_shift, IH.
    destruct d; destruct ((s <=? t) && (t <=? e)); reflexivity.
Qed.

Lemma last_cons {A : Type} (a d : A) (l : list A) :
  last (a :: l) d = last l a.
Proof.
  revert a d. induction l as [| b l IH]; intros a d; [reflexivity |].
  change (last (a :: b :: l) d) with (last (b :: l) d).
  rewrite (IH b d), (IH b a). reflexivity.
Qed.

Lemma last_validData data d :
  last (validData data) d
  = match lastPresent data with Some x => x | None => d end.
Proof.
  revert d. induction data as [| v data IH]; intros d; [reflexivity |].
  destruct v as [x |]; cbn [validData lastPresent].
  - rewrite last_cons, IH. destruct (lastPresent data); reflexivity.
  - rewrite IH. destruct (lastPresent data); reflexivity.
Qed.

(** C2, as stated, fails: the sum and the quotient are rounded, so the
    result need not be the arithmetic mean, nor even the double nearest
    to it.  For the readings 0.1, 0.2 and 0.3 the aggregator returns
    0.20000000000000004, which the rule "<= 0.2" does not match, while
    their mean is below the double 0.2. *)
Lemma calculateAverageValue_not_the_exact_mean :
  let readings := [double01; double02; double03] in
  let result :=
    calculateAverageValue (map Some readings) [0; 3600000; 7200000]
      0 7200000 in
  let atMost02 := mkColorRule "r" OpLe double02 "green" in
  windowed (map Some readings) [0; 3600000; 7200000] 0 7200000 = readings
  /\ result = 7205759403792795 # 36028797018963968
  /\ ~ (result == mean readings)%Q
  /\ ~ (result == Num.round (mean readings))%Q
  /\ WeatherService.applyColorRules (mean readings) [atMost02] = "green"
  /\ WeatherService.applyColorRules result [atMost02] = "#3388ff"
  /\ ~ (forall (values : list (option Q)) (timestamps : list Z)
               (windowStart windowEnd : Z),
          windowed values timestamps windowStart windowEnd <> [] ->
          (calculateAverageValue values timestamps windowStart windowEnd
           == mean (windowed values timestamps windowStart windowEnd))%Q).
Proof.
  intros readings result atMost02.
  split; [reflexivity |]. split; [vm_compute; reflexivity |].
  split; [vm_compute; discriminate |].
  split; [vm_compute; discriminate |].
  split; [vm_compute; reflexivity |]. split; [vm_compute; reflexivity |].
  intros H.
  specialize (H (map Some readings) [0; 3600000; 7200000] 0 7200000).
  assert (Hne : windowed (map Some readings) [0; 3600000; 7200000] 0 7200000
                <> []) by discriminate.
  specialize (H Hne). vm_compute in H. discriminate H.
Qed.

(** C2, amended: the aggregator returns the mean of the present values
    whose timestamp lies in the window (bounds included) as double
    arithmetic computes it: the values are added to 0 from left to
    right and the sum is divided by their count, every operation rounded
    to the nearest double (sums that leave the range of the doubles are
    outside the model).  When the [n] selected values have magnitude
    at most a whole number [B], with [n * B] at most 2^53, the result is
    within [(n + 1) * B / 2^53] of their arithmetic mean.  When no value
    is selected the result is the last present value of the whole
    series, and 0 when the series has no present value.  The equality of
    lengths the claim assumes is not needed: beyond the shorter sequence
    nothing is selected. *)
Theorem calculateAverageValue_rounded_mean_or_fallback :
  forall (values : list (option Q)) (timestamps : list Z)
         (windowStart windowEnd : Z),
    let kept := windowed values timestamps windowStart windowEnd in
    let result :=
      calculateAverageValue values timestamps windowStart windowEnd in
    match kept with
    | [] =>
        result = match lastPresent values with Some x => x | None => 0 # 1 end
    | _ :: _ =>
        result = roundedMean kept
        /\ forall B : Z,
             1 <= B -> Z.of_nat (List.length kept) * B <= 2 ^ 53 ->
             Forall (fun x => (Qabs x <= inject_Z B)%Q) kept ->
             (Qabs (result - mean kept)
              <= inject_Z ((Z.of_nat (List.length kept) + 1) * B)
                 / inject_Z (2 ^ 53))%Q
    end.
Proof.
  intros values timestamps ws we kept result. subst kept result.
  unfold calculateAverageValue. rewrite collect_windowed.
  destruct (windowed values timestamps ws we) as [| x l] eqn:E.
  - rewrite <- (last_validData values (0 # 1)).
    destruct (validData values); reflexivity.
  - split; [reflexivity |].
    intros B HB HN Hall.
    apply (rounded_mean_error B (x :: l)); [discriminate | assumption ..].
Qed.

Lemma calculateAverageValue_rounded_mean_or_fallback_witness :
  let readings := [double01; double02; double03] in
  let result :=
    calculateAverageValue (map Some readings) [0; 3600000; 7200000]
      0 7200000 in
  result = roundedMean readings
  /\ (Qabs (result - mean readings) <= 4 # 9007199254740992)%Q.
Proof.
  intros readings result.
  pose proof (calculateAverageValue_rounded_mean_or_fallback
                (map Some readings) [0; 3600000; 7200000] 0 7200000) as H.
  cbv zeta in H.
  change (windowed (map Some readings) [0; 3600000; 7200000] 0 7200000)
    with readings in H.
  cbv iota beta in H. destruct H as [Hmean Hclose].
  split; [exact Hmean |].
  refine (Qle_trans _ _ _ (Hclose 1 _ _ _) _).
  - lia.
  - vm_compute. discriminate.
  - repeat constructor; vm_compute; discriminate.
  - vm_compute. discriminate.
Defined.

(** The specification's sample: five hourly samples, two of them inside
    the window. *)
Example calculateAverageValue_two_of_five :
  calculateAverageValue
    [Some (4 # 1); Some (10 # 1); Some (20 # 1); None; Some (7 # 1)]
    [0; 3600000; 7200000; 10800000; 14400000] 3600000 10800000
  = 15 # 1.
Proof. vm_compute. reflexivity. Qed.

Example calculateAverageValue_outside_window :
  calculateAverageValue [Some (4 # 1); None; Some (7 # 1); None]
    [0; 3600000; 7200000; 10800000] 20000000 30000000
  = 7 # 1.
Proof. reflexivity. Qed.

Example calculateAverageValue_no_value :
  calculateAverageValue [None; None] [0; 3600000] 0 3600000 = 0 # 1.
Proof. reflexivity. Qed.

End AggregatorFacts.

(** ** The date-range validator *)

Section ValidatorFacts.
Import Validator.

(** Rounding the day count up does not move the 30-day threshold. *)
Lemma rangeDays_exceeds span :
  (maxRangeDays <? ceilDiv span msPerDay)
  = (maxRangeDays * msPerDay <? span).
Proof.
  unfold ceilDiv, maxRangeDays, msPerDay.
  destruct (Z.ltb_spec (30 * (24 * 60 * 60 * 1000)) span) as [H | H];
    [apply Z.ltb_lt | apply Z.ltb_ge];
    Z.div_mod_to_equations; lia.
Qed.

Lemma resolve_cases now startDate endDate :
  resolve now startDate endDate
  = if now <? startDate then (now - msPerDay, now)
    else if maxRangeDays * msPerDay <? endDate - startDate
         then (endDate - maxRangeDays * msPerDay, endDate)
    else if startDate <? oldestDate then (oldestDate, endDate)
    else (startDate, endDate).
Proof.
  unfold resolve, validateDateRange. rewrite rangeDays_exceeds.
  destruct (now <? startDate); [reflexivity |].
  destruct (maxRangeDays * msPerDay <? endDate - startDate); [reflexivity |].
  destruct (startDate <? oldestDate); reflexivity.
Qed.

(** C3: the validator applies the first rule that matches, in the order
    future start (window of the last 24 hours), span above 30 days
    (the 30 days before the end), start before 1940-01-01 (start raised
    to that day), and otherwise leaves both dates as they are; a start
    one day ahead resolves to the last 24 hours and a 60-day span ending
    now to the 30 days ending now. *)
Theorem validateDateRange_first_rule_applies :
  forall now startDate endDate : Z,
    let hour := 60 * 60 * 1000 in
    let day := 24 * hour in
    resolve now startDate endDate
    = (if now <? startDate then (now - 24 * hour, now)
       else if 30 * day <? endDate - startDate
            then (endDate - 30 * day, endDate)
       else if startDate <? oldestDate then (oldestDate, endDate)
       else (startDate, endDate))
    /\ isValid (validateDateRange now startDate endDate)
       = negb ((now <? startDate) || (30 * day <? endDate - startDate)
               || (startDate <? oldestDate))
    /\ Format.formatDateForAPI oldestDate = "1940-01-01"
    /\ oldestDate mod day = 0
    /\ resolve now (now + day) (now + 2 * day) = (now - 24 * hour, now)
    /\ resolve now (now - 60 * day) now = (now - 30 * day, now).
Proof.
  intros now startDate endDate hour day. subst hour day.
  split; [apply resolve_cases |].
  split.
  { unfold validateDateRange. rewrite rangeDays_exceeds.
    change (30 * (24 * (60 * 60 * 1000))) with (maxRangeDays * msPerDay).
    destruct (now <? startDate); [reflexivity |].
    destruct (maxRangeDays * msPerDay <? endDate - startDate);
      [reflexivity |].
    destruct (startDate <? oldestDate); reflexivity. }
  split; [vm_compute; reflexivity |].
  split; [vm_compute; reflexivity |].
  split.
  - rewrite resolve_cases.
    replace (now <? now + 24 * (60 * 60 * 1000)) with true
      by (symmetry; apply Z.ltb_lt; lia).
    reflexivity.
  - rewrite resolve_cases.
    replace (now <? now - 60 * (24 * (60 * 60 * 1000))) with false
      by (symmetry; apply Z.ltb_ge; lia).
    replace (maxRangeDays * msPerDay
             <? now - (now - 60 * (24 * (60 * 60 * 1000)))) with true
      by (symmetry; apply Z.ltb_lt; unfold maxRangeDays, msPerDay; lia).
    reflexivity.
Qed.

End ValidatorFacts.

(** ** Map<string, V> *)

Section JsMapFacts.
Context {V : Type}.
Implicit Types (m : JsMap.t V) (k : string) (v : V).

Lemma get_none_iff k m : JsMap.get k m = None <-> ~ In k (JsMap.keys m).
Proof.
  induction m as [| [k' v'] m IH]; simpl; [tauto |].
  destruct (String.eqb_spec k' k) as [-> | Hne].
  - split; [discriminate | intros H; exfalso; apply H; now left].
  - rewrite IH. split; [intros H [E | I]; auto | intros H I; apply H; auto].
Qed.

Lemma get_some_in k v m : JsMap.get k m = Some v -> In k (JsMap.keys m).
Proof.
  intros H. destruct (in_dec string_dec k (JsMap.keys m)) as [I | N]; auto.
  apply get_none_iff in N. congruence.
Qed.

Lemma get_set_same k v m : JsMap.get k (JsMap.set k v m) = Some v.
Proof.
  induction m as [| [k' v'] m IH]; simpl.
  - now rewrite String.eqb_refl.
  - destruct (String.eqb_spec k' k) as [-> | Hne]; simpl.
    + now rewrite String.eqb_refl.
    + destruct (String.eqb_spec k' k); [contradiction | exact IH].
Qed.

Lemma set_fresh k v m :
  JsMap.get k m = None -> JsMap.set k v m = (m ++ [(k, v)])%list.
Proof.
  induction m as [| [k' v'] m IH]; simpl; [reflexivity |].
  destruct (String.eqb k' k); [discriminate |].
  intros H. now rewrite IH.
Qed.

Lemma keys_set_present k v v0 m :
  JsMap.get k m = Some v0 -> JsMap.keys (JsMap.set k v m) = JsMap.keys m.
Proof.
  induction m as [| [k' v'] m IH]; simpl; [discriminate |].
  destruct (String.eqb k' k); simpl; [reflexivity |].
  intros H. now rewrite IH.
Qed.

Lemma keys_set k v m :
  JsMap.keys (JsMap.set k v m) = JsMap.keys m
  \/ JsMap.keys (JsMap.set k v m) = (JsMap.keys m ++ [k])%list
     /\ ~ In k (JsMap.keys m).
Proof.
  destruct (JsMap.get k m) as [v0 |] eqn:E.
  - left. eapply keys_set_present; eauto.
  - right. split; [| now apply get_none_iff].
    rewrite set_fresh by exact E. unfold JsMap.keys.
    now rewrite map_app.
Qed.

Lemma nodup_snoc (l : list string) k :
  NoDup l -> ~ In k l -> NoDup (l ++ [k]).
Proof.
  intros Hl Hk.
  apply (Permutation_NoDup (Permutation_cons_append l k)).
  now constructor.
Qed.

Lemma set_nodup k v m :
  NoDup (JsMap.keys m) -> NoDup (JsMap.keys (JsMap.set k v m)).
Proof.
  intros H. destruct (keys_set k v m) as [-> | [-> Hk]]; auto.
  now apply nodup_snoc.
Qed.

Lemma set_size k v m :
  (JsMap.size (JsMap.set k v m) <= S (JsMap.size m))%nat.
Proof.
  unfold JsMap.size.
  rewrite <- (length_map fst (JsMap.set k v m)), <- (length_map fst m).
  fold (JsMap.keys (JsMap.set k v m)). fold (JsMap.keys m).
  destruct (keys_set k v m) as [-> | [-> _]];
    [| rewrite length_app; simpl]; lia.
Qed.

Lemma delete_notin k m : ~ In k (JsMap.keys m) -> JsMap.delete k m = m.
Proof.
  induction m as [| [k' v'] m IH]; simpl; [reflexivity |].
  intros H. destruct (String.eqb_spec k' k) as [-> | Hne].
  - exfalso. apply H. now left.
  - rewrite IH; [reflexivity | tauto].
Qed.

Lemma keys_delete k m k' :
  In k' (JsMap.keys (JsMap.delete k m)) <-> k' <> k /\ In k' (JsMap.keys m).
Proof.
  induction m as [| [k0 v0] m IH]; simpl; [tauto |].
  destruct (String.eqb_spec k0 k) as [-> | Hne]; simpl; rewrite IH.
  - split; [tauto |]. intros [Hn [E | I]]; [congruence | tauto].
  - split; [| tauto]. intros [E | [Hn I]]; [subst; tauto | tauto].
Qed.

Lemma delete_nodup k m :
  NoDup (JsMap.keys m) -> NoDup (JsMap.keys (JsMap.delete k m)).
Proof.
  induction m as [| [k0 v0] m IH]; simpl; [auto |].
  intros H. inversion H as [| ? ? Hn Hm]; subst.
  destruct (String.eqb k0 k); [now apply IH |].
  simpl. constructor; [| now apply IH].
  intros I. apply keys_delete in I. tauto.
Qed.

Lemma get_delete_same k m : JsMap.get k (JsMap.delete k m) = None.
Proof. apply get_none_iff. intros I. apply keys_delete in I. tauto. Qed.

Lemma get_delete_other k k' m :
  k' <> k -> JsMap.get k' (JsMap.delete k m) = JsMap.get k' m.
Proof.
  intros Hne. induction m as [| [k0 v0] m IH]; simpl; [reflexivity |].
  destruct (String.eqb_spec k0 k) as [-> | Hk]; simpl.
  - destruct (String.eqb_spec k k'); [congruence | exact IH].
  - rewrite IH. reflexivity.
Qed.

(** Deleting a key that is present removes exactly one entry. *)
Lemma delete_size k m :
  NoDup (JsMap.keys m) -> In k (JsMap.keys m) ->
  S (JsMap.size (JsMap.delete k m)) = JsMap.size m.
Proof.
  unfold JsMap.size.
  induction m as [| [k0 v0] m IH]; simpl; [tauto |].
  intros H I. inversion H as [| ? ? Hn Hm]; subst.
  destruct (String.eqb_spec k0 k) as [-> | Hne].
  - now rewrite delete_notin.
  - simpl. rewrite IH; [reflexivity | assumption |].
    destruct I; [contradiction | assumption].
Qed.

Lemma deleteKeys_nodup ks m :
  NoDup (JsMap.keys m) -> NoDup (JsMap.keys (deleteKeys ks m)).
Proof.
  revert m. induction ks as [| k ks IH]; intros m H; simpl; auto.
  apply IH. now apply delete_nodup.
Qed.

Lemma deleteKeys_size ks m :
  NoDup (JsMap.keys m) -> NoDup ks -> incl ks (JsMap.keys m) ->
  (JsMap.size (deleteKeys ks m) + List.length ks = JsMap.size m)%nat.
Proof.
  revert m. induction ks as [| k ks IH]; intros m Hm Hks Hin; simpl.
  - lia.
  - inversion Hks as [| ? ? Hk Hks']; subst.
    rewrite <- (delete_size k m Hm) by (apply Hin; now left).
    rewrite <- (IH (JsMap.delete k m)); [lia | | assumption |].
    + now apply delete_nodup.
    + intros k' I. apply keys_delete. split.
      * intros ->. contradiction.
      * apply Hin. now right.
Qed.

Lemma get_deleteKeys_other ks k m :
  ~ In k ks -> JsMap.get k (deleteKeys ks m) = JsMap.get k m.
Proof.
  revert m. induction ks as [| k0 ks IH]; intros m H; simpl; [reflexivity |].
  rewrite IH by (intros I; apply H; now right).
  apply get_delete_other. intros ->. apply H. now left.
Qed.

Lemma get_deleteKeys_in ks k m :
  In k ks -> JsMap.get k (deleteKeys ks m) = None.
Proof.
  revert m. induction ks as [| k0 ks IH]; intros m H; simpl; [contradiction |].
  destruct (in_dec string_dec k ks) as [I | N]; [now apply IH |].
  destruct H as [-> | H]; [| contradiction].
  rewrite get_deleteKeys_other by exact N. apply get_delete_same.
Qed.

(** Deleting the keys of a prefix leaves the rest of the entries. *)
Lemma deleteKeys_prefix (l1 l2 : JsMap.t V) :
  NoDup (JsMap.keys (l1 ++ l2)%list) ->
  deleteKeys (JsMap.keys l1) (l1 ++ l2)%list = l2.
Proof.
  induction l1 as [| [k v] l1 IH]; simpl; intros H; [reflexivity |].
  inversion H as [| ? ? Hn Hm]; subst.
  rewrite String.eqb_refl, delete_notin by exact Hn. now apply IH.
Qed.

Lemma get_in_entries k v m :
  NoDup (JsMap.keys m) -> In (k, v) m -> JsMap.get k m = Some v.
Proof.
  induction m as [| [k0 v0] m IH]; simpl; [tauto |].
  intros H I. inversion H as [| ? ? Hn Hm]; subst.
  destruct I as [E | I].
  - inversion E; subst. now rewrite String.eqb_refl.
  - destruct (String.eqb_spec k0 k) as [-> | Hne]; [| now apply IH].
    exfalso. apply Hn. change k with (fst (k, v)). now apply in_map.
Qed.

End JsMapFacts.

Lemma nodupb_sound l : nodupb l = true -> NoDup l.
Proof.
  induction l as [| x l IH]; simpl; intros H; constructor;
    apply andb_true_iff in H; destruct H as [Hx Hl]; [| now apply IH].
  intros I. apply negb_true_iff in Hx.
  assert (E : existsb (String.eqb x) l = true).
  { apply existsb_exists. exists x. split; [exact I | apply String.eqb_refl]. }
  congruence.
Qed.

Lemma nondecreasingb_sound l :
  nondecreasingb l = true -> StronglySorted Z.le l.
Proof.
  induction l as [| x l IH]; simpl; intros H; constructor;
    apply andb_true_iff in H; destruct H as [Hx Hl]; [now apply IH |].
  rewrite forallb_forall in Hx. apply Forall_forall. intros y Hy.
  apply Z.leb_le. now apply Hx.
Qed.

(** ** The response cache *)

Section CacheFacts.
Import Cache.

Lemma notAfter_olderThan a b :
  notAfter olderThan a b <-> timestamp (snd a) <= timestamp (snd b).
Proof. unfold notAfter, olderThan. apply Z.ltb_ge. Qed.

Lemma olderThan_asym a b : olderThan a b = true -> olderThan b a = false.
Proof. unfold olderThan. rewrite Z.ltb_lt, Z.ltb_ge. lia. Qed.

Lemma olderThan_trans a b c :
  notAfter olderThan a b -> notAfter olderThan b c ->
  notAfter olderThan a c.
Proof. rewrite !notAfter_olderThan. lia. Qed.

Lemma sortEntries_perm (c : Cache.t) :
  Permutation c (JsArray.sort olderThan c).
Proof. apply sort_perm. Qed.

Lemma deleteOldest_keys entries (c : Cache.t) :
  deleteOldest entries c = deleteKeys (JsMap.keys (firstn 10 entries)) c.
Proof.
  unfold deleteOldest, deleteKeys, JsMap.keys.
  generalize (firstn 10 entries). intros es. revert c.
  induction es as [| e es IH]; intros c; simpl; auto.
Qed.

Lemma firstn_nodup {A : Type} n (l : list A) : NoDup l -> NoDup (firstn n l).
Proof.
  intros H. rewrite <- (firstn_skipn n l) in H.
  now apply NoDup_app_remove_r in H.
Qed.

Lemma firstn_incl {A : Type} n (l : list A) : incl (firstn n l) l.
Proof.
  intros x I. rewrite <- (firstn_skipn n l). apply in_or_app. now left.
Qed.

(** Eviction removes exactly ten entries when more than ten are held. *)
Lemma deleteOldest_size (c : Cache.t) :
  NoDup (JsMap.keys c) -> (10 <= JsMap.size c)%nat ->
  (JsMap.size (deleteOldest (JsArray.sort olderThan c) c) + 10
   = JsMap.size c)%nat.
Proof.
  intros Hnd Hsz. rewrite deleteOldest_keys.
  pose proof (sortEntries_perm c) as Hp.
  assert (Hpk : Permutation (JsMap.keys c)
                  (JsMap.keys (JsArray.sort olderThan c))).
  { unfold JsMap.keys. now apply Permutation_map. }
  assert (Hlen : List.length (JsMap.keys (firstn 10 (JsArray.sort olderThan c)))
                 = 10%nat).
  { unfold JsMap.keys. rewrite length_map, length_firstn.
    rewrite <- (Permutation_length Hp). unfold JsMap.size in Hsz. lia. }
  rewrite <- Hlen at 2. apply deleteKeys_size; [exact Hnd | |].
  - unfold JsMap.keys. rewrite <- firstn_map. apply firstn_nodup.
    apply (Permutation_NoDup Hpk Hnd).
  - intros k I. apply (Permutation_in _ (Permutation_sym Hpk)).
    unfold JsMap.keys in I. rewrite <- firstn_map in I.
    now apply firstn_incl in I.
Qed.

Lemma put_wellFormed now lat lng sd ed s c :
  wellFormed c -> wellFormed (cacheWeatherData now lat lng sd ed s c).
Proof.
  intros [Hnd Hsz]. unfold cacheWeatherData.
  set (k := generateCacheKey lat lng sd ed).
  set (c1 := JsMap.set k (mkEntry s now) c).
  assert (Hnd1 : NoDup (JsMap.keys c1)) by now apply set_nodup.
  assert (Hsz1 : (JsMap.size c1 <= 51)%nat).
  { pose proof (set_size k (mkEntry s now) c). fold c1 in H. lia. }
  destruct (Nat.ltb_spec 50 (JsMap.size c1)) as [Hbig | Hsmall].
  - split.
    + rewrite deleteOldest_keys. now apply deleteKeys_nodup.
    + pose proof (deleteOldest_size c1 Hnd1). lia.
  - split; [exact Hnd1 | lia].
Qed.

Lemma get_wellFormed now lat lng sd ed c :
  wellFormed c -> wellFormed (snd (getCachedWeatherData now lat lng sd ed c)).
Proof.
  intros [Hnd Hsz]. unfold getCachedWeatherData.
  destruct (JsMap.get _ c) as [e |] eqn:E; [| now split].
  destruct (isCacheValid now (timestamp e)); [now split |].
  simpl. split; [now apply delete_nodup |].
  pose proof (delete_size _ c Hnd (get_some_in _ _ _ E)). lia.
Qed.

Lemma step_wellFormed c op : wellFormed c -> wellFormed (cacheStep c op).
Proof.
  destruct op as [r s | r]; simpl;
    [apply put_wellFormed | apply get_wellFormed].
Qed.

Lemma fold_wellFormed history c :
  wellFormed c -> wellFormed (fold_left cacheStep history c).
Proof.
  revert c. induction history as [| op history IH]; intros c H; simpl; auto.
  apply IH. now apply step_wellFormed.
Qed.

Lemma runCache_wellFormed history : wellFormed (runCache history).
Proof.
  apply fold_wellFormed. split; [constructor | simpl; lia].
Qed.

(** *** Timestamps never exceed the clock *)

Lemma set_storedBy t k e (c : Cache.t) :
  storedBy t c -> timestamp e <= t -> storedBy t (JsMap.set k e c).
Proof.
  unfold storedBy. intros H He.
  induction c as [| [k0 e0] c IH]; simpl.
  - constructor; [exact He | constructor].
  - inversion H; subst. destruct (String.eqb k0 k); constructor; auto.
Qed.

Lemma delete_storedBy t k (c : Cache.t) :
  storedBy t c -> storedBy t (JsMap.delete k c).
Proof.
  unfold storedBy. intros H.
  induction c as [| [k0 e0] c IH]; simpl; [constructor |].
  inversion H; subst. destruct (String.eqb k0 k); auto.
Qed.

Lemma deleteKeys_storedBy t ks (c : Cache.t) :
  storedBy t c -> storedBy t (deleteKeys ks c).
Proof.
  revert c. induction ks as [| k ks IH]; intros c H; simpl; auto.
  apply IH. now apply delete_storedBy.
Qed.

Lemma storedBy_mono t t' (c : Cache.t) :
  t <= t' -> storedBy t c -> storedBy t' c.
Proof.
  unfold storedBy. intros Ht H. eapply Forall_impl; [| exact H].
  simpl. intros. lia.
Qed.

Lemma step_storedBy t c op :
  storedBy t c -> opTime op <= t -> storedBy t (cacheStep c op).
Proof.
  intros H Hop. destruct op as [r s | r]; simpl in *.
  - unfold put, cacheWeatherData.
    match goal with |- context [JsMap.set ?k ?e c] =>
      assert (H1 : storedBy t (JsMap.set k e c))
        by (apply set_storedBy; [exact H | exact Hop]);
      destruct (Nat.ltb 50 (JsMap.size (JsMap.set k e c))); [| exact H1]
    end.
    rewrite deleteOldest_keys. now apply deleteKeys_storedBy.
  - unfold get, getCachedWeatherData.
    destruct (JsMap.get _ c) as [e |]; [| exact H].
    destruct (isCacheValid _ _); [exact H |].
    simpl. now apply delete_storedBy.
Qed.

Lemma fold_storedBy t history c :
  storedBy t c -> Forall (fun op => opTime op <= t) history ->
  storedBy t (fold_left cacheStep history c).
Proof.
  revert c. induction history as [| op history IH]; intros c H Hops; simpl;
    [exact H |].
  inversion Hops; subst. apply IH; [| assumption].
  now apply step_storedBy.
Qed.

Lemma runCache_storedBy t history :
  Forall (fun op => opTime op <= t) history -> storedBy t (runCache history).
Proof. apply fold_storedBy. constructor. Qed.

End CacheFacts.

Lemma nodup_app_disjoint {A : Type} (l1 l2 : list A) :
  NoDup (l1 ++ l2) -> forall a, In a l1 -> ~ In a l2.
Proof.
  induction l1 as [| x l1 IH]; simpl; intros H a I; [contradiction |].
  inversion H as [| ? ? Hx Hl]; subst. destruct I as [-> | I].
  - intros I2. apply Hx. apply in_or_app. now right.
  - now apply IH.
Qed.

Lemma get_set_other {V : Type} (k k' : string) (v : V) (m : JsMap.t V) :
  k' <> k -> JsMap.get k' (JsMap.set k v m) = JsMap.get k' m.
Proof.
  intros Hne. induction m as [| [k0 v0] m IH]; simpl.
  - destruct (String.eqb_spec k k'); [congruence | reflexivity].
  - destruct (String.eqb_spec k0 k) as [-> | Hk]; simpl.
    + destruct (String.eqb_spec k k'); [congruence | reflexivity].
    + rewrite IH. reflexivity.
Qed.

Lemma in_delete {V : Type} (k : string) (m : JsMap.t V) (x : string * V) :
  In x (JsMap.delete k m) <-> In x m /\ fst x <> k.
Proof.
  induction m as [| [k0 v0] m IH]; simpl; [tauto |].
  destruct (String.eqb_spec k0 k) as [-> | Hne]; simpl; rewrite IH.
  - split; [tauto |]. intros [[<- | H] Hx]; [simpl in Hx; congruence | tauto].
  - split; [| tauto]. intros [<- | [H Hx]]; [simpl; tauto | tauto].
Qed.

Lemma in_deleteKeys {V : Type} (ks : list string) (m : JsMap.t V)
    (x : string * V) :
  In x (deleteKeys ks m) <-> In x m /\ ~ In (fst x) ks.
Proof.
  revert m. induction ks as [| k ks IH]; intros m; simpl; [tauto |].
  rewrite IH, in_delete. split.
  - intros [[H1 H2] H3]. split; [exact H1 |]. intros [E | I]; auto.
  - intros [H1 H2]. repeat split; auto.
Qed.

Lemma same_key_same_entry {V : Type} (m : JsMap.t V) (k : string) (v v' : V) :
  NoDup (JsMap.keys m) -> In (k, v) m -> In (k, v') m -> v = v'.
Proof.
  intros Hnd H1 H2.
  pose proof (get_in_entries k v m Hnd H1) as E1.
  pose proof (get_in_entries k v' m Hnd H2) as E2. congruence.
Qed.

Lemma sorted_app_le {A : Type} (R : A -> A -> Prop) (l1 l2 : list A) :
  StronglySorted R (l1 ++ l2) ->
  forall a b, In a l1 -> In b l2 -> R a b.
Proof.
  induction l1 as [| x l1 IH]; simpl; intros H a b Ha Hb; [contradiction |].
  inversion H as [| ? ? Hs Hf]; subst. destruct Ha as [-> | Ha].
  - rewrite Forall_forall in Hf. apply Hf, in_or_app. now right.
  - now apply IH.
Qed.

Lemma scaled4_nonneg x : 0 <= Format.scaled4 x.
Proof.
  unfold Format.scaled4. apply Z.div_pos; [| lia].
  pose proof (Z.abs_nonneg (Qnum x)). lia.
Qed.

Section CacheScenarios.
Import Cache.

Lemma sort_snoc_latest (c : Cache.t) x :
  Forall (fun y => notAfter olderThan y x) c ->
  JsArray.sort olderThan (c ++ [x])
  = (JsArray.sort olderThan c ++ [x])%list.
Proof.
  intros H. unfold JsArray.sort. rewrite fold_left_app. simpl.
  apply insertLast_end.
  apply (Permutation_Forall (sortEntries_perm c) H).
Qed.

(** The entry just written survives the eviction that may follow it. *)
Lemma put_then_lookup now lat lng sd ed s c :
  wellFormed c -> storedBy now c ->
  JsMap.get (generateCacheKey lat lng sd ed)
    (cacheWeatherData now lat lng sd ed s c)
  = Some (mkEntry s now).
Proof.
  intros [Hnd Hsz] Hst. unfold cacheWeatherData.
  set (k := generateCacheKey lat lng sd ed).
  set (e := mkEntry s now).
  destruct (Nat.ltb_spec 50 (JsMap.size (JsMap.set k e c))) as [Hbig | _];
    [| apply get_set_same].
  rewrite deleteOldest_keys, get_deleteKeys_other; [apply get_set_same |].
  destruct (JsMap.get k c) as [e0 |] eqn:E.
  - exfalso. unfold JsMap.size in *.
    rewrite <- (length_map fst (JsMap.set k e c)) in Hbig.
    fold (JsMap.keys (JsMap.set k e c)) in Hbig.
    rewrite (keys_set_present k e e0 c E) in Hbig.
    unfold JsMap.keys in Hbig. rewrite length_map in Hbig. lia.
  - rewrite (set_fresh k e c E) in *.
    unfold JsMap.size in *. rewrite length_app in Hbig. simpl in Hbig.
    rewrite sort_snoc_latest.
    + rewrite firstn_app.
      rewrite <- (Permutation_length (sortEntries_perm c)).
      replace (10 - List.length c)%nat with 0%nat by lia.
      rewrite firstn_O, app_nil_r. intros I.
      unfold JsMap.keys in I. rewrite <- firstn_map in I.
      apply firstn_incl in I.
      apply (Permutation_in _
               (Permutation_sym (Permutation_map fst (sortEntries_perm c))))
        in I.
      apply get_none_iff in E. contradiction.
    + unfold storedBy in Hst. eapply Forall_impl; [| exact Hst].
      intros y Hy. apply notAfter_olderThan. exact Hy.
Qed.

Lemma deleteKeys_firstn {V : Type} n (m : JsMap.t V) :
  NoDup (JsMap.keys m) ->
  deleteKeys (JsMap.keys (firstn n m)) m = skipn n m.
Proof.
  intros H.
  transitivity (deleteKeys (JsMap.keys (firstn n m))
                  (firstn n m ++ skipn n m)%list).
  - now rewrite firstn_skipn.
  - apply deleteKeys_prefix. now rewrite firstn_skipn.
Qed.

Lemma runCache_snoc history op :
  runCache (history ++ [op]) = cacheStep (runCache history) op.
Proof. unfold runCache. now rewrite fold_left_app. Qed.

Lemma keys_entries puts :
  JsMap.keys (map entryOf puts) = map (fun p => requestKey (fst p)) puts.
Proof. unfold JsMap.keys. rewrite map_map. reflexivity. Qed.

Lemma put_fresh_entry p (ps : list (Request * OpenMeteo.Response)) :
  ~ In (requestKey (fst p)) (map (fun q => requestKey (fst q)) ps) ->
  JsMap.set (requestKey (fst p)) (mkEntry (snd p) (at_time (fst p)))
    (map entryOf ps)
  = map entryOf (ps ++ [p]).
Proof.
  intros Hk. rewrite set_fresh.
  - rewrite map_app. reflexivity.
  - apply get_none_iff. now rewrite keys_entries.
Qed.

Lemma nodup_keys_snoc p (ps : list (Request * OpenMeteo.Response)) :
  NoDup (map (fun q => requestKey (fst q)) (ps ++ [p])) ->
  NoDup (map (fun q => requestKey (fst q)) ps)
  /\ ~ In (requestKey (fst p)) (map (fun q => requestKey (fst q)) ps).
Proof.
  rewrite map_app. simpl. intros H.
  apply NoDup_remove in H. rewrite app_nil_r in H. exact H.
Qed.

(** Up to fifty distinct keys are stored in insertion order. *)
Lemma puts_without_eviction puts :
  NoDup (map (fun p => requestKey (fst p)) puts) ->
  (List.length puts <= 50)%nat ->
  runCache (map putOf puts) = map entryOf puts.
Proof.
  induction puts as [| p ps IH] using rev_ind; intros Hnd Hlen;
    [reflexivity |].
  rewrite length_app in Hlen. simpl in Hlen.
  apply nodup_keys_snoc in Hnd. destruct Hnd as [Hnd Hk].
  rewrite map_app. simpl map. rewrite runCache_snoc, IH by (auto; lia).
  unfold putOf at 1. unfold cacheStep, put, cacheWeatherData.
  fold (requestKey (fst p)). rewrite put_fresh_entry by exact Hk.
  unfold JsMap.size. rewrite length_map, length_app. simpl List.length.
  destruct (Nat.ltb_spec 50 (List.length ps + 1)); [lia | reflexivity].
Qed.

Lemma entries_sorted puts :
  StronglySorted Z.le (map (fun p => at_time (fst p)) puts) ->
  StronglySorted (notAfter olderThan) (map entryOf puts).
Proof.
  induction puts as [| p ps IH]; simpl; intros H; [constructor |].
  inversion H as [| ? ? Hs Hf]; subst.
  constructor; [now apply IH |].
  rewrite Forall_map in *. eapply Forall_impl; [| exact Hf].
  intros q Hq. apply notAfter_olderThan. exact Hq.
Qed.

(** The fifty-first distinct key evicts the ten entries stored first. *)
Lemma puts_with_eviction puts :
  List.length puts = 51%nat ->
  NoDup (map (fun p => requestKey (fst p)) puts) ->
  StronglySorted Z.le (map (fun p => at_time (fst p)) puts) ->
  runCache (map putOf puts) = skipn 10 (map entryOf puts).
Proof.
  intros Hlen Hnd Hsorted.
  destruct puts as [| p0 ps0] using rev_ind; [discriminate |].
  clear IHps0. rename ps0 into ps, p0 into p.
  rewrite length_app in Hlen. simpl in Hlen.
  pose proof (nodup_keys_snoc p ps Hnd) as [Hnd' Hk].
  rewrite map_app. simpl map.
  rewrite runCache_snoc, puts_without_eviction by (auto; lia).
  unfold putOf at 1. unfold cacheStep, put, cacheWeatherData.
  fold (requestKey (fst p)). rewrite put_fresh_entry by exact Hk.
  unfold JsMap.size. rewrite length_map, length_app. simpl List.length.
  destruct (Nat.ltb_spec 50 (List.length ps + 1)); [| lia].
  rewrite (sort_sorted_id olderThan) by now apply entries_sorted.
  rewrite deleteOldest_keys. apply deleteKeys_firstn.
  now rewrite keys_entries.
Qed.

(** What an overflowing put leaves: the entries are sorted and the
    keys of the first ten are deleted. *)
Lemma written_overfull key e (c : Cache.t) :
  wellFormed c -> JsMap.size c = 50%nat -> JsMap.get key c = None ->
  NoDup (JsMap.keys (c ++ [(key, e)])%list)
  /\ JsMap.size (c ++ [(key, e)])%list = 51%nat.
Proof.
  intros [Hnd _] Hsize Hnew. split.
  - unfold JsMap.keys. rewrite map_app. simpl.
    apply nodup_snoc; [exact Hnd | now apply get_none_iff].
  - unfold JsMap.size in *. rewrite length_app. simpl. lia.
Qed.

Lemma cacheWeatherData_overflow now lat lng sd ed series (c : Cache.t) :
  wellFormed c -> JsMap.size c = 50%nat ->
  JsMap.get (generateCacheKey lat lng sd ed) c = None ->
  cacheWeatherData now lat lng sd ed series c
  = deleteOldest
      (JsArray.sort olderThan
         (c ++ [(generateCacheKey lat lng sd ed, mkEntry series now)])%list)
      (c ++ [(generateCacheKey lat lng sd ed, mkEntry series now)])%list.
Proof.
  intros Hwf Hsize Hnew. unfold cacheWeatherData.
  rewrite (set_fresh _ (mkEntry series now) c Hnew).
  destruct (written_overfull (generateCacheKey lat lng sd ed)
              (mkEntry series now) c Hwf Hsize Hnew) as [_ Hlen].
  rewrite Hlen. reflexivity.
Qed.

(** The eviction on 51 entries: ten go, 41 stay, and no entry that goes
    is newer than one that stays. *)
Lemma eviction_step (written : Cache.t) :
  NoDup (JsMap.keys written) -> JsMap.size written = 51%nat ->
  let left := deleteOldest (JsArray.sort olderThan written) written in
  JsMap.size left = 41%nat
  /\ (forall x, In x left -> In x written)
  /\ (forall kept evicted,
        In kept left -> In evicted written -> ~ In evicted left ->
        timestamp (snd evicted) <= timestamp (snd kept)).
Proof.
  intros Hndw Hlen left. subst left.
  set (sorted := JsArray.sort olderThan written).
  assert (Hperm : Permutation written sorted) by apply sortEntries_perm.
  split.
  { pose proof (deleteOldest_size written Hndw). fold sorted in H. lia. }
  rewrite deleteOldest_keys. split.
  { intros x Hx. now apply in_deleteKeys in Hx. }
  intros kept evicted Hkept Hev Hgone.
  apply in_deleteKeys in Hkept. destruct Hkept as [Hkw Hkk].
  assert (Hkept' : In kept (skipn 10 sorted)).
  { apply (Permutation_in _ Hperm) in Hkw.
    rewrite <- (firstn_skipn 10 sorted) in Hkw.
    apply in_app_or in Hkw. destruct Hkw as [Hk | Hk]; [| exact Hk].
    exfalso. apply Hkk. unfold JsMap.keys. now apply in_map. }
  assert (Hev' : In evicted (firstn 10 sorted)).
  { destruct (in_dec string_dec (fst evicted)
                (JsMap.keys (firstn 10 sorted))) as [I | N].
    - unfold JsMap.keys in I. apply in_map_iff in I.
      destruct I as ([k e] & Hk & Hx). simpl in Hk. subst k.
      assert (Hxw : In (fst evicted, e) written).
      { apply (Permutation_in _ (Permutation_sym Hperm)).
        now apply firstn_incl in Hx. }
      destruct evicted as [k0 e0]. simpl in *.
      now rewrite (same_key_same_entry written k0 e0 e Hndw Hev Hxw).
    - exfalso. apply Hgone. apply in_deleteKeys. split; assumption. }
  apply notAfter_olderThan.
  apply (sorted_app_le (notAfter olderThan) (firstn 10 sorted)
           (skipn 10 sorted)); [| exact Hev' | exact Hkept'].
  rewrite firstn_skipn.
  apply (sort_sorted olderThan olderThan_asym olderThan_trans).
Qed.

(** Fifty-one puts under distinct keys, whatever their timestamps. *)
Lemma puts_overflow puts :
  List.length puts = 51%nat ->
  NoDup (map (fun p => requestKey (fst p)) puts) ->
  runCache (map putOf puts)
  = deleteKeys
      (JsMap.keys (firstn 10 (JsArray.sort olderThan (map entryOf puts))))
      (map entryOf puts).
Proof.
  intros Hlen Hnd.
  destruct puts as [| p0 ps0] using rev_ind; [discriminate |].
  clear IHps0. rename ps0 into ps, p0 into p.
  rewrite length_app in Hlen. simpl in Hlen.
  pose proof (nodup_keys_snoc p ps Hnd) as [Hnd' Hk].
  rewrite map_app. simpl map.
  rewrite runCache_snoc, puts_without_eviction by (auto; lia).
  unfold putOf at 1. unfold cacheStep, put, cacheWeatherData.
  fold (requestKey (fst p)). rewrite put_fresh_entry by exact Hk.
  unfold JsMap.size. rewrite length_map, length_app. simpl List.length.
  destruct (Nat.ltb_spec 50 (List.length ps + 1)); [| lia].
  apply deleteOldest_keys.
Qed.

(** C5: the cache never holds more than 50 entries, whatever the history
    of calls.  A put under a new key that finds 50 entries sorts the 51
    by timestamp, ascending (entries with equal timestamps keep their
    order), and deletes the keys of the first ten: 41 entries stay, and
    no entry that goes is newer than one that stays, whatever the order
    in which the map holds them.  Fifty-one puts under distinct keys on
    an empty cache leave 41 entries; when they are made in clock order,
    these are the 41 stored last, and the ten keys stored first are
    absent. *)
Theorem cache_bounded_and_evicts_oldest :
  (forall history : list CacheOp,
      (JsMap.size (runCache history) <= 50)%nat)
  /\ (forall (c : Cache.t) (r : Request) (series : OpenMeteo.Response),
        wellFormed c -> JsMap.size c = 50%nat ->
        JsMap.get (requestKey r) c = None ->
        let written :=
          (c ++ [(requestKey r, mkEntry series (at_time r))])%list in
        let sorted := JsArray.sort olderThan written in
        Permutation written sorted
        /\ StronglySorted
             (fun a b => timestamp (snd a) <= timestamp (snd b)) sorted
        /\ put r series c
           = deleteKeys (JsMap.keys (firstn 10 sorted)) written
        /\ JsMap.size (put r series c) = 41%nat
        /\ (forall kept evicted,
              In kept (put r series c) -> In evicted written ->
              ~ In evicted (put r series c) ->
              timestamp (snd evicted) <= timestamp (snd kept)))
  /\ (forall puts : list (Request * OpenMeteo.Response),
        List.length puts = 51%nat ->
        NoDup (map (fun p => requestKey (fst p)) puts) ->
        let left := runCache (map putOf puts) in
        left
        = deleteKeys
            (JsMap.keys
               (firstn 10 (JsArray.sort olderThan (map entryOf puts))))
            (map entryOf puts)
        /\ JsMap.size left = 41%nat
        /\ (StronglySorted Z.le (map (fun p => at_time (fst p)) puts) ->
            left = skipn 10 (map entryOf puts)
            /\ (forall p, In p (firstn 10 puts) ->
                  JsMap.get (requestKey (fst p)) left = None))).
Proof.
  split; [intros history; apply runCache_wellFormed |].
  split.
  - intros c r series Hwf Hsize Hnew written sorted.
    split; [apply sortEntries_perm |].
    split.
    { eapply StronglySorted_weaken;
        [| apply (sort_sorted olderThan olderThan_asym olderThan_trans)].
      intros a b. apply notAfter_olderThan. }
    unfold put.
    rewrite (cacheWeatherData_overflow (at_time r) (req_latitude r)
               (req_longitude r) (req_startDate r) (req_endDate r) series c
               Hwf Hsize Hnew).
    fold (requestKey r). fold written. fold sorted.
    destruct (written_overfull (requestKey r) (mkEntry series (at_time r)) c
                Hwf Hsize Hnew) as [Hnd Hlen].
    fold written in Hnd, Hlen.
    destruct (eviction_step written Hnd Hlen) as (H41 & _ & Hold).
    fold sorted in H41, Hold.
    split; [apply deleteOldest_keys |]. split; assumption.
  - intros puts Hlen Hnd left. subst left.
    assert (Hnde : NoDup (JsMap.keys (map entryOf puts))).
    { now rewrite keys_entries. }
    assert (Hsz : JsMap.size (map entryOf puts) = 51%nat).
    { unfold JsMap.size. now rewrite length_map. }
    split; [now apply puts_overflow |].
    split.
    { rewrite (puts_overflow puts Hlen Hnd), <- deleteOldest_keys.
      apply (eviction_step (map entryOf puts) Hnde Hsz). }
    intros Hsorted.
    rewrite (puts_with_eviction puts Hlen Hnd Hsorted).
    split; [reflexivity |].
    intros p Hp. apply get_none_iff.
    unfold JsMap.keys. rewrite <- skipn_map.
    change (map fst (map entryOf puts)) with (JsMap.keys (map entryOf puts)).
    rewrite keys_entries.
    rewrite <- (firstn_skipn 10 (map (fun q => requestKey (fst q)) puts))
      in Hnd.
    intros I.
    assert (I1 : In (requestKey (fst p))
                   (firstn 10 (map (fun q => requestKey (fst q)) puts))).
    { rewrite firstn_map.
      now apply (in_map (fun q => requestKey (fst q))). }
    revert I. eapply nodup_app_disjoint; eauto.
Qed.

(** An instance in which the map order is not the order of the
    timestamps: the entry stored first was renewed at time 60, so the
    fifty-first key, written at time 70, evicts the ten entries stored
    after it and leaves the renewed one. *)
Lemma cache_bounded_and_evicts_oldest_witness :
  let r := mkRequest 70 (99 # 1) (-9 # 100) "2024-01-01" "2024-01-02" in
  JsMap.size (put r sampleSeries renewedCache) = 41%nat
  /\ JsMap.get (requestKey (fst (samplePut 0)))
       (put r sampleSeries renewedCache)
     = Some (mkEntry sampleSeries 60)
  /\ JsMap.get (requestKey (fst (samplePut 10)))
       (put r sampleSeries renewedCache)
     = None
  /\ JsMap.size (runCache (map putOf samplePuts)) = 41%nat
  /\ JsMap.get (requestKey (fst (samplePut 0)))
       (runCache (map putOf samplePuts)) = None.
Proof.
  intros r.
  destruct cache_bounded_and_evicts_oldest as (_ & Hstep & Hrun).
  destruct (Hstep renewedCache r sampleSeries) as (_ & _ & _ & Hsize & _).
  - apply runCache_wellFormed.
  - vm_compute. reflexivity.
  - vm_compute. reflexivity.
  - destruct (Hrun samplePuts) as (_ & Hsize' & Hclock).
    + reflexivity.
    + apply nodupb_sound. vm_compute. reflexivity.
    + destruct Hclock as [_ Habsent].
      * apply nondecreasingb_sound. vm_compute. reflexivity.
      * split; [exact Hsize |].
        split; [vm_compute; reflexivity |].
        split; [vm_compute; reflexivity |].
        split; [exact Hsize' |]. apply Habsent.
        unfold samplePuts. cbn [seq map firstn]. left. reflexivity.
Defined.

(** Coordinates that are equal after rounding render alike, and so give
    the same key, unless they round to zero from different sides. *)
Lemma sameTo4Decimals_fixed4 a b :
  sameTo4Decimals a b -> Format.toFixed4 a = Format.toFixed4 b.
Proof.
  intros [Heq Hzero]. unfold Format.toFixed4.
  pose proof (scaled4_nonneg a) as Ha. pose proof (scaled4_nonneg b) as Hb.
  unfold Format.roundTo4 in Heq, Hzero.
  destruct (Qnum a <? 0) eqn:Sa; destruct (Qnum b <? 0) eqn:Sb;
    unfold Qeq in Heq, Hzero; cbn [Qnum Qden] in Heq, Hzero.
  - replace (Format.scaled4 a) with (Format.scaled4 b) by lia. reflexivity.
  - assert (Hz : Format.scaled4 a = 0) by lia.
    rewrite Hz in Hzero. specialize (Hzero eq_refl). discriminate.
  - assert (Hz : Format.scaled4 a = 0) by lia.
    rewrite Hz in Hzero. specialize (Hzero eq_refl). discriminate.
  - replace (Format.scaled4 a) with (Format.scaled4 b) by lia. reflexivity.
Qed.

Lemma requestKey_same lookup stored :
  Format.toFixed4 (req_latitude lookup)
  = Format.toFixed4 (req_latitude stored) ->
  Format.toFixed4 (req_longitude lookup)
  = Format.toFixed4 (req_longitude stored) ->
  req_startDate lookup = req_startDate stored ->
  req_endDate lookup = req_endDate stored ->
  requestKey lookup = requestKey stored.
Proof.
  intros Hlat Hlng Hsd Hed. unfold requestKey, generateCacheKey.
  cbn [Format.fixed4]. now rewrite Hlat, Hlng, Hsd, Hed.
Qed.




End CacheScenarios.

(** ** The polygon slice *)

Section PolygonSliceFacts.
Import PolygonSlice.

Lemma updateFirst_persistable key f l :
  (forall p, persistable p -> persistable (f p)) ->
  Forall persistable l -> Forall persistable (updateFirst key f l).
Proof.
  intros Hf. induction 1 as [| p l Hp Hl IH]; simpl; [constructor |].
  destruct (String.eqb (id p) key); constructor; auto.
Qed.

Lemma reducer_persistable state action :
  keepsVertices action ->
  Forall persistable (polygons state) ->
  Forall persistable (polygons (reducer state action)).
Proof.
  intros Hk Hs.
  destruct action; cbn [reducer keepsVertices] in *;
    unfold startDrawing, addDrawingPoint, finishDrawing, cancelDrawing,
      updatePolygon, deletePolygon, selectPolygon, updatePolygonColor;
    cbn [polygons]; try exact Hs.
  - destruct (Nat.leb_spec 3 (List.length (drawingPoints state)));
      [| exact Hs].
    apply Forall_app. split; [exact Hs |].
    constructor; [exact H | constructor].
  - apply updateFirst_persistable; [| exact Hs].
    intros p Hp. unfold persistable, spread in *. cbn [points].
    destruct (u_points updates); cbn [orElse]; auto.
  - apply Forall_forall. intros p Hp. apply filter_In in Hp.
    rewrite Forall_forall in Hs. now apply Hs.
  - apply updateFirst_persistable; [| exact Hs].
    intros p Hp. exact Hp.
Qed.

Lemma reducer_run_persistable actions state :
  Forall keepsVertices actions ->
  Forall persistable (polygons state) ->
  Forall persistable (polygons (fold_left reducer actions state)).
Proof.
  revert state. induction actions as [| a actions IH]; intros state Ha Hs;
    simpl; [exact Hs |].
  inversion Ha; subst. apply IH; [assumption |].
  now apply reducer_persistable.
Qed.

(** C9: [finishDrawing] appends a polygon made of the draft exactly when
    the draft has at least three points and otherwise leaves the polygon
    list as it is; in both cases it clears drawing mode and empties the
    draft.  Hence every persisted polygon has at least three vertices:
    the reducer keeps that property, and it holds in every state reached
    from the initial one. *)
Theorem finishDrawing_persists_complete_polygons_only :
  forall (now : Z) (state : PolygonState) (payloadName payloadSource : string)
         (actions : list Action),
    Forall persistable (polygons state) ->
    Forall keepsVertices actions ->
    let state' := finishDrawing now state payloadName payloadSource in
    polygons state'
    = (if (3 <=? List.length (drawingPoints state))%nat
       then (polygons state
             ++ [mkPolygon ("polygon_" ++ Format.numberToString now)
                   payloadName (drawingPoints state) payloadSource
                   "#3388ff" None None])%list
       else polygons state)
    /\ isDrawing state' = false
    /\ drawingPoints state' = []
    /\ Forall persistable (polygons state')
    /\ Forall persistable (polygons (fold_left reducer actions initialState)).
Proof.
  intros now state payloadName payloadSource actions Hs Ha state'.
  split; [reflexivity |]. split; [reflexivity |]. split; [reflexivity |].
  split.
  - apply (reducer_persistable state
             (FinishDrawing now payloadName payloadSource) I Hs).
  - apply reducer_run_persistable; [exact Ha | constructor].
Qed.

Lemma finishDrawing_persists_complete_polygons_only_witness :
  let drafting :=
    fold_left reducer
      (StartDrawing :: map AddDrawingPoint sampleTriangle) initialState in
  let short :=
    fold_left reducer
      [StartDrawing; AddDrawingPoint (mkPoint (515 # 10) (-9 # 100))]
      initialState in
  List.length (polygons (finishDrawing 1700000000000 drafting "A" "temperature"))
  = 1%nat
  /\ polygons (finishDrawing 1700000000000 short "B" "temperature") = []
  /\ Forall persistable
       (polygons (finishDrawing 1700000000000 drafting "A" "temperature")).
Proof.
  intros drafting short.
  destruct (finishDrawing_persists_complete_polygons_only 1700000000000
              drafting "A" "temperature"
              [StartDrawing; FinishDrawing 5 "C" "temperature"])
    as (Hadd & _ & _ & Hall & _).
  - constructor.
  - repeat constructor.
  - split; [rewrite Hadd; reflexivity |].
    split; [reflexivity | exact Hall].
Defined.

End PolygonSliceFacts.

(** ** The fetch orchestrator *)

Section OrchestratorFacts.
Import Orchestrator.

Ltac expose_refresh :=
  unfold failure, supplied, lookedUp, requestParams, resolvedWindow,
    selectedWindow, Validator.resolve, tryBlock, loadData;
  match goal with
  | |- context [getPolygonCentroid ?pts] =>
      destruct (getPolygonCentroid pts) as [centroidLat centroidLng]
  end;
  match goal with
  | |- context [requestedWindow ?env ?ss ?se] =>
      destruct (requestedWindow env ss se) as [startDate endDate]
  end;
  unfold bind, dispatch, onCache, await, ret, throw;
  cbn [store dispatched cache];
  match goal with
  | |- context [Cache.getCachedWeatherData ?a ?b ?c ?d ?e ?f] =>
      destruct (Cache.getCachedWeatherData a b c d e f) as [found cache1]
  end;
  cbn [fst].

(** A failing refresh leaves the [try] block by an exception, after the
    two opening dispatches and before any other. *)
Lemma tryBlock_failure env polygon ss se rules w e :
  failure env polygon ss se (cache w) = Some e ->
  exists c',
    tryBlock env polygon ss se rules w
    = (Throw e,
       mkWorld (rootReducer (rootReducer (store w) (setLoading true))
                  (setError None))
         (dispatched w ++ [setLoading true; setError None])%list c').
Proof.
  expose_refresh. rewrite <- app_assoc. cbn [app].
  destruct found as [d |].
  - unfold seriesOf.
    destruct (OpenMeteo.hourly d) as [[[times |] [temperatures |]] |];
      intros H; inversion H; subst; eexists; reflexivity.
  - match goal with
    | |- context [axiosGet ?env ?p] => destruct (axiosGet env p) as [d | e']
    end.
    + unfold seriesOf. cbn [store dispatched cache].
      destruct (OpenMeteo.hourly d) as [[[times |] [temperatures |]] |];
        intros H; inversion H; subst; eexists; reflexivity.
    + intros H; inversion H; subst. eexists; reflexivity.
Qed.

(** A refresh that receives a well-formed series completes the [try]
    block with the series stored and the colour and value published. *)
Lemma tryBlock_success env polygon ss se rules w response times temperatures :
  supplied env polygon ss se (cache w) = Resolved response ->
  seriesOf response = Some (times, temperatures) ->
  let actual := resolvedWindow env ss se in
  let averageValue :=
    Aggregator.calculateAverageValue temperatures times
      (fst actual) (snd actual) in
  let colour :=
    WeatherService.applyColorRules averageValue
      (PolygonSlice.orElse rules []) in
  let published :=
    [setLoading true; setError None;
     setWeatherData (PolygonSlice.id polygon)
       (DataSourceSlice.mkWeatherData (OpenMeteo.latitude response)
          (OpenMeteo.longitude response) times temperatures);
     updatePolygonColor (PolygonSlice.id polygon) colour averageValue] in
  exists c',
    tryBlock env polygon ss se rules w
    = (Normal tt,
       mkWorld (fold_left rootReducer published (store w))
         (dispatched w ++ published)%list c').
Proof.
  intros Hsup Hser actual averageValue colour published.
  subst published colour averageValue actual. revert Hsup.
  expose_refresh. rewrite <- app_assoc. cbn [app fold_left].
  unfold seriesOf in Hser.
  destruct found as [d |].
  - intros H; inversion H; subst.
    destruct (OpenMeteo.hourly response) as [[[ts |] [vs |]] |];
      inversion Hser; subst.
    cbn [store dispatched cache fst snd].
    rewrite <- !app_assoc. cbn [app]. eexists; reflexivity.
  - match goal with
    | |- context [axiosGet ?env ?p] => destruct (axiosGet env p) as [d | e']
    end; intros H; inversion H; subst.
    cbn [store dispatched cache].
    destruct (OpenMeteo.hourly response) as [[[ts |] [vs |]] |];
      inversion Hser; subst.
    cbn [store dispatched cache fst snd].
    rewrite <- !app_assoc. cbn [app]. eexists; reflexivity.
Qed.

Lemma errorMessageOf_kinds :
  (forall code reason,
      errorMessageOf (AxiosError (Some 429) code reason)
      = "API rate limit exceeded. Please try again later.")
  /\ (forall code reason,
        errorMessageOf (AxiosError (Some 503) code reason)
        = "Weather service temporarily unavailable.")
  /\ (forall reason,
        errorMessageOf (AxiosError None (Some "ECONNABORTED") reason)
        = "Request timeout. Please check your connection.")
  /\ errorMessageOf (AxiosError (Some 400) None (Some "bad date"))
     = "API Error: bad date"
  /\ (forall message, errorMessageOf (ErrorObject message) = message)
  /\ errorMessageOf OtherValue = "Failed to fetch weather data".
Proof. repeat split; reflexivity. Qed.

(** C8: a refresh that fails, whatever the cause, ends normally; the
    only dispatches it makes are the loading flag, the clearing of the
    error slot, one error message and the loading flag again, so that
    the polygons, with their colours and values, are as before and the
    error slot holds the message. *)
Theorem fetchWeatherData_failure_publishes_one_error :
  forall (env : Env) (polygon : PolygonSlice.Polygon)
         (selectedStartTime selectedEndTime : option Z)
         (colorRules : option (list ColorRule)) (w : World) (e : Thrown),
    failure env polygon selectedStartTime selectedEndTime (cache w)
    = Some e ->
    let result :=
      fetchWeatherData env polygon selectedStartTime selectedEndTime
        colorRules w in
    fst result = Normal tt
    /\ dispatched (snd result)
       = (dispatched w
          ++ [setLoading true; setError None;
              setError (Some (errorMessageOf e)); setLoading false])%list
    /\ polygonState (store (snd result)) = polygonState (store w)
    /\ DataSourceSlice.error (dataSourceState (store (snd result)))
       = Some (errorMessageOf e)
    /\ DataSourceSlice.isLoading (dataSourceState (store (snd result)))
       = false.
Proof.
  intros env polygon ss se rules w e Hfail result. subst result.
  destruct (tryBlock_failure env polygon ss se rules w e Hfail) as [c' Hrun].
  unfold fetchWeatherData, andFinally, tryCatch. rewrite Hrun.
  unfold dispatch. cbn [fst snd store dispatched cache].
  rewrite <- !app_assoc. cbn [app].
  repeat split; reflexivity.
Qed.

Lemma fetchWeatherData_failure_publishes_one_error_witness :
  let result :=
    fetchWeatherData timeoutEnv samplePolygon
      (Some selectedStart) (Some selectedEnd)
      (Some [tierGreen; tierRed]) sampleWorld in
  fst result = Normal tt
  /\ dispatched (snd result)
     = [setLoading true; setError None;
        setError (Some "Request timeout. Please check your connection.");
        setLoading false]
  /\ shown "p1" (snd result) = shown "p1" sampleWorld.
Proof.
  intros result. subst result.
  destruct (fetchWeatherData_failure_publishes_one_error timeoutEnv
              samplePolygon (Some selectedStart) (Some selectedEnd)
              (Some [tierGreen; tierRed]) sampleWorld
              (AxiosError None (Some "ECONNABORTED") None))
    as (Hnormal & Hdispatched & Hpolygons & _).
  - vm_compute. reflexivity.
  - split; [exact Hnormal |]. split; [exact Hdispatched |].
    unfold shown. rewrite Hpolygons. reflexivity.
Defined.

Lemma shown_recoloured polygonId colour v state :
  PolygonSlice.findPolygon polygonId
    (PolygonSlice.updatePolygonColor state polygonId colour (Some v))
  = option_map (PolygonSlice.recolour colour (Some v))
      (PolygonSlice.findPolygon polygonId state).
Proof.
  unfold PolygonSlice.findPolygon, PolygonSlice.updatePolygonColor.
  cbn [PolygonSlice.polygons].
  induction (PolygonSlice.polygons state) as [| p l IH]; [reflexivity |].
  cbn [PolygonSlice.updateFirst find].
  destruct (String.eqb (PolygonSlice.id p) polygonId) eqn:E.
  - cbn [find PolygonSlice.recolour PolygonSlice.id]. rewrite E. reflexivity.
  - cbn [find]. rewrite E. exact IH.
Qed.

(** C4, as stated, fails: with a sixty-day selection the validator cuts
    the window to its last thirty days, the request is made for the days
    of the cut window, and the value published is the aggregate over the
    cut window, not over the selection. *)
Lemma fetchWeatherData_aggregates_resolved_window :
  let rules := [tierGreen; tierRed] in
  let result :=
    fetchWeatherData sampleEnv samplePolygon (Some selectedStart)
      (Some selectedEnd) (Some rules) sampleWorld in
  let overSelection :=
    Aggregator.calculateAverageValue sampleTemperatures sampleTimes
      selectedStart selectedEnd in
  resolvedWindow sampleEnv (Some selectedStart) (Some selectedEnd)
  = (70 * dayMs + noon, 100 * dayMs + noon)
  /\ start_date
       (requestParams sampleEnv samplePolygon (Some selectedStart)
          (Some selectedEnd)) = "1970-03-12"
  /\ end_date
       (requestParams sampleEnv samplePolygon (Some selectedStart)
          (Some selectedEnd)) = "1970-04-11"
  /\ map Format.formatDateForAPI sampleTimes = ["1970-03-12"; "1970-03-22"]
  /\ overSelection = 15 # 1
  /\ WeatherService.applyColorRules overSelection rules = "green"
  /\ shown "p1" (snd result) = Some ("red", Some (30 # 1))
  /\ ~ In (updatePolygonColor "p1"
             (WeatherService.applyColorRules overSelection rules)
             overSelection)
         (dispatched (snd result)).
Proof.
  vm_compute. repeat split; try reflexivity.
  intros H. repeat (destruct H as [H | H]; [discriminate H |]). exact H.
Qed.

(** C4, amended: on a successful fetch the refresh aggregates over the
    window the validator resolved, classifies the aggregate with the
    rules it was given and publishes colour and value to the polygon's
    record. *)
Theorem fetchWeatherData_success_publishes_resolved_aggregate :
  forall (env : Env) (polygon : PolygonSlice.Polygon)
         (selectedStartTime selectedEndTime : option Z)
         (colorRules : option (list ColorRule)) (w : World)
         (response : OpenMeteo.Response) (times : list Z)
         (temperatures : list Aggregator.Sample),
    supplied env polygon selectedStartTime selectedEndTime (cache w)
    = Resolved response ->
    seriesOf response = Some (times, temperatures) ->
    let actual := resolvedWindow env selectedStartTime selectedEndTime in
    let averageValue :=
      Aggregator.calculateAverageValue temperatures times
        (fst actual) (snd actual) in
    let colour :=
      WeatherService.applyColorRules averageValue
        (PolygonSlice.orElse colorRules []) in
    let result :=
      fetchWeatherData env polygon selectedStartTime selectedEndTime
        colorRules w in
    fst result = Normal tt
    /\ dispatched (snd result)
       = (dispatched w
          ++ [setLoading true; setError None;
              setWeatherData (PolygonSlice.id polygon)
                (DataSourceSlice.mkWeatherData (OpenMeteo.latitude response)
                   (OpenMeteo.longitude response) times temperatures);
              updatePolygonColor (PolygonSlice.id polygon) colour
                averageValue;
              setLoading false])%list
    /\ polygonState (store (snd result))
       = PolygonSlice.updatePolygonColor (polygonState (store w))
           (PolygonSlice.id polygon) colour (Some averageValue)
    /\ PolygonSlice.findPolygon (PolygonSlice.id polygon)
         (polygonState (store (snd result)))
       = option_map (PolygonSlice.recolour colour (Some averageValue))
           (PolygonSlice.findPolygon (PolygonSlice.id polygon)
              (polygonState (store w))).
Proof.
  intros env polygon ss se rules w response times temperatures Hsup Hser
    actual averageValue colour result.
  destruct (tryBlock_success env polygon ss se rules w response times
              temperatures Hsup Hser) as [c' Hrun].
  assert (Hstate :
    polygonState (store (snd result))
    = PolygonSlice.updatePolygonColor (polygonState (store w))
        (PolygonSlice.id polygon) colour (Some averageValue)).
  { subst result. unfold fetchWeatherData, andFinally, tryCatch.
    rewrite Hrun. reflexivity. }
  split; [| split; [| split]].
  - subst result. unfold fetchWeatherData, andFinally, tryCatch.
    rewrite Hrun. reflexivity.
  - subst result. unfold fetchWeatherData, andFinally, tryCatch.
    rewrite Hrun. unfold dispatch. cbn [fst snd store dispatched cache].
    rewrite <- !app_assoc. reflexivity.
  - exact Hstate.
  - rewrite Hstate. apply shown_recoloured.
Qed.

Lemma fetchWeatherData_success_publishes_resolved_aggregate_witness :
  let result :=
    fetchWeatherData sampleEnv samplePolygon (Some selectedStart)
      (Some selectedEnd) (Some [tierGreen; tierRed]) sampleWorld in
  fst result = Normal tt
  /\ PolygonSlice.findPolygon "p1" (polygonState (store (snd result)))
     = Some (PolygonSlice.recolour "red" (Some (30 # 1)) samplePolygon).
Proof.
  intros result. subst result.
  destruct (fetchWeatherData_success_publishes_resolved_aggregate sampleEnv
              samplePolygon (Some selectedStart) (Some selectedEnd)
              (Some [tierGreen; tierRed]) sampleWorld sampleBody
              sampleTimes sampleTemperatures)
    as (Hnormal & _ & _ & Hfound).
  - vm_compute. reflexivity.
  - reflexivity.
  - split; [exact Hnormal |]. refine (eq_trans Hfound _).
    vm_compute. reflexivity.
Defined.

End OrchestratorFacts.

(** * Further properties *)

(** ** The stable sort and filtering *)

Section SortFilterFacts.
Context {A : Type}.
Variable lt : A -> A -> bool.
Variable keep : A -> bool.

Hypothesis lt_asym : forall a b, lt a b = true -> lt b a = false.
Hypothesis le_trans :
  forall a b c, notAfter lt a b -> notAfter lt b c -> notAfter lt a c.

Lemma lt_notAfter_lt x y z :
  lt x y = true -> notAfter lt y z -> lt x z = true.
Proof.
  intros Hxy Hyz. destruct (lt x z) eqn:Hxz; [reflexivity |].
  assert (Hyx : notAfter lt y x).
  { apply (le_trans y z x); [exact Hyz | exact Hxz]. }
  unfold notAfter in Hyx. congruence.
Qed.

Lemma insertLast_front x m :
  Forall (fun z => lt x z = true) m -> JsArray.insertLast lt x m = x :: m.
Proof.
  destruct 1 as [| z m Hz _]; simpl; [reflexivity |]. now rewrite Hz.
Qed.

Lemma filter_insertLast x l :
  StronglySorted (notAfter lt) l ->
  filter keep (JsArray.insertLast lt x l)
  = if keep x then JsArray.insertLast lt x (filter keep l)
    else filter keep l.
Proof.
  induction 1 as [| y l Hs IH Hy].
  - simpl. destruct (keep x); reflexivity.
  - cbn [JsArray.insertLast]. destruct (lt x y) eqn:Hxy.
    + assert (Hall : Forall (fun z => lt x z = true) (y :: l)).
      { constructor; [exact Hxy |].
        eapply Forall_impl; [| exact Hy].
        intros z Hz. now apply (lt_notAfter_lt x y z). }
      assert (Hsub : Forall (fun z => lt x z = true) (filter keep (y :: l))).
      { rewrite Forall_forall in *. intros z Hz. apply Hall.
        now apply (incl_filter keep (y :: l)). }
      change (filter keep (x :: y :: l))
        with (if keep x then x :: filter keep (y :: l)
              else filter keep (y :: l)).
      destruct (keep x); [| reflexivity].
      now rewrite (insertLast_front x _ Hsub).
    + cbn [filter]. rewrite IH.
      destruct (keep y); destruct (keep x);
        cbn [JsArray.insertLast]; try rewrite Hxy; reflexivity.
Qed.

Lemma filter_fold_insert l acc :
  StronglySorted (notAfter lt) acc ->
  filter keep (fold_left (fun a x => JsArray.insertLast lt x a) l acc)
  = fold_left (fun a x => JsArray.insertLast lt x a) (filter keep l)
      (filter keep acc).
Proof.
  revert acc. induction l as [| x l IH]; intros acc Hs; simpl;
    [reflexivity |].
  rewrite IH by now apply insertLast_sorted.
  rewrite filter_insertLast by exact Hs.
  destruct (keep x); reflexivity.
Qed.

(** Where the insertion puts an element: behind everything that does
    not compare greater, and before everything that does. *)
Lemma insertLast_split x l :
  StronglySorted (notAfter lt) l ->
  exists l1 l2,
    JsArray.insertLast lt x l = (l1 ++ x :: l2)%list
    /\ l = (l1 ++ l2)%list
    /\ Forall (fun z => lt x z = true) l2.
Proof.
  induction 1 as [| y l Hs IH Hy].
  - exists [], []. repeat split; constructor.
  - cbn [JsArray.insertLast]. destruct (lt x y) eqn:Hxy.
    + exists [], (y :: l). repeat split.
      constructor; [exact Hxy |].
      eapply Forall_impl; [| exact Hy].
      intros z Hz. now apply (lt_notAfter_lt x y z).
    + destruct IH as (l1 & l2 & E1 & E2 & Hl2).
      exists (y :: l1), l2. rewrite E1, E2. repeat split. exact Hl2.
Qed.

(** Sorting commutes with dropping elements. *)
Lemma filter_sort l :
  filter keep (JsArray.sort lt l) = JsArray.sort lt (filter keep l).
Proof. apply (filter_fold_insert l []). constructor. Qed.

End SortFilterFacts.

Lemma find_filter_same {A : Type} (p : A -> bool) (l : list A) :
  find p (filter p l) = find p l.
Proof.
  induction l as [| x l IH]; simpl; [reflexivity |].
  destruct (p x) eqn:E; simpl; [now rewrite E | exact IH].
Qed.

Lemma find_last_split {A : Type} (p : A -> bool) (l : list A) (r : A) :
  find p (rev l) = Some r ->
  exists l1 l2,
    l = (l1 ++ r :: l2)%list /\ p r = true
    /\ Forall (fun x => p x = false) l2.
Proof.
  induction l as [| x l IH] using rev_ind; [discriminate |].
  rewrite rev_app_distr. simpl. destruct (p x) eqn:E.
  - intros H. inversion H; subst. exists l, []. auto.
  - intros H. destruct (IH H) as (l1 & l2 & -> & Hr & Hl2).
    exists l1, (l2 ++ [x])%list. rewrite <- app_assoc. simpl.
    repeat split; auto. apply Forall_app. auto.
Qed.

Lemma find_first_split {A : Type} (p : A -> bool) (l : list A) (r : A) :
  find p l = Some r ->
  exists l1 l2,
    l = (l1 ++ r :: l2)%list /\ p r = true
    /\ Forall (fun x => p x = false) l1.
Proof.
  induction l as [| x l IH]; simpl; [discriminate |].
  destruct (p x) eqn:E.
  - intros H. inversion H; subst. exists [], l. auto.
  - intros H. destruct (IH H) as (l1 & l2 & -> & Hr & Hl1).
    exists (x :: l1), l2. auto.
Qed.

Lemma sorted_around {A : Type} (R : A -> A -> Prop) (l1 l2 : list A) (r : A) :
  StronglySorted R (l1 ++ r :: l2) ->
  Forall (fun x => R x r) l1 /\ Forall (R r) l2.
Proof.
  induction l1 as [| x l1 IH]; simpl; intros H;
    inversion H as [| ? ? Hs Hf]; subst.
  - split; [constructor | exact Hf].
  - destruct (IH Hs) as [H1 H2]. split; [| exact H2].
    constructor; [| exact H1].
    rewrite Forall_forall in Hf. apply Hf, in_elt.
Qed.

(** ** The classifier, continued *)

Section ClassifierCoverage.
Import WeatherService.

Lemma applyColorRules_filter (v : Q) (R : list ColorRule) :
  applyColorRules v R = applyColorRules v (filter (ruleMatches v) R).
Proof.
  rewrite !applyColorRules_sorted. unfold sortRules.
  rewrite <- (filter_sort ruleBefore (ruleMatches v) ruleBefore_asym
                ruleBefore_trans).
  unfold lastMatching. rewrite <- filter_rev, find_filter_same. reflexivity.
Qed.

(** X1: rules whose test fails for the value have no influence: the
    colour is the same as with those rules removed, and likewise for the
    earlier classifier. *)
Theorem applyColorRules_ignores_failing_rules :
  forall (v : Q) (R : list ColorRule),
    applyColorRules v R = applyColorRules v (filter (ruleMatches v) R)
    /\ LegacyWeatherService.applyColorRules v R
       = LegacyWeatherService.applyColorRules v (filter (ruleMatches v) R).
Proof.
  intros v R. split; [apply applyColorRules_filter |].
  unfold LegacyWeatherService.applyColorRules, LegacyWeatherService.sortRules.
  rewrite !firstMatch_first. unfold firstMatching.
  rewrite <- (filter_sort ruleBefore (ruleMatches v) ruleBefore_asym
                ruleBefore_trans).
  now rewrite find_filter_same.
Qed.

Lemma sorted_in_R R r : In r (sortRules R) <-> In r R.
Proof.
  split; intros H.
  - apply (Permutation_in _ (Permutation_sym (sort_perm ruleBefore R)) H).
  - apply (Permutation_in _ (sort_perm ruleBefore R) H).
Qed.

Lemma find_app_none {A : Type} (p : A -> bool) (l l' : list A) :
  Forall (fun x => p x = false) l -> find p (l ++ l') = find p l'.
Proof.
  induction 1 as [| x l Hx _ IH]; [reflexivity |].
  cbn [app find]. now rewrite Hx.
Qed.

Lemma topMatch_perm v R R' r :
  Permutation R R' -> topMatch v R r -> topMatch v R' r.
Proof.
  intros Hp (Hin & Hm & Htop). split; [| split].
  - now apply (Permutation_in _ Hp).
  - exact Hm.
  - intros r' Hin'. apply Htop.
    now apply (Permutation_in _ (Permutation_sym Hp)).
Qed.

(** The colour is that of a matching rule of highest threshold, or the
    default when no rule matches. *)
Lemma applyColorRules_top v R :
  (exists r, topMatch v R r /\ applyColorRules v R = rule_color r)
  \/ ((forall r, In r R -> ruleMatches v r = false)
      /\ applyColorRules v R = defaultColor).
Proof.
  rewrite applyColorRules_sorted. unfold lastMatching.
  destruct (find (ruleMatches v) (rev (sortRules R))) as [r |] eqn:E.
  - left. exists r. split; [| reflexivity].
    destruct (find_last_split _ _ _ E) as (l1 & l2 & Hl & Hr & Hl2).
    pose proof (sortRules_ascending R) as Hs. unfold ascending in Hs.
    rewrite Hl in Hs. apply sorted_around in Hs. destruct Hs as [Hbefore _].
    split; [apply sorted_in_R; rewrite Hl; apply in_elt |].
    split; [exact Hr |].
    intros r' Hin Hm. apply sorted_in_R in Hin. rewrite Hl in Hin.
    apply in_app_or in Hin. destruct Hin as [Hin | [<- | Hin]].
    + rewrite Forall_forall in Hbefore. now apply Hbefore.
    + apply Qle_refl.
    + rewrite Forall_forall in Hl2. rewrite (Hl2 r' Hin) in Hm. discriminate.
  - right. split; [| reflexivity].
    intros r Hin. apply (find_none _ _ E). apply -> in_rev.
    now apply sorted_in_R.
Qed.

(** Given last, a matching rule of highest threshold decides the
    colour: the stable sort keeps it behind its equals, and what comes
    after it has a higher threshold and does not match. *)
Lemma top_match_given_last v L r :
  topMatch v (L ++ [r]) r -> applyColorRules v (L ++ [r]) = rule_color r.
Proof.
  intros (_ & Hm & Htop). rewrite applyColorRules_sorted.
  unfold sortRules, JsArray.sort. rewrite fold_left_app. cbn [fold_left].
  fold (JsArray.sort ruleBefore L).
  destruct (insertLast_split ruleBefore ruleBefore_trans r
              (JsArray.sort ruleBefore L)
              (sort_sorted ruleBefore ruleBefore_asym ruleBefore_trans L))
    as (l1 & l2 & -> & Hsorted & Hafter).
  unfold lastMatching. rewrite rev_app_distr. cbn [rev].
  rewrite <- app_assoc. rewrite find_app_none.
  - cbn [app find]. now rewrite Hm.
  - apply Forall_rev. rewrite Forall_forall in *. intros z Hz.
    destruct (ruleMatches v z) eqn:Hmz; [exfalso | reflexivity].
    assert (Hin : In z (L ++ [r])).
    { apply in_or_app. left.
      apply (Permutation_in _ (Permutation_sym (sort_perm ruleBefore L))).
      rewrite Hsorted. apply in_or_app. now right. }
    pose proof (Htop z Hin Hmz) as Hle.
    specialize (Hafter z Hz). apply ltb_lt in Hafter.
    exact (Qlt_not_le _ _ Hafter Hle).
Qed.

Lemma top_match_can_win v R r :
  topMatch v R r ->
  exists R', Permutation R R' /\ applyColorRules v R' = rule_color r.
Proof.
  intros Htop. destruct Htop as (Hin & Hrest).
  destruct (in_split r R Hin) as (l1 & l2 & HR).
  assert (Hp : Permutation R ((l1 ++ l2) ++ [r])).
  { rewrite HR. eapply perm_trans; [apply Permutation_sym, Permutation_middle |].
    apply Permutation_cons_append. }
  exists ((l1 ++ l2) ++ [r])%list. split; [exact Hp |].
  apply top_match_given_last. apply (topMatch_perm v R _ r Hp).
  split; assumption.
Qed.

(** C7, amended: the colour is the same for every order in which the
    rules are given exactly when the matching rules of highest threshold
    carry one colour.  Rules with equal thresholds keep their input
    order under the stable sort, so the order decides among them; it
    decides nothing when no two rules share a threshold, and nothing for
    the rules the store ships with, whose equal thresholds ("< 10" and
    ">= 10") never match together. *)
Theorem applyColorRules_order_independent_iff :
  forall (R : list ColorRule) (v : Q),
    (topMatchesAgree v R
     <-> (forall R', Permutation R R' ->
            applyColorRules v R = applyColorRules v R'))
    /\ (distinctThresholds R -> topMatchesAgree v R)
    /\ topMatchesAgree v DataSourceRules.defaultColorRules.
Proof.
  intros R v. split; [split |].
  - intros Hagree R' Hp.
    destruct (applyColorRules_top v R) as [(r & Hr & ->) | [Hnone ->]];
      destruct (applyColorRules_top v R') as [(r' & Hr' & ->) | [Hnone' ->]].
    + apply Hagree; [exact Hr |].
      now apply (topMatch_perm v R' R r' (Permutation_sym Hp)).
    + exfalso. destruct Hr as (Hin & Hm & _).
      rewrite (Hnone' r (Permutation_in _ Hp Hin)) in Hm. discriminate.
    + exfalso. destruct Hr' as (Hin & Hm & _).
      rewrite (Hnone r' (Permutation_in _ (Permutation_sym Hp) Hin)) in Hm.
      discriminate.
    + reflexivity.
  - intros Hsame r1 r2 H1 H2.
    destruct (top_match_can_win v R r1 H1) as (R1 & Hp1 & <-).
    destruct (top_match_can_win v R r2 H2) as (R2 & Hp2 & <-).
    rewrite <- (Hsame R1 Hp1), <- (Hsame R2 Hp2). reflexivity.
  - split.
    + intros Hd r1 r2 (Hin1 & Hm1 & Htop1) (Hin2 & Hm2 & Htop2).
      destruct (ForallOrdPairs_In Hd r1 r2 Hin1 Hin2) as [-> | [Hne | Hne]];
        [reflexivity | exfalso; apply Hne | exfalso; apply Hne];
        apply Qle_antisym; auto.
    + intros r1 r2 (Hin1 & Hm1 & Htop1) (Hin2 & Hm2 & Htop2).
      pose proof (Htop1 r2 Hin2 Hm2) as H21.
      pose proof (Htop2 r1 Hin1 Hm1) as H12.
      apply ruleMatches_test in Hm1. apply ruleMatches_test in Hm2.
      simpl in Hin1, Hin2.
      destruct Hin1 as [<- | [<- | [<- | []]]];
        destruct Hin2 as [<- | [<- | [<- | []]]];
        try reflexivity; exfalso;
        unfold operatorTest in Hm1, Hm2; cbn in Hm1, Hm2, H12, H21; lra.
Qed.

Lemma applyColorRules_order_independent_iff_witness :
  applyColorRules (10 # 1) DataSourceRules.defaultColorRules
  = applyColorRules (10 # 1) (rev DataSourceRules.defaultColorRules)
  /\ applyColorRules (30 # 1) [tierGreen; tierRed]
     = applyColorRules (30 # 1) [tierRed; tierGreen].
Proof.
  split.
  - destruct (applyColorRules_order_independent_iff
                DataSourceRules.defaultColorRules (10 # 1))
      as ([Hto _] & _ & Hdefault).
    apply (Hto Hdefault). apply Permutation_rev.
  - destruct (applyColorRules_order_independent_iff
                [tierGreen; tierRed] (30 # 1))
      as ([Hto _] & Hdistinct & _).
    apply Hto; [| apply perm_swap].
    apply Hdistinct. repeat constructor. vm_compute. discriminate.
Defined.

(** X2: when some rule matches, the colour is that of a matching rule
    whose threshold no matching rule exceeds; when none matches it is the
    default colour. *)
Theorem applyColorRules_highest_matching_threshold :
  forall (v : Q) (R : list ColorRule),
    (exists r,
        In r R /\ ruleMatches v r = true
        /\ (forall r', In r' R -> ruleMatches v r' = true ->
              (rule_value r' <= rule_value r)%Q)
        /\ applyColorRules v R = rule_color r)
    \/ ((forall r, In r R -> ruleMatches v r = false)
        /\ applyColorRules v R = "#3388ff").
Proof.
  intros v R. rewrite applyColorRules_sorted. unfold lastMatching.
  destruct (find (ruleMatches v) (rev (sortRules R))) as [r |] eqn:E.
  - left. exists r.
    destruct (find_last_split _ _ _ E) as (l1 & l2 & Hl & Hr & Hl2).
    pose proof (sortRules_ascending R) as Hs. unfold ascending in Hs.
    rewrite Hl in Hs. apply sorted_around in Hs. destruct Hs as [Hbefore _].
    split; [apply sorted_in_R; rewrite Hl; apply in_elt |].
    split; [exact Hr |]. split; [| reflexivity].
    intros r' Hin Hm. apply sorted_in_R in Hin. rewrite Hl in Hin.
    apply in_app_or in Hin. destruct Hin as [Hin | [<- | Hin]].
    + rewrite Forall_forall in Hbefore. now apply Hbefore.
    + apply Qle_refl.
    + rewrite Forall_forall in Hl2. rewrite (Hl2 r' Hin) in Hm. discriminate.
  - right. split; [| reflexivity].
    intros r Hin. apply (find_none _ _ E). apply -> in_rev.
    now apply sorted_in_R.
Qed.

(** X3: the earlier classifier returns the colour of a matching rule
    whose threshold is below or equal to that of every matching rule,
    and the default colour when none matches. *)
Theorem legacy_applyColorRules_lowest_matching_threshold :
  forall (v : Q) (R : list ColorRule),
    (exists r,
        In r R /\ ruleMatches v r = true
        /\ (forall r', In r' R -> ruleMatches v r' = true ->
              (rule_value r <= rule_value r')%Q)
        /\ LegacyWeatherService.applyColorRules v R = rule_color r)
    \/ ((forall r, In r R -> ruleMatches v r = false)
        /\ LegacyWeatherService.applyColorRules v R = "#3388ff").
Proof.
  intros v R. unfold LegacyWeatherService.applyColorRules.
  rewrite firstMatch_first. unfold firstMatching.
  change (LegacyWeatherService.sortRules R) with (sortRules R).
  destruct (find (ruleMatches v) (sortRules R)) as [r |] eqn:E.
  - left. exists r.
    destruct (find_first_split _ _ _ E) as (l1 & l2 & Hl & Hr & Hl1).
    pose proof (sortRules_ascending R) as Hs. unfold ascending in Hs.
    rewrite Hl in Hs. apply sorted_around in Hs. destruct Hs as [_ Hafter].
    split; [apply sorted_in_R; rewrite Hl; apply in_elt |].
    split; [exact Hr |]. split; [| reflexivity].
    intros r' Hin Hm. apply sorted_in_R in Hin. rewrite Hl in Hin.
    apply in_app_or in Hin. destruct Hin as [Hin | [<- | Hin]].
    + rewrite Forall_forall in Hl1. rewrite (Hl1 r' Hin) in Hm. discriminate.
    + apply Qle_refl.
    + rewrite Forall_forall in Hafter. now apply Hafter.
  - right. split; [| reflexivity].
    intros r Hin. apply (find_none _ _ E). now apply sorted_in_R.
Qed.

End ClassifierCoverage.

(** ** The aggregator, continued *)

Section AggregatorCoverage.
Import Aggregator.

Lemma windowed_present values timestamps s e x :
  In x (windowed values timestamps s e) -> In (Some x) values.
Proof.
  revert timestamps.
  induction values as [| v values IH]; intros timestamps; [contradiction |].
  destruct timestamps as [| t timestamps]; [contradiction |].
  cbn [windowed]. destruct v as [y |].
  - destruct ((s <=? t) && (t <=? e)).
    + intros [-> | H]; [now left | right; eapply IH; eauto].
    + intros H. right. eapply IH; eauto.
  - intros H. right. eapply IH; eauto.
Qed.

Lemma validData_present data x : In x (validData data) <-> In (Some x) data.
Proof.
  induction data as [| v data IH]; simpl; [tauto |].
  destruct v as [y |]; simpl; rewrite IH.
  - split; intros [H | H]; auto; inversion H; auto.
  - split; [auto | intros [H | H]; [discriminate | auto]].
Qed.

Lemma last_in {A : Type} (l : list A) (d : A) : l <> [] -> In (last l d) l.
Proof.
  induction l as [| x l IH]; [contradiction |].
  intros _. destruct l as [| y l]; [now left |].
  right. apply IH. discriminate.
Qed.

Lemma windowed_length values timestamps s e :
  (List.length (windowed values timestamps s e) <= List.length values)%nat.
Proof.
  revert timestamps.
  induction values as [| v values IH]; intros timestamps; [simpl; lia |].
  destruct timestamps as [| t timestamps]; [simpl; lia |].
  cbn [windowed]. specialize (IH timestamps).
  destruct v as [y |]; [destruct ((s <=? t) && (t <=? e)) |];
    cbn [List.length]; lia.
Qed.

(** X4: the aggregate stays between whole-number bounds of the data:
    when every present value lies between the integers [lo] and [hi],
    there is at least one, and the length of the series times the larger
    magnitude of the two bounds is at most 2^53, the result lies between
    [lo] and [hi], whether it is a rounded mean or the fallback.  (With
    bounds that are not whole the rounding can carry the mean past them:
    three readings of 0.1 give 0.10000000000000002.) *)
Theorem calculateAverageValue_within_data_range :
  forall (data : list Sample) (timeArray : list Z) (startTime endTime : Z)
         (lo hi : Z),
    (exists v, In (Some v) data) ->
    (forall v, In (Some v) data ->
       (inject_Z lo <= v)%Q /\ (v <= inject_Z hi)%Q) ->
    Z.of_nat (List.length data) * Z.max (Z.abs lo) (Z.abs hi) <= 2 ^ 53 ->
    (inject_Z lo <= calculateAverageValue data timeArray startTime endTime)%Q
    /\ (calculateAverageValue data timeArray startTime endTime
        <= inject_Z hi)%Q.
Proof.
  intros data timeArray s e lo hi [v0 Hv0] Hall Hsize.
  unfold calculateAverageValue. rewrite collect_windowed.
  pose proof (windowed_length data timeArray s e) as Hlen.
  destruct (windowed data timeArray s e) as [| x l] eqn:E.
  - destruct (validData data) as [| y ys] eqn:Ev.
    + exfalso. apply validData_present in Hv0. rewrite Ev in Hv0.
      contradiction.
    + apply Hall. apply validData_present. rewrite Ev.
      apply last_in. discriminate.
  - apply (rounded_mean_bracket lo hi (x :: l)); [discriminate | |].
    { eapply Z.le_trans; [| exact Hsize].
      apply Z.mul_le_mono_nonneg_r; [lia |].
      apply Nat2Z.inj_le. exact Hlen. }
    apply Forall_forall. intros y Hy. apply Hall.
    apply (windowed_present data timeArray s e). now rewrite E.
Qed.

Lemma calculateAverageValue_within_data_range_witness :
  Qle (4 # 1)
    (calculateAverageValue [Some (4 # 1); None; Some (7 # 1)]
       [0; 3600000; 7200000] 0 7200000)
  /\ Qle
       (calculateAverageValue [Some (4 # 1); None; Some (7 # 1)]
          [0; 3600000; 7200000] 0 7200000)
       (7 # 1).
Proof.
  apply (calculateAverageValue_within_data_range
           [Some (4 # 1); None; Some (7 # 1)] [0; 3600000; 7200000]
           0 7200000 4 7).
  - exists (4 # 1). now left.
  - intros v [H | [H | [H | []]]]; inversion H; subst;
      split; vm_compute; discriminate.
  - vm_compute. discriminate.
Defined.

(** The same three readings of 0.1: the rounded mean exceeds each of
    them. *)
Example calculateAverageValue_above_the_readings :
  Qlt double01
    (calculateAverageValue [Some double01; Some double01; Some double01]
       [0; 3600000; 7200000] 0 7200000).
Proof. vm_compute. reflexivity. Qed.

(** X5: the earlier aggregator and the current one select the same
    samples and return the same mean when a sample is selected; when none
    is, the earlier one returns 0 where the current one falls back to the
    last present value. *)
Theorem legacy_calculateAverageValue_differs_only_in_fallback :
  forall (data : list Sample) (timeArray : list Z) (startTime endTime : Z),
    match windowed data timeArray startTime endTime with
    | [] =>
        LegacyAggregator.calculateAverageValue data timeArray startTime endTime
        = 0 # 1
        /\ calculateAverageValue data timeArray startTime endTime
           = match lastPresent data with Some x => x | None => 0 # 1 end
    | _ :: _ =>
        LegacyAggregator.calculateAverageValue data timeArray startTime endTime
        = calculateAverageValue data timeArray startTime endTime
    end.
Proof.
  intros data timeArray s e.
  unfold LegacyAggregator.calculateAverageValue, calculateAverageValue.
  rewrite collect_windowed.
  destruct (windowed data timeArray s e) as [| x l]; [| reflexivity].
  split; [reflexivity |].
  rewrite <- (last_validData data (0 # 1)).
  destruct (validData data); reflexivity.
Qed.

End AggregatorCoverage.

(** ** The date-range validator, continued *)

Section ValidatorCoverage.
Import Validator.

(** X6: whatever the input, the resolved window is at most 30 days
    long. *)
Theorem resolve_span_at_most_30_days :
  forall now startDate endDate : Z,
    snd (resolve now startDate endDate) - fst (resolve now startDate endDate)
    <= 30 * msPerDay.
Proof.
  intros now s e. rewrite resolve_cases. unfold maxRangeDays.
  destruct (Z.ltb_spec now s); [cbn [fst snd]; unfold msPerDay; lia |].
  destruct (Z.ltb_spec (30 * msPerDay) (e - s)); [cbn [fst snd]; lia |].
  destruct (Z.ltb_spec s oldestDate); cbn [fst snd]; lia.
Qed.

(** X7: for a selection in the past and not before 1940-01-01, the
    resolved window lies inside the selection and ends where it ends, and
    the validator accepts it unchanged at that clock and at any later
    one. *)
Theorem resolve_past_selection_is_stable :
  forall now later startDate endDate : Z,
    oldestDate <= startDate -> startDate <= endDate -> endDate <= now ->
    now <= later ->
    let resolved := resolve now startDate endDate in
    startDate <= fst resolved
    /\ fst resolved <= snd resolved
    /\ snd resolved = endDate
    /\ isValid (validateDateRange later (fst resolved) (snd resolved)) = true
    /\ resolve later (fst resolved) (snd resolved) = resolved.
Proof.
  intros now later s e Hold Hse Hen Hlater resolved. subst resolved.
  assert (Hfix : forall s', s <= s' -> s' <= e -> e - s' <= 30 * msPerDay ->
            isValid (validateDateRange later s' e) = true
            /\ resolve later s' e = (s', e)).
  { intros s' H1 H2 H3. rewrite resolve_cases.
    unfold validateDateRange. rewrite rangeDays_exceeds.
    unfold maxRangeDays.
    destruct (Z.ltb_spec later s'); [lia |].
    destruct (Z.ltb_spec (30 * msPerDay) (e - s')); [lia |].
    destruct (Z.ltb_spec s' oldestDate); [lia |]. split; reflexivity. }
  rewrite resolve_cases. unfold maxRangeDays.
  destruct (Z.ltb_spec now s); [lia |].
  destruct (Z.ltb_spec (30 * msPerDay) (e - s)).
  - cbn [fst snd]. assert (0 < msPerDay) by (unfold msPerDay; lia).
    destruct (Hfix (e - 30 * msPerDay)) as [Hv Hr]; try lia.
    repeat split; try lia; assumption.
  - destruct (Z.ltb_spec s oldestDate); [lia |]. cbn [fst snd].
    destruct (Hfix s) as [Hv Hr]; try lia.
    repeat split; try lia; assumption.
Qed.

Lemma resolve_past_selection_is_stable_witness :
  resolve 8683200000 3499200000 8683200000 = (6091200000, 8683200000)
  /\ resolve 8683200500 6091200000 8683200000 = (6091200000, 8683200000).
Proof.
  destruct (resolve_past_selection_is_stable 8683200000 8683200500
              3499200000 8683200000) as (_ & _ & _ & _ & Hfix).
  - vm_compute. discriminate.
  - vm_compute. discriminate.
  - vm_compute. discriminate.
  - vm_compute. discriminate.
  - split; [reflexivity |].
    refine (eq_trans _ Hfix). reflexivity.
Defined.

(** X8: only the first matching rule is applied: a selection that starts
    in the past and ends more than 30 days ahead of the clock is resolved
    to a window that starts in the future, which the validator would
    adjust again. *)
Theorem resolve_can_leave_a_future_window :
  forall now startDate endDate : Z,
    startDate <= now -> now + 30 * msPerDay < endDate ->
    resolve now startDate endDate = (endDate - 30 * msPerDay, endDate)
    /\ now < fst (resolve now startDate endDate)
    /\ isValid (validateDateRange now (endDate - 30 * msPerDay) endDate)
       = false.
Proof.
  intros now s e Hs He.
  assert (Hr : resolve now s e = (e - 30 * msPerDay, e)).
  { rewrite resolve_cases. unfold maxRangeDays.
    destruct (Z.ltb_spec now s); [lia |].
    destruct (Z.ltb_spec (30 * msPerDay) (e - s)); [reflexivity | lia]. }
  rewrite Hr. cbn [fst]. split; [reflexivity |]. split; [lia |].
  unfold validateDateRange.
  destruct (Z.ltb_spec now (e - 30 * msPerDay)); [reflexivity | lia].
Qed.

Lemma resolve_can_leave_a_future_window_witness :
  resolve 8683200000 8640000000 12960000000 = (10368000000, 12960000000).
Proof.
  destruct (resolve_can_leave_a_future_window 8683200000 8640000000
              12960000000) as [Hr _].
  - vm_compute. discriminate.
  - vm_compute. reflexivity.
  - refine (eq_trans Hr _). reflexivity.
Defined.

End ValidatorCoverage.

(** ** The response cache, continued *)

Section CacheCoverage.
Import Cache.

(** X9: when a put under a new key finds 50 entries, exactly ten of the
    51 are evicted and 41 stay, and none of the evicted entries is newer
    than any entry that stays. *)
Theorem cacheWeatherData_evicts_the_oldest :
  forall (now : Z) (lat lng : Q) (sd ed : string)
         (series : OpenMeteo.Response) (c : Cache.t),
    wellFormed c -> JsMap.size c = 50%nat ->
    JsMap.get (generateCacheKey lat lng sd ed) c = None ->
    let key := generateCacheKey lat lng sd ed in
    let written := (c ++ [(key, mkEntry series now)])%list in
    let c' := cacheWeatherData now lat lng sd ed series c in
    JsMap.size c' = 41%nat
    /\ (forall x, In x c' -> In x written)
    /\ (forall kept evicted,
          In kept c' -> In evicted written -> ~ In evicted c' ->
          timestamp (snd evicted) <= timestamp (snd kept)).
Proof.
  intros now lat lng sd ed series c Hwf Hsize Hnew key written c'.
  subst c'.
  rewrite (cacheWeatherData_overflow now lat lng sd ed series c Hwf Hsize Hnew).
  destruct (written_overfull key (mkEntry series now) c Hwf Hsize Hnew)
    as [Hnd Hlen].
  exact (eviction_step written Hnd Hlen).
Qed.

Lemma cacheWeatherData_evicts_the_oldest_witness :
  JsMap.size
    (cacheWeatherData 60 (99 # 1) (-9 # 100) "2024-01-01" "2024-01-02"
       sampleSeries (runCache (map putOf (firstn 50 samplePuts))))
  = 41%nat.
Proof.
  destruct (cacheWeatherData_evicts_the_oldest 60 (99 # 1) (-9 # 100)
              "2024-01-01" "2024-01-02" sampleSeries
              (runCache (map putOf (firstn 50 samplePuts))))
    as [Hsize _].
  - apply runCache_wellFormed.
  - vm_compute. reflexivity.
  - vm_compute. reflexivity.
  - exact Hsize.
Defined.

(** X10: a put under a key that is already cached replaces that entry's
    series and timestamp in place: the keys and their order stay, nothing
    is evicted, and every other key keeps its entry. *)
Theorem cacheWeatherData_overwrites_in_place :
  forall (now : Z) (lat lng : Q) (sd ed : string)
         (series : OpenMeteo.Response) (c : Cache.t) (old : Entry),
    wellFormed c ->
    JsMap.get (generateCacheKey lat lng sd ed) c = Some old ->
    let key := generateCacheKey lat lng sd ed in
    let c' := cacheWeatherData now lat lng sd ed series c in
    JsMap.keys c' = JsMap.keys c
    /\ JsMap.get key c' = Some (mkEntry series now)
    /\ (forall k, k <> key -> JsMap.get k c' = JsMap.get k c).
Proof.
  intros now lat lng sd ed series c old [Hnd Hsz] Hold key c'.
  subst c'. unfold cacheWeatherData. fold key.
  assert (Hkeys : JsMap.keys (JsMap.set key (mkEntry series now) c)
                  = JsMap.keys c).
  { eapply keys_set_present; eauto. }
  assert (Hsame : JsMap.size (JsMap.set key (mkEntry series now) c)
                  = JsMap.size c).
  { unfold JsMap.size.
    rewrite <- (length_map fst (JsMap.set key (mkEntry series now) c)).
    fold (JsMap.keys (JsMap.set key (mkEntry series now) c)).
    rewrite Hkeys. unfold JsMap.keys. apply length_map. }
  rewrite Hsame.
  destruct (Nat.ltb_spec 50 (JsMap.size c)); [lia |].
  split; [exact Hkeys |]. split; [apply get_set_same |].
  intros k Hk. now apply get_set_other.
Qed.

Lemma cacheWeatherData_overwrites_in_place_witness :
  JsMap.get (requestKey (fst (samplePut 3)))
    (cacheWeatherData 900 (3 # 1) (-9 # 100) "2024-01-01" "2024-01-02"
       sampleBody (runCache (map putOf (firstn 5 samplePuts))))
  = Some (mkEntry sampleBody 900).
Proof.
  destruct (cacheWeatherData_overwrites_in_place 900 (3 # 1) (-9 # 100)
              "2024-01-01" "2024-01-02" sampleBody
              (runCache (map putOf (firstn 5 samplePuts)))
              (mkEntry sampleSeries 3))
    as (_ & Hget & _).
  - apply runCache_wellFormed.
  - vm_compute. reflexivity.
  - refine (eq_trans _ Hget). reflexivity.
Defined.

(** X11: a lookup serves an entry only while it is younger than five
    minutes and then leaves the cache as it is; a lookup under a key that
    is not cached returns nothing and changes nothing; and no lookup
    disturbs the entry of another key or adds an entry. *)
Theorem getCachedWeatherData_frame :
  forall (now : Z) (lat lng : Q) (sd ed : string) (c : Cache.t),
    let key := generateCacheKey lat lng sd ed in
    let found := fst (getCachedWeatherData now lat lng sd ed c) in
    let c' := snd (getCachedWeatherData now lat lng sd ed c) in
    (forall d, found = Some d ->
       c' = c
       /\ exists entry,
            JsMap.get key c = Some entry /\ data entry = d
            /\ now - timestamp entry < CACHE_DURATION)
    /\ (JsMap.get key c = None -> found = None /\ c' = c)
    /\ (forall k, k <> key -> JsMap.get k c' = JsMap.get k c)
    /\ (forall x, In x c' -> In x c).
Proof.
  intros now lat lng sd ed c key found c'. subst found c'.
  unfold getCachedWeatherData. fold key.
  destruct (JsMap.get key c) as [entry |] eqn:E.
  - unfold isCacheValid.
    destruct (Z.ltb_spec (now - timestamp entry) CACHE_DURATION);
      cbn [fst snd].
    + split.
      { intros d Hd. inversion Hd; subst. split; [reflexivity |].
        exists entry. auto. }
      split; [discriminate |]. split; auto.
    + split; [discriminate |]. split; [discriminate |].
      split.
      * intros k Hk. now apply get_delete_other.
      * intros x Hx. now apply in_delete in Hx.
  - cbn [fst snd]. split; [discriminate |]. split; auto.
Qed.

(** X12: the statistics list one line per entry, in insertion order;
    the age reported is within half a second of the entry's age, so that
    an entry reported younger than 300 seconds is still served and one
    reported older than 300 seconds is expired; after a clear the
    statistics are empty. *)
Theorem getCacheStats_ages :
  forall (now : Z) (c : Cache.t),
    let stats := CacheUtil.getCacheStats now c in
    CacheUtil.size stats = List.length (CacheUtil.entries stats)
    /\ map fst (CacheUtil.entries stats) = JsMap.keys c
    /\ Forall2
         (fun line kv =>
            let age := snd line in
            let elapsed := now - timestamp (snd kv) in
            2 * elapsed - 1000 < 2000 * age <= 2 * elapsed + 1000
            /\ (if age <? 300 then isCacheValid now (timestamp (snd kv)) = true
                else if 300 <? age
                     then isCacheValid now (timestamp (snd kv)) = false
                     else True))
         (CacheUtil.entries stats) c
    /\ CacheUtil.getCacheStats now (CacheUtil.clearWeatherDataCache c)
       = CacheUtil.mkStats 0 [].
Proof.
  intros now c stats. subst stats. unfold CacheUtil.getCacheStats.
  cbn [CacheUtil.size CacheUtil.entries].
  split; [unfold JsMap.size; now rewrite length_map |].
  split; [unfold JsMap.keys; rewrite map_map; reflexivity |].
  split; [| reflexivity].
  induction c as [| [k e] c IH]; cbn [map]; constructor; [| exact IH].
  cbn [fst snd]. unfold CacheUtil.roundedSeconds, isCacheValid.
  change CACHE_DURATION with 300000.
  set (elapsed := now - timestamp e).
  pose proof (Z.div_mod (elapsed + 500) 1000 ltac:(lia)) as Hdm.
  pose proof (Z.mod_pos_bound (elapsed + 500) 1000 ltac:(lia)) as Hmb.
  split; [lia |].
  destruct (Z.ltb_spec ((elapsed + 500) / 1000) 300).
  - apply Z.ltb_lt. lia.
  - destruct (Z.ltb_spec 300 ((elapsed + 500) / 1000)); [| exact I].
    apply Z.ltb_ge. lia.
Qed.

End CacheCoverage.

(** ** Coordinates: rounding and rendering *)

Section FormatCoverage.
Import Format.

Lemma scaled4_of_scaled (n : Z) :
  0 <= n -> (2 * n * 10000 + 10000) / (2 * 10000) = n.
Proof. intros Hn. Z.div_mod_to_equations. lia. Qed.

Lemma scaled4_roundTo4 x : scaled4 (roundTo4 x) = scaled4 x.
Proof.
  pose proof (scaled4_nonneg x) as Hn. unfold roundTo4.
  destruct (Qnum x <? 0); unfold scaled4 at 1; cbn [Qnum Qden].
  - rewrite Z.abs_opp, Z.abs_eq by exact Hn. now apply scaled4_of_scaled.
  - rewrite Z.abs_eq by exact Hn. now apply scaled4_of_scaled.
Qed.

Lemma roundTo4_sign x :
  (Qnum (roundTo4 x) <? 0) = (Qnum x <? 0) && negb (scaled4 x =? 0).
Proof.
  pose proof (scaled4_nonneg x) as Hn. unfold roundTo4.
  destruct (Qnum x <? 0) eqn:E; cbn [Qnum andb].
  - destruct (Z.eqb_spec (scaled4 x) 0) as [-> | Hne]; [reflexivity |].
    apply Z.ltb_lt. lia.
  - apply Z.ltb_ge. exact Hn.
Qed.

Lemma roundTo4_close x : (Qabs (roundTo4 x - x) <= 1 # 20000)%Q.
Proof.
  apply Qabs_Qle_condition. unfold roundTo4, scaled4.
  destruct x as [p q]. cbn [Qnum Qden].
  set (n := (2 * Z.abs p * 10000 + Z.pos q) / (2 * Z.pos q)).
  assert (Hq : 0 < Z.pos q) by lia.
  assert (Hn : 2 * Z.pos q * n <= 2 * Z.abs p * 10000 + Z.pos q
               /\ 2 * Z.abs p * 10000 + Z.pos q < 2 * Z.pos q * (n + 1)).
  { subst n.
    pose proof (Z.div_mod (2 * Z.abs p * 10000 + Z.pos q) (2 * Z.pos q)
                  ltac:(lia)) as Hdm.
    pose proof (Z.mod_pos_bound (2 * Z.abs p * 10000 + Z.pos q)
                  (2 * Z.pos q) ltac:(lia)) as Hmb.
    lia. }
  destruct (Z.ltb_spec p 0) as [Hp | Hp];
    [rewrite (Z.abs_neq p) in Hn by lia | rewrite (Z.abs_eq p) in Hn by lia];
    unfold Qle, Qminus, Qplus, Qopp; cbn [Qnum Qden];
    rewrite ?Pos2Z.inj_mul; split; nia.
Qed.


End FormatCoverage.

(** ** The centroid *)

Section CentroidCoverage.
Import PolygonSlice Orchestrator.

Lemma fold_add_map {A : Type} (f : A -> Q) (l : list A) (a : Q) :
  fold_left (fun acc p => Num.add acc (f p)) l a
  = fold_left Num.add (map f l) a.
Proof.
  revert a. induction l as [| x l IH]; intros a; simpl; [reflexivity |].
  apply IH.
Qed.

(** One coordinate of the centroid of points between whole bounds. *)
Lemma centroid_component_bracket {A : Type} (f : A -> Q) (l : list A)
    (lo hi : Z) :
  l <> [] ->
  Z.of_nat (List.length l) * Z.max (Z.abs lo) (Z.abs hi) <= 2 ^ 53 ->
  Forall (fun p => (inject_Z lo <= f p)%Q /\ (f p <= inject_Z hi)%Q) l ->
  exists c : Q,
    Num.divByLength (fold_left (fun acc p => Num.add acc (f p)) l (0 # 1))
      (List.length l)
    = Num.Finite c
    /\ (inject_Z lo <= c)%Q /\ (c <= inject_Z hi)%Q.
Proof.
  intros Hne Hsize Hall.
  assert (Hm : map f l <> []) by (destruct l; [contradiction | discriminate]).
  assert (Hb : Forall (fun x => (inject_Z lo <= x)%Q /\ (x <= inject_Z hi)%Q)
                 (map f l)).
  { rewrite Forall_map. exact Hall. }
  pose proof (rounded_mean_bracket lo hi (map f l) Hm) as Hmean.
  rewrite length_map in Hmean. specialize (Hmean Hsize Hb).
  rewrite fold_add_map.
  destruct l as [| x l]; [contradiction |].
  eexists. split; [reflexivity | exact Hmean].
Qed.

(** X14: the centroid of a non-empty vertex list lies inside every
    bounding box of the vertices whose sides are whole numbers of
    degrees, as long as the number of vertices times the larger
    magnitude of the bounds is at most 2^53; in particular it is a
    finite number.  (With sides that are not whole the rounding can
    carry the centroid past them: three latitudes of 0.1 give
    0.10000000000000002.) *)
Theorem getPolygonCentroid_in_bounding_box :
  forall (pts : list PolygonPoint) (south north west east : Z),
    pts <> [] ->
    Z.of_nat (List.length pts) * Z.max (Z.abs south) (Z.abs north) <= 2 ^ 53 ->
    Z.of_nat (List.length pts) * Z.max (Z.abs west) (Z.abs east) <= 2 ^ 53 ->
    Forall (fun p => (inject_Z south <= lat p)%Q /\ (lat p <= inject_Z north)%Q)
      pts ->
    Forall (fun p => (inject_Z west <= lng p)%Q /\ (lng p <= inject_Z east)%Q)
      pts ->
    exists centroidLat centroidLng : Q,
      getPolygonCentroid pts
      = (Num.Finite centroidLat, Num.Finite centroidLng)
      /\ (inject_Z south <= centroidLat)%Q
      /\ (centroidLat <= inject_Z north)%Q
      /\ (inject_Z west <= centroidLng)%Q
      /\ (centroidLng <= inject_Z east)%Q.
Proof.
  intros pts south north west east Hne Hlatsize Hlngsize Hlat Hlng.
  unfold getPolygonCentroid.
  destruct (centroid_component_bracket lat pts south north Hne Hlatsize Hlat)
    as (centroidLat & -> & H1 & H2).
  destruct (centroid_component_bracket lng pts west east Hne Hlngsize Hlng)
    as (centroidLng & -> & H3 & H4).
  exists centroidLat, centroidLng. repeat split; assumption.
Qed.

Lemma getPolygonCentroid_in_bounding_box_witness :
  exists centroidLat centroidLng : Q,
    getPolygonCentroid sampleTriangle
    = (Num.Finite centroidLat, Num.Finite centroidLng)
    /\ Qle (51 # 1) centroidLat /\ Qle centroidLat (52 # 1)
    /\ Qle (-1 # 1) centroidLng /\ Qle centroidLng (0 # 1).
Proof.
  apply (getPolygonCentroid_in_bounding_box sampleTriangle 51 52 (-1) 0).
  - discriminate.
  - vm_compute. discriminate.
  - vm_compute. discriminate.
  - repeat constructor; vm_compute; discriminate.
  - repeat constructor; vm_compute; discriminate.
Defined.

(** The centroid of no points is [0 / 0] in both coordinates, and the
    request for it would carry "NaN". *)
Example getPolygonCentroid_of_no_points :
  getPolygonCentroid [] = (Num.NaN, Num.NaN)
  /\ Format.fixed4 (fst (getPolygonCentroid [])) = "NaN".
Proof. split; reflexivity. Qed.

End CentroidCoverage.

(** ** The fetch orchestrator, continued *)

Section OrchestratorCoverage.
Import Orchestrator.

Ltac open_refresh :=
  unfold cacheAfter, failure, supplied, lookedUp, requestParams,
    resolvedWindow, selectedWindow, Validator.resolve, tryBlock, loadData;
  match goal with
  | |- context [getPolygonCentroid ?pts] =>
      destruct (getPolygonCentroid pts) as [centroidLat centroidLng]
  end;
  match goal with
  | |- context [requestedWindow ?env ?ss ?se] =>
      destruct (requestedWindow env ss se) as [startDate endDate]
  end;
  unfold bind, dispatch, onCache, await, ret, throw;
  cbn [store dispatched cache];
  match goal with
  | |- context [Cache.getCachedWeatherData ?a ?b ?c ?d ?e ?f] =>
      destruct (Cache.getCachedWeatherData a b c d e f) as [found cache1]
  end;
  cbn [fst snd].

(** The cache the [try] block leaves. *)
Lemma tryBlock_cache env polygon ss se rules w :
  cache (snd (tryBlock env polygon ss se rules w))
  = cacheAfter env polygon ss se (cache w).
Proof.
  open_refresh.
  destruct found as [d |].
  - destruct (OpenMeteo.hourly d) as [[[times |] [temperatures |]] |];
      reflexivity.
  - match goal with
    | |- context [axiosGet ?env ?p] => destruct (axiosGet env p) as [d | e']
    end; [| reflexivity].
    cbn [store dispatched cache].
    destruct (OpenMeteo.hourly d) as [[[times |] [temperatures |]] |];
      reflexivity.
Qed.

Lemma fetchWeatherData_cache env polygon ss se rules w :
  cache (snd (fetchWeatherData env polygon ss se rules w))
  = cacheAfter env polygon ss se (cache w).
Proof.
  rewrite <- (tryBlock_cache env polygon ss se rules w).
  unfold fetchWeatherData, andFinally, tryCatch, dispatch.
  destruct (tryBlock env polygon ss se rules w) as [[[] | e] w'];
    reflexivity.
Qed.

(** A refresh that does not fail received a well-formed series. *)
Lemma no_failure_supplied env polygon ss se c :
  failure env polygon ss se c = None ->
  exists response times temperatures,
    supplied env polygon ss se c = Resolved response
    /\ seriesOf response = Some (times, temperatures).
Proof.
  unfold failure.
  destruct (supplied env polygon ss se c) as [d | e]; [| discriminate].
  destruct (seriesOf d) as [[times temperatures] |] eqn:E; [| discriminate].
  intros _. exists d, times, temperatures. auto.
Qed.

Lemma outline_updateFirst key colour v l :
  map outline (PolygonSlice.updateFirst key (PolygonSlice.recolour colour v) l)
  = map outline l.
Proof.
  induction l as [| p l IH]; [reflexivity |].
  cbn [PolygonSlice.updateFirst].
  destruct (String.eqb (PolygonSlice.id p) key); cbn [map];
    [reflexivity | now rewrite IH].
Qed.

Lemma outlines_recoloured state key colour v :
  outlines (PolygonSlice.updatePolygonColor state key colour v)
  = outlines state.
Proof.
  unfold outlines, PolygonSlice.updatePolygonColor.
  cbn [PolygonSlice.polygons PolygonSlice.isDrawing
         PolygonSlice.selectedPolygonId PolygonSlice.drawingPoints].
  now rewrite outline_updateFirst.
Qed.

(** What a refresh leaves in the store, by outcome. *)
Lemma fetchWeatherData_store env polygon ss se rules w :
  let result := fetchWeatherData env polygon ss se rules w in
  fst result = Normal tt
  /\ outlines (polygonState (store (snd result)))
     = outlines (polygonState (store w))
  /\ errorSlot (snd result)
     = option_map errorMessageOf (failure env polygon ss se (cache w))
  /\ loadingFlag (snd result) = false
  /\ DataSourceSlice.availableDataSources (dataSourceState (store (snd result)))
     = DataSourceSlice.availableDataSources (dataSourceState (store w))
  /\ DataSourceSlice.selectedDataSourceId (dataSourceState (store (snd result)))
     = DataSourceSlice.selectedDataSourceId (dataSourceState (store w)).
Proof.
  intros result. subst result. unfold errorSlot, loadingFlag.
  destruct (failure env polygon ss se (cache w)) as [e |] eqn:Hf.
  - destruct (tryBlock_failure env polygon ss se rules w e Hf) as [c' Hrun].
    unfold fetchWeatherData, andFinally, tryCatch. rewrite Hrun.
    repeat split; reflexivity.
  - destruct (no_failure_supplied env polygon ss se (cache w) Hf)
      as (response & times & temperatures & Hsup & Hser).
    destruct (tryBlock_success env polygon ss se rules w response times
                temperatures Hsup Hser) as [c' Hrun].
    unfold fetchWeatherData, andFinally, tryCatch. rewrite Hrun.
    unfold dispatch. cbn [fst snd store dispatched cache fold_left].
    split; [reflexivity |]. split; [| repeat split; reflexivity].
    cbn [rootReducer setLoading setError setWeatherData updatePolygonColor
           polygonState dataSourceState PolygonSlice.reducer].
    apply outlines_recoloured.
Qed.

(** X15: a refresh, whatever its outcome, ends normally with the loading
    flag down; it changes nothing of the polygons but colour and value
    (no polygon is added, removed, reordered, renamed or reshaped, and
    the drawing state and the selection stay); and it leaves the error
    slot holding the message of its own failure, or empty when it did not
    fail. *)
Theorem fetchWeatherData_touches_only_colour_and_value :
  forall (env : Env) (polygon : PolygonSlice.Polygon)
         (selectedStartTime selectedEndTime : option Z)
         (colorRules : option (list ColorRule)) (w : World),
    let result :=
      fetchWeatherData env polygon selectedStartTime selectedEndTime
        colorRules w in
    fst result = Normal tt
    /\ outlines (polygonState (store (snd result)))
       = outlines (polygonState (store w))
    /\ errorSlot (snd result)
       = option_map errorMessageOf
           (failure env polygon selectedStartTime selectedEndTime (cache w))
    /\ loadingFlag (snd result) = false.
Proof.
  intros env polygon ss se rules w result. subst result.
  destruct (fetchWeatherData_store env polygon ss se rules w)
    as (H1 & H2 & H3 & H4 & _).
  repeat split; assumption.
Qed.


End OrchestratorCoverage.

Section RefreshLoopCoverage.
Import Orchestrator MapEffects.


Lemma refreshEach_step envAt index polygon rest ss se rules w :
  refreshEach envAt index (polygon :: rest) ss se rules w
  = refreshEach envAt (S index) rest ss se rules
      (snd (fetchWeatherData (envAt index) polygon (Some ss) (Some se)
              (Some rules) w)).
Proof.
  cbn [refreshEach]. unfold bind, tryCatch.
  pose proof (fetchWeatherData_store (envAt index) polygon (Some ss) (Some se)
                (Some rules) w) as [Hn _].
  destruct (fetchWeatherData (envAt index) polygon (Some ss) (Some se)
              (Some rules) w) as [c w'].
  cbn [fst snd] in *. subst c. reflexivity.
Qed.

Lemma refreshEach_app envAt index l1 l2 ss se rules w :
  refreshEach envAt index (l1 ++ l2) ss se rules w
  = refreshEach envAt (index + List.length l1) l2 ss se rules
      (snd (refreshEach envAt index l1 ss se rules w)).
Proof.
  revert index w. induction l1 as [| p l1 IH]; intros index w.
  - cbn [app List.length refreshEach]. unfold ret. cbn [snd].
    now rewrite Nat.add_0_r.
  - cbn [app List.length]. rewrite !refreshEach_step, IH.
    now rewrite Nat.add_succ_comm.
Qed.

Lemma refreshEach_frame envAt index polygons ss se rules w :
  let result := refreshEach envAt index polygons ss se rules w in
  fst result = Normal tt
  /\ outlines (polygonState (store (snd result)))
     = outlines (polygonState (store w))
  /\ DataSourceSlice.availableDataSources
       (dataSourceState (store (snd result)))
     = DataSourceSlice.availableDataSources (dataSourceState (store w))
  /\ DataSourceSlice.selectedDataSourceId
       (dataSourceState (store (snd result)))
     = DataSourceSlice.selectedDataSourceId (dataSourceState (store w)).
Proof.
  revert index w. induction polygons as [| p polygons IH]; intros index w.
  - cbn. repeat split; reflexivity.
  - cbn zeta. rewrite refreshEach_step.
    destruct (fetchWeatherData_store (envAt index) p (Some ss) (Some se)
                (Some rules) w) as (_ & Ho & _ & _ & Ha & Hs).
    destruct (IH (S index)
                (snd (fetchWeatherData (envAt index) p (Some ss) (Some se)
                        (Some rules) w))) as (Hn' & Ho' & Ha' & Hs').
    split; [exact Hn' |]. split; [congruence |]. split; congruence.
Qed.

(** X17: the refresh effect runs the polygons one after the other and
    never throws; it changes only colours and values; and because each
    refresh first clears the error slot, the slot ends up holding the
    outcome of the last polygon's refresh alone: the failure of an
    earlier polygon is not shown once a later one was refreshed. *)
Theorem refreshEffect_keeps_last_outcome_only :
  forall (envAt : nat -> Env) (polygons init : list PolygonSlice.Polygon)
         (last : PolygonSlice.Polygon)
         (sources : list DataSourceSlice.DataSource) (selectedId : string)
         (source : DataSourceSlice.DataSource)
         (selectedStartTime selectedEndTime : Z) (w : World),
    find (fun ds => String.eqb (DataSourceSlice.id ds) selectedId) sources
    = Some source ->
    polygons = (init ++ [last])%list ->
    let rules := DataSourceSlice.colorRules source in
    let before :=
      snd (refreshEach envAt 0 init selectedStartTime selectedEndTime
             rules w) in
    let result :=
      refreshEffect envAt polygons sources selectedId selectedStartTime
        selectedEndTime w in
    fst result = Normal tt
    /\ outlines (polygonState (store (snd result)))
       = outlines (polygonState (store w))
    /\ snd result
       = snd (fetchWeatherData (envAt (List.length init)) last
                (Some selectedStartTime) (Some selectedEndTime)
                (Some rules) before)
    /\ errorSlot (snd result)
       = option_map errorMessageOf
           (failure (envAt (List.length init)) last
              (Some selectedStartTime) (Some selectedEndTime) (cache before))
    /\ loadingFlag (snd result) = false.
Proof.
  intros envAt polygons init last sources selectedId source ss se w
    Hfind Hpoly rules before result.
  assert (Hrun : result = refreshEach envAt 0 polygons ss se rules w).
  { subst result. unfold refreshEffect, updatePolygonData.
    rewrite Hfind, Hpoly, length_app. cbn [List.length].
    destruct (Nat.ltb_spec 0 (List.length init + 1)); [reflexivity | lia]. }
  destruct (refreshEach_frame envAt 0 polygons ss se rules w)
    as (Hn & Ho & _).
  rewrite Hrun. split; [exact Hn |]. split; [exact Ho |].
  rewrite Hpoly, refreshEach_app, refreshEach_step. fold before.
  cbn [refreshEach Nat.add]. unfold ret. cbn [snd].
  destruct (fetchWeatherData_store (envAt (List.length init)) last (Some ss)
              (Some se) (Some rules) before) as (_ & _ & He & Hl & _).
  split; [reflexivity |]. split; assumption.
Qed.

Lemma refreshEffect_keeps_last_outcome_only_witness :
  let result :=
    refreshEffect firstDown [samplePolygon; secondPolygon]
      [temperatureSource] "temperature" selectedStart selectedEnd
      sampleWorld in
  fst result = Normal tt /\ errorSlot (snd result) = None
  /\ In (setError (Some "Request timeout. Please check your connection."))
       (dispatched (snd result)).
Proof.
  intros result.
  destruct (refreshEffect_keeps_last_outcome_only firstDown
              [samplePolygon; secondPolygon] [samplePolygon] secondPolygon
              [temperatureSource] "temperature" temperatureSource
              selectedStart selectedEnd sampleWorld)
    as (Hn & _ & _ & He & _).
  - reflexivity.
  - reflexivity.
  - split; [exact Hn |]. split.
    + refine (eq_trans He _). vm_compute. reflexivity.
    + vm_compute. tauto.
Defined.

End RefreshLoopCoverage.

(** ** The polygon slice, continued *)

Section PolygonSliceCoverage.
Import PolygonSlice.

Lemma addDrawingPoints_run pts state :
  fold_left addDrawingPoint pts state
  = mkState (polygons state) (isDrawing state) (selectedPolygonId state)
      (drawingPoints state ++ pts)%list.
Proof.
  revert state. induction pts as [| p pts IH]; intros state; cbn [fold_left].
  - rewrite app_nil_r. destruct state; reflexivity.
  - rewrite IH. unfold addDrawingPoint.
    cbn [polygons isDrawing selectedPolygonId drawingPoints].
    now rewrite <- app_assoc.
Qed.

(** X18: a drawing session started with [startDrawing] and fed its points
    one by one is finished into exactly one new polygon, appended last,
    with those points in click order and the default colour, when there
    are at least three points, and into none otherwise; a draft left
    over from before the session is discarded, and cancelling instead
    leaves the polygons as they were. *)
Theorem drawing_session_outcome :
  forall (state : PolygonState) (pts : list PolygonPoint) (now : Z)
         (payloadName payloadSource : string),
    let drafted := fold_left addDrawingPoint pts (startDrawing state) in
    let finished := finishDrawing now drafted payloadName payloadSource in
    drafted = mkState (polygons state) true (selectedPolygonId state) pts
    /\ finished
       = mkState
           (if (3 <=? List.length pts)%nat
            then (polygons state
                  ++ [mkPolygon ("polygon_" ++ Format.numberToString now)
                        payloadName pts payloadSource "#3388ff" None None])%list
            else polygons state)
           false (selectedPolygonId state) []
    /\ cancelDrawing drafted
       = mkState (polygons state) false (selectedPolygonId state) [].
Proof.
  intros state pts now payloadName payloadSource drafted finished.
  assert (Hd : drafted
               = mkState (polygons state) true (selectedPolygonId state) pts).
  { subst drafted. rewrite addDrawingPoints_run. reflexivity. }
  subst finished. rewrite Hd. repeat split; reflexivity.
Qed.

Lemma updateFirst_absent key f l :
  find (fun p => String.eqb (id p) key) l = None -> updateFirst key f l = l.
Proof.
  induction l as [| p l IH]; simpl; [reflexivity |].
  destruct (String.eqb (id p) key); [discriminate |].
  intros H. now rewrite IH.
Qed.

Lemma updateFirst_present key f l1 p l2 :
  Forall (fun q => id q <> key) l1 -> id p = key ->
  updateFirst key f (l1 ++ p :: l2) = (l1 ++ f p :: l2)%list.
Proof.
  intros Hl1 Hp. induction Hl1 as [| q l1 Hq _ IH]; simpl.
  - rewrite Hp, String.eqb_refl. reflexivity.
  - destruct (String.eqb_spec (id q) key); [contradiction |]. now rewrite IH.
Qed.

(** X19: an update addressed to an identifier that no polygon carries
    changes nothing, be it [updatePolygonColor] or [updatePolygon]. *)
Theorem update_of_unknown_polygon_is_ignored :
  forall (state : PolygonState) (key colour : string) (v : option Q)
         (updates : Updates),
    findPolygon key state = None ->
    updatePolygonColor state key colour v = state
    /\ updatePolygon state key updates = state.
Proof.
  intros state key colour v updates Hnone.
  unfold findPolygon in Hnone.
  unfold updatePolygonColor, updatePolygon.
  rewrite !updateFirst_absent by exact Hnone.
  destruct state; split; reflexivity.
Qed.

Lemma update_of_unknown_polygon_is_ignored_witness :
  updatePolygonColor (mkState [samplePolygon] false None []) "p9" "red"
    (Some (30 # 1))
  = mkState [samplePolygon] false None [].
Proof.
  destruct (update_of_unknown_polygon_is_ignored
              (mkState [samplePolygon] false None []) "p9" "red"
              (Some (30 # 1))
              (mkUpdates None (Some "x") None None None None None))
    as [H _].
  - reflexivity.
  - exact H.
Defined.

(** X20: [updatePolygonColor] recolours the first polygon that carries
    the identifier and no other; it always assigns the colour, assigns
    the value when the payload has one and keeps the old value
    otherwise, and leaves the polygon's identifier, name, vertices and
    data source as they are. *)
Theorem updatePolygonColor_changes_first_match_only :
  forall (state : PolygonState) (before after : list Polygon) (p : Polygon)
         (colour : string) (v : option Q),
    polygons state = (before ++ p :: after)%list ->
    Forall (fun q => id q <> id p) before ->
    let state' := updatePolygonColor state (id p) colour v in
    polygons state'
    = (before
       ++ mkPolygon (id p) (name p) (points p) (dataSourceId p) colour
            (match v with Some x => Some x | None => value p end)
            (isEditing p)
       :: after)%list
    /\ isDrawing state' = isDrawing state
    /\ selectedPolygonId state' = selectedPolygonId state
    /\ drawingPoints state' = drawingPoints state.
Proof.
  intros state before after p colour v Hl Hbefore state'. subst state'.
  unfold updatePolygonColor.
  cbn [polygons isDrawing selectedPolygonId drawingPoints].
  rewrite Hl, (updateFirst_present (id p) _ before p after Hbefore eq_refl).
  repeat split; reflexivity.
Qed.

Lemma updatePolygonColor_changes_first_match_only_witness :
  polygons
    (updatePolygonColor
       (mkState [secondPolygon; samplePolygon; samplePolygon] false None [])
       "p1" "red" None)
  = [secondPolygon;
     mkPolygon "p1" "Polygon 1" sampleTriangle "temperature" "red" None None;
     samplePolygon].
Proof.
  destruct (updatePolygonColor_changes_first_match_only
              (mkState [secondPolygon; samplePolygon; samplePolygon]
                 false None [])
              [secondPolygon] [samplePolygon] samplePolygon "red" None)
    as [H _].
  - reflexivity.
  - repeat constructor. vm_compute. discriminate.
  - exact H.
Defined.

Lemma filter_idem {A : Type} (f : A -> bool) (l : list A) :
  filter f (filter f l) = filter f l.
Proof.
  induction l as [| x l IH]; simpl; [reflexivity |].
  destruct (f x) eqn:E; simpl; rewrite ?E; congruence.
Qed.

Lemma filter_absent key (l : list Polygon) :
  find (fun p => String.eqb (id p) key) l = None ->
  filter (fun p => negb (String.eqb (id p) key)) l = l.
Proof.
  induction l as [| p l IH]; simpl; [reflexivity |].
  destruct (String.eqb (id p) key); [discriminate |].
  intros H. simpl. now rewrite IH.
Qed.

(** X21: [deletePolygon] removes every polygon that carries the
    identifier and keeps the others in order; deleting an identifier
    that no polygon carries changes nothing, deleting twice is deleting
    once, and the reducer never touches the selection, even when the
    selected polygon is the one deleted. *)
Theorem deletePolygon_removes_all_matches :
  forall (state : PolygonState) (key : string),
    let state' := deletePolygon state key in
    polygons state'
    = filter (fun p => negb (String.eqb (id p) key)) (polygons state)
    /\ findPolygon key state' = None
    /\ (forall p, In p (polygons state')
                  <-> In p (polygons state) /\ id p <> key)
    /\ selectedPolygonId state' = selectedPolygonId state
    /\ deletePolygon state' key = state'
    /\ match findPolygon key state with
       | Some _ => True
       | None => state' = state
       end.
Proof.
  intros state key state'. subst state'. unfold deletePolygon, findPolygon.
  cbn [polygons isDrawing selectedPolygonId drawingPoints].
  split; [reflexivity |].
  assert (Hin : forall p,
            In p (filter (fun p => negb (String.eqb (id p) key))
                    (polygons state))
            <-> In p (polygons state) /\ id p <> key).
  { intros p. rewrite filter_In, negb_true_iff.
    destruct (String.eqb_spec (id p) key); split; intros [H1 H2];
      split; auto; congruence. }
  split.
  { destruct (find _ (filter _ (polygons state))) as [p |] eqn:E;
      [| reflexivity].
    apply find_some in E. destruct E as [Hp Hk]. apply Hin in Hp.
    apply String.eqb_eq in Hk. tauto. }
  split; [exact Hin |]. split; [reflexivity |].
  split.
  { f_equal. apply filter_idem. }
  destruct (find (fun p => String.eqb (id p) key) (polygons state)) eqn:E;
    [exact I |].
  rewrite (filter_absent key (polygons state) E).
  destruct state; reflexivity.
Qed.

End PolygonSliceCoverage.

(** ** The timeline *)

Section TimelineCoverage.
Import TimelineSlice TimelineSlider.

(** X22: switching the mode twice restores the mode but not the
    selection: whichever mode it starts from, the selection is left
    collapsed onto its start, because the switch into single-point mode
    overwrites the selected end and the switch back does not restore
    it. *)
Theorem toggleRangeMode_twice :
  forall state : TimelineState,
    toggleRangeMode (toggleRangeMode state)
    = mkState (startTime state) (endTime state) (selectedStartTime state)
        (selectedStartTime state) (isRangeMode state)
    /\ (isRangeMode (toggleRangeMode state) = true
        \/ selectedEndTime (toggleRangeMode state)
           = selectedStartTime (toggleRangeMode state)).
Proof.
  intros [s e ss se mode]. unfold toggleRangeMode.
  destruct mode; cbn; split; auto.
Qed.

(** X23: a quick-selection button selects a window that ends at the
    clock or at the end of the timeline, whichever is earlier, reaches
    back by at most the button's span, and lies inside the timeline; in
    single-point mode it selects that end instant alone. *)
Theorem quickSelect_window :
  forall (span clock : Z) (state : TimelineState),
    startTime state <= endTime state -> startTime state <= clock ->
    0 <= span ->
    let state' := quickSelect span clock state in
    selectedEndTime state' = Z.min clock (endTime state)
    /\ startTime state <= selectedStartTime state'
    /\ selectedStartTime state' <= selectedEndTime state'
    /\ selectedEndTime state' <= endTime state
    /\ selectedEndTime state' - selectedStartTime state' <= span
    /\ (isRangeMode state = false ->
        selectedStartTime state' = selectedEndTime state')
    /\ startTime state' = startTime state
    /\ endTime state' = endTime state
    /\ isRangeMode state' = isRangeMode state.
Proof.
  intros span clock state Hse Hsc Hspan state'. subst state'.
  unfold quickSelect, setSelectedTimeRange, setSelectedTime.
  destruct (isRangeMode state) eqn:Hmode;
    cbn [startTime endTime selectedStartTime selectedEndTime isRangeMode];
    repeat split; try lia; try congruence.
Qed.

Lemma quickSelect_window_witness :
  let state := initialState 8683200000 in
  selectedStartTime (lastHour 8683260000 state) = 8679600000
  /\ selectedEndTime (lastHour 8683260000 state) = 8683200000.
Proof.
  intros state.
  destruct (quickSelect_window 3600000 8683260000 state)
    as (He & _).
  - vm_compute. discriminate.
  - vm_compute. discriminate.
  - vm_compute. discriminate.
  - split; [reflexivity | exact He].
Defined.

Lemma handle_collapsed state event :
  isRangeMode state = true
  \/ selectedStartTime state = selectedEndTime state ->
  isRangeMode (handle state event) = true
  \/ selectedStartTime (handle state event)
     = selectedEndTime (handle state event).
Proof.
  intros Hinv.
  destruct event as [[v | a b] | | clock | clock | clock];
    unfold handle, handleSliderChange, lastHour, last6Hours, last24Hours,
      quickSelect, toggleRangeMode, setSelectedTimeRange, setSelectedTime;
    destruct (isRangeMode state) eqn:Hmode;
    cbn [negb startTime endTime selectedStartTime selectedEndTime
           isRangeMode];
    try rewrite Hmode; auto;
    destruct Hinv as [H | H]; auto; discriminate.
Qed.

(** X24: whatever the user does with the control, starting from the
    initial state, a single-point selection is a single instant: in
    single-point mode the selected start and end coincide. *)
Theorem timeline_single_point_is_one_instant :
  forall (loadedAt : Z) (events : list Event),
    let state := fold_left handle events (initialState loadedAt) in
    isRangeMode state = true
    \/ selectedStartTime state = selectedEndTime state.
Proof.
  intros loadedAt events.
  assert (Hgen : forall s,
            isRangeMode s = true \/ selectedStartTime s = selectedEndTime s ->
            isRangeMode (fold_left handle events s) = true
            \/ selectedStartTime (fold_left handle events s)
               = selectedEndTime (fold_left handle events s)).
  { induction events as [| e events IH]; intros s Hs; [exact Hs |].
    cbn [fold_left]. apply IH. now apply handle_collapsed. }
  apply Hgen. left. reflexivity.
Qed.

(** X25: a window chosen with a quick-selection button is never adjusted
    by the validator: when the timeline does not start before 1940-01-01
    and the button's span is at most 30 days, a refresh made at the
    click or later resolves the selection to itself. *)
Theorem quickSelect_passes_validation :
  forall (span clock later : Z) (state : TimelineState),
    Validator.oldestDate <= startTime state ->
    startTime state <= endTime state -> startTime state <= clock ->
    clock <= later -> 0 <= span -> span <= 30 * Validator.msPerDay ->
    let state' := quickSelect span clock state in
    Validator.isValid
      (Validator.validateDateRange later (selectedStartTime state')
         (selectedEndTime state')) = true
    /\ Validator.resolve later (selectedStartTime state')
         (selectedEndTime state')
       = (selectedStartTime state', selectedEndTime state').
Proof.
  intros span clock later state Hold Hse Hsc Hlater Hspan Hmax state'.
  subst state'.
  assert (Hfix : forall s e, Validator.oldestDate <= s -> s <= later ->
            e - s <= 30 * Validator.msPerDay ->
            Validator.isValid (Validator.validateDateRange later s e) = true
            /\ Validator.resolve later s e = (s, e)).
  { intros s e H1 H2 H3. rewrite resolve_cases.
    unfold Validator.validateDateRange. rewrite rangeDays_exceeds.
    unfold Validator.maxRangeDays.
    destruct (Z.ltb_spec later s); [lia |].
    destruct (Z.ltb_spec (30 * Validator.msPerDay) (e - s)); [lia |].
    destruct (Z.ltb_spec s Validator.oldestDate); [lia |].
    split; reflexivity. }
  unfold quickSelect, setSelectedTimeRange, setSelectedTime.
  destruct (isRangeMode state);
    cbn [selectedStartTime selectedEndTime]; apply Hfix; lia.
Qed.

Lemma quickSelect_passes_validation_witness :
  let state := initialState 8683200000 in
  Validator.resolve 8683270000
    (selectedStartTime (last24Hours 8683260000 state))
    (selectedEndTime (last24Hours 8683260000 state))
  = (8596800000, 8683200000).
Proof.
  intros state.
  destruct (quickSelect_passes_validation 86400000 8683260000 8683270000
              state) as [_ Hr].
  - vm_compute. discriminate.
  - vm_compute. discriminate.
  - vm_compute. discriminate.
  - vm_compute. discriminate.
  - vm_compute. discriminate.
  - vm_compute. discriminate.
  - refine (eq_trans Hr _). reflexivity.
Defined.

End TimelineCoverage.

(** ** The handlers of the map *)

Section MapContainerCoverage.
Import PolygonSlice MapContainer.

Lemma deleteAll_polygons (l : list Polygon) (state : PolygonState) :
  (forall p, In p (polygons state) -> In p l) ->
  polygons (fold_left (fun s polygon => deletePolygon s (id polygon)) l state)
  = [].
Proof.
  revert state. induction l as [| q l IH]; intros state Hsub.
  - cbn [fold_left]. destruct (polygons state) as [| p ps]; [reflexivity |].
    exfalso. apply (Hsub p). now left.
  - cbn [fold_left]. apply IH. intros p Hp.
    unfold deletePolygon in Hp. cbn [polygons] in Hp.
    apply filter_In in Hp. destruct Hp as [Hp Hne].
    destruct (Hsub p Hp) as [-> | Hin]; [| exact Hin].
    rewrite String.eqb_refl in Hne. discriminate.
Qed.

Lemma handleDeletePolygon_resolves state key skip confirmed :
  selectionResolves state ->
  selectionResolves (handleDeletePolygon state key skip confirmed).
Proof.
  intros Hinv. unfold handleDeletePolygon.
  destruct (find _ (polygons state)) as [found |]; [| exact Hinv].
  destruct (negb skip && negb confirmed); [exact Hinv |].
  unfold isSelected, selectionResolves in *.
  destruct (selectedPolygonId state) as [k |] eqn:Hsel.
  - destruct (String.eqb_spec k key) as [-> | Hne].
    + cbn. exact I.
    + unfold deletePolygon. cbn [selectedPolygonId polygons]. rewrite Hsel.
      destruct Hinv as (p & Hp & Hk). exists p. split; [| exact Hk].
      apply filter_In. split; [exact Hp |].
      apply negb_true_iff. apply String.eqb_neq. congruence.
  - unfold deletePolygon. cbn [selectedPolygonId]. now rewrite Hsel.
Qed.

Lemma handle_resolves state event :
  selectionResolves state -> selectionResolves (handle state event).
Proof.
  intros Hinv. destruct event; cbn [handle].
  - unfold handleStartDrawing.
    destruct (isDrawing state); exact Hinv.
  - unfold handleMapClick. destruct (isDrawing state); exact Hinv.
  - unfold handleFinishDrawing, finishDrawing.
    destruct (3 <=? List.length (drawingPoints state))%nat; [| exact Hinv].
    unfold selectionResolves in *. cbn [selectedPolygonId polygons].
    destruct (selectedPolygonId state); [| exact I].
    destruct Hinv as (p & Hp & Hk). exists p. split; [| exact Hk].
    apply in_or_app. now left.
  - exact Hinv.
  - destruct (nth_error (polygons state) index) as [polygon |] eqn:E;
      [| exact Hinv].
    unfold handlePolygonClick, selectionResolves, selectPolygon.
    cbn [selectedPolygonId polygons].
    destruct (isSelected state (id polygon)); [exact I |].
    exists polygon. split; [| reflexivity]. eapply nth_error_In; eauto.
  - destruct (nth_error (polygons state) index) as [polygon |]; [| exact Hinv].
    now apply handleDeletePolygon_resolves.
  - unfold handleDeleteAllPolygons.
    destruct (polygons state) as [| q qs]; [exact Hinv |].
    destruct confirmed; [exact I | exact Hinv].
  - destruct (selectedPanel state); [| exact Hinv].
    now apply handleDeletePolygon_resolves.
  - destruct (selectedPanel state); [exact I | exact Hinv].
  - unfold handleEscape. destruct (isDrawing state); [exact Hinv |].
    destruct (selectedPolygonId state) as [k |] eqn:E; [| exact Hinv].
    destruct (String.eqb k ""); [exact Hinv | exact I].
  - unfold handleDeleteKey.
    destruct (selectedPolygonId state) as [k |] eqn:E; [| exact Hinv].
    destruct (String.eqb k ""); [exact Hinv |].
    destruct (find _ (polygons state)) as [found |]; [| exact Hinv].
    now apply handleDeletePolygon_resolves.
Qed.

(** X26: whatever the user does on the map, starting from the initial
    state, the selection never dangles: a selected identifier is always
    that of a polygon in the list, because every handler that deletes
    the selected polygon also clears the selection; and a confirmed
    "delete all" leaves no polygon and no selection. *)
Theorem map_selection_never_dangles :
  forall (events : list Event) (state : PolygonState),
    let reached := fold_left handle events initialState in
    selectionResolves reached
    /\ match polygons state with
       | [] => handleDeleteAllPolygons state true = state
       | _ :: _ =>
           polygons (handleDeleteAllPolygons state true) = []
           /\ selectedPolygonId (handleDeleteAllPolygons state true) = None
       end.
Proof.
  intros events state reached. split.
  - subst reached.
    assert (Hgen : forall s, selectionResolves s ->
              selectionResolves (fold_left handle events s)).
    { induction events as [| e events IH]; intros s Hs; [exact Hs |].
      cbn [fold_left]. apply IH. now apply handle_resolves. }
    apply Hgen. exact I.
  - unfold handleDeleteAllPolygons.
    destruct (polygons state) as [| p ps] eqn:E; [reflexivity |].
    unfold selectPolygon. cbn [polygons selectedPolygonId].
    split; [| reflexivity].
    apply deleteAll_polygons. rewrite E. auto.
Qed.

Lemma clamp_bounds lo hi x :
  (lo <= hi)%Q -> (lo <= clamp lo hi x)%Q /\ (clamp lo hi x <= hi)%Q.
Proof.
  intros Hlh. unfold clamp. split.
  - apply Q.le_max_l.
  - apply Q.max_lub; [exact Hlh | apply Q.le_min_l].
Qed.

Lemma clickedPoint_onTheMap e : onTheMap (clickedPoint e).
Proof.
  unfold onTheMap, clickedPoint. cbn [lat lng].
  match goal with
  | |- context [clamp (-85 # 1) (85 # 1) ?x] =>
      destruct (clamp_bounds (-85 # 1) (85 # 1) x) as [H1 H2];
        [vm_compute; discriminate |]
  end.
  match goal with
  | |- context [clamp (-180 # 1) (180 # 1) ?x] =>
      destruct (clamp_bounds (-180 # 1) (180 # 1) x) as [H3 H4];
        [vm_compute; discriminate |]
  end.
  repeat split; assumption.
Qed.

Lemma deletePolygon_drawn state key :
  drawnOnTheMap state -> drawnOnTheMap (deletePolygon state key).
Proof.
  intros [Hd Hp]. unfold drawnOnTheMap, deletePolygon.
  cbn [drawingPoints polygons]. split; [exact Hd |].
  apply Forall_forall. intros p Hin. apply filter_In in Hin.
  rewrite Forall_forall in Hp. now apply Hp.
Qed.

Lemma deleteEach_drawn (l : list Polygon) state :
  drawnOnTheMap state ->
  drawnOnTheMap
    (fold_left (fun s polygon => deletePolygon s (id polygon)) l state).
Proof.
  revert state. induction l as [| q l IH]; intros state H; cbn [fold_left];
    [exact H |].
  apply IH. now apply deletePolygon_drawn.
Qed.

Lemma handleDeletePolygon_drawn state key skip confirmed :
  drawnOnTheMap state ->
  drawnOnTheMap (handleDeletePolygon state key skip confirmed).
Proof.
  intros H. unfold handleDeletePolygon.
  destruct (find _ (polygons state)) as [found |]; [| exact H].
  destruct (negb skip && negb confirmed); [exact H |].
  pose proof (deletePolygon_drawn state key H) as Hd.
  destruct (isSelected state key); exact Hd.
Qed.

Lemma handle_drawn state event :
  wellSized event -> drawnOnTheMap state -> drawnOnTheMap (handle state event).
Proof.
  intros Hsize H. pose proof H as [Hd Hp].
  destruct event; cbn [handle].
  - unfold handleStartDrawing, cancelDrawing, startDrawing, drawnOnTheMap.
    destruct (isDrawing state); cbn [drawingPoints polygons]; auto.
  - unfold handleMapClick. destruct (isDrawing state); [| exact H].
    unfold addDrawingPoint, drawnOnTheMap. cbn [drawingPoints polygons].
    split; [| exact Hp]. apply Forall_app. split; [exact Hd |].
    constructor; [apply clickedPoint_onTheMap | constructor].
  - unfold handleFinishDrawing, finishDrawing.
    destruct (Nat.leb_spec 3 (List.length (drawingPoints state)));
      [| exact H].
    unfold drawnOnTheMap. cbn [drawingPoints polygons].
    split; [constructor |]. apply Forall_app. split; [exact Hp |].
    constructor; [| constructor]. split; [exact H0 | exact Hd].
  - unfold handleCancelDrawing, cancelDrawing, drawnOnTheMap.
    cbn [drawingPoints polygons]. auto.
  - destruct (nth_error (polygons state) index) as [polygon |]; exact H.
  - destruct (nth_error (polygons state) index) as [polygon |]; [| exact H].
    now apply handleDeletePolygon_drawn.
  - unfold handleDeleteAllPolygons.
    destruct (polygons state) as [| q qs] eqn:E; [exact H |].
    destruct confirmed; [| exact H].
    pose proof (deleteEach_drawn (q :: qs) state H) as Hall.
    exact Hall.
  - destruct (selectedPanel state); [| exact H].
    now apply handleDeletePolygon_drawn.
  - destruct (selectedPanel state); exact H.
  - unfold handleEscape. destruct (isDrawing state).
    + unfold cancelDrawing, drawnOnTheMap. cbn [drawingPoints polygons]. auto.
    + destruct (selectedPolygonId state) as [k |]; [| exact H].
      destruct (String.eqb k ""); exact H.
  - unfold handleDeleteKey.
    destruct (selectedPolygonId state) as [k |]; [| exact H].
    destruct (String.eqb k ""); [exact H |].
    destruct (find _ (polygons state)) as [found |]; [| exact H].
    now apply handleDeletePolygon_drawn.
Qed.

(** X27: polygons drawn by clicking on the map stay on the map: every
    click is clamped to latitudes within 85 and longitudes within 180
    degrees before it is stored, so in every state reached from the
    initial one each persisted polygon has at least three vertices, all
    on the map, and its centroid, the point the weather is requested
    for, is on the map as well; the sums of the centroid are rounded,
    and the bound on it is proved for fewer than 2^32 vertices, which is
    all a JavaScript array can hold. *)
Theorem map_polygons_stay_on_the_map :
  forall events : list Event,
    Forall wellSized events ->
    let reached := fold_left handle events initialState in
    Forall onTheMap (drawingPoints reached)
    /\ Forall
         (fun p =>
            (3 <= List.length (points p))%nat
            /\ Forall onTheMap (points p)
            /\ (Z.of_nat (List.length (points p)) < 2 ^ 32 ->
                centroidOnTheMap (points p)))
         (polygons reached).
Proof.
  intros events Hsized reached.
  assert (Hgen : forall s, drawnOnTheMap s ->
            drawnOnTheMap (fold_left handle events s)).
  { induction Hsized as [| e events He _ IH]; intros s Hs; [exact Hs |].
    cbn [fold_left]. apply IH. now apply handle_drawn. }
  destruct (Hgen initialState) as [Hd Hp].
  { split; constructor. }
  split; [exact Hd |].
  eapply Forall_impl; [| exact Hp].
  intros p [Hthree Hpts]. split; [exact Hthree |]. split; [exact Hpts |].
  assert (Hne : points p <> []).
  { unfold persistable in Hthree. destruct (points p); [simpl in *; lia |].
    discriminate. }
  intros Hfew. unfold centroidOnTheMap, Orchestrator.getPolygonCentroid.
  destruct (centroid_component_bracket lat (points p) (-85) 85 Hne)
    as (centroidLat & -> & H1 & H2); [lia | |].
  { eapply Forall_impl; [| exact Hpts].
    intros a (A1 & A2 & A3 & A4). split; assumption. }
  destruct (centroid_component_bracket lng (points p) (-180) 180 Hne)
    as (centroidLng & -> & H3 & H4); [lia | |].
  { eapply Forall_impl; [| exact Hpts].
    intros a (A1 & A2 & A3 & A4). split; assumption. }
  exists centroidLat, centroidLng. split; [reflexivity |].
  repeat split; assumption.
Qed.

Lemma map_polygons_stay_on_the_map_witness :
  let reached :=
    fold_left handle
      [DrawButton; MapClicked (sampleClick 100 100);
       MapClicked (sampleClick 700 100); MapClicked (sampleClick 400 500);
       FinishButton 1700000000000 1700000000001 "temperature"]
      initialState in
  List.length (polygons reached) = 1%nat
  /\ Forall
       (fun p => Forall onTheMap (points p) /\ centroidOnTheMap (points p))
       (polygons reached).
Proof.
  intros reached.
  destruct (map_polygons_stay_on_the_map
              [DrawButton; MapClicked (sampleClick 100 100);
               MapClicked (sampleClick 700 100);
               MapClicked (sampleClick 400 500);
               FinishButton 1700000000000 1700000000001 "temperature"])
    as [_ Hp].
  - repeat constructor.
  - split; [reflexivity |].
    assert (Hcounts : map (fun p => List.length (points p)) (polygons reached)
                      = [3%nat]) by (vm_compute; reflexivity).
    apply Forall_forall. intros p Hin.
    rewrite Forall_forall in Hp.
    destruct (Hp p Hin) as (_ & H & Hc). split; [exact H |].
    apply Hc.
    apply (in_map (fun p => List.length (points p))) in Hin.
    rewrite Hcounts in Hin. destruct Hin as [<- | []]. reflexivity.
Defined.

End MapContainerCoverage.

(** ** The rule editor *)

Section RuleEditorCoverage.
Import DataSourceSlice DataSourceRules.

Lemma mutateSource_absent key f sources :
  findSource key sources = None -> mutateSource key f sources = sources.
Proof.
  unfold findSource.
  induction sources as [| ds sources IH]; simpl; [reflexivity |].
  destruct (String.eqb (id ds) key); [discriminate |].
  intros H. now rewrite IH.
Qed.

Lemma findSource_mutate key f sources ds :
  (forall d, id (f d) = id d) ->
  findSource key sources = Some ds ->
  findSource key (mutateSource key f sources) = Some (f ds).
Proof.
  intros Hid. unfold findSource.
  induction sources as [| d sources IH]; simpl; [discriminate |].
  destruct (String.eqb (id d) key) eqn:E.
  - intros H. inversion H; subst. simpl. now rewrite Hid, E.
  - intros H. simpl. rewrite E. now apply IH.
Qed.

Lemma findSource_mutate_other key key' f sources :
  (forall d, id (f d) = id d) -> key' <> key ->
  findSource key' (mutateSource key f sources) = findSource key' sources.
Proof.
  intros Hid Hne. unfold findSource.
  induction sources as [| d sources IH]; simpl; [reflexivity |].
  destruct (String.eqb_spec (id d) key) as [Hk | Hk]; simpl.
  - rewrite Hid.
    destruct (String.eqb_spec (id d) key'); [congruence | reflexivity].
  - now rewrite IH.
Qed.

(** X28: the rule reducers address one data source: when no data source
    carries the identifier they change nothing, and in any case the
    sources found under other identifiers, the selected source, the
    stored series, the loading flag and the error slot are as before. *)
Theorem rule_edits_are_confined_to_their_source :
  forall (state : DataSourceState) (dataSourceId ruleId other : string)
         (rule : ColorRule) (updates : RuleUpdates),
    other <> dataSourceId ->
    let added := addColorRule state dataSourceId rule in
    let updated := updateColorRule state dataSourceId ruleId updates in
    let deleted := deleteColorRule state dataSourceId ruleId in
    (findSource dataSourceId (availableDataSources state) = None ->
     added = state /\ updated = state /\ deleted = state)
    /\ findSource other (availableDataSources added)
       = findSource other (availableDataSources state)
    /\ findSource other (availableDataSources updated)
       = findSource other (availableDataSources state)
    /\ findSource other (availableDataSources deleted)
       = findSource other (availableDataSources state)
    /\ (selectedDataSourceId added, weatherData added, isLoading added,
        error added)
       = (selectedDataSourceId state, weatherData state, isLoading state,
          error state)
    /\ (selectedDataSourceId updated, weatherData updated, isLoading updated,
        error updated)
       = (selectedDataSourceId state, weatherData state, isLoading state,
          error state)
    /\ (selectedDataSourceId deleted, weatherData deleted, isLoading deleted,
        error deleted)
       = (selectedDataSourceId state, weatherData state, isLoading state,
          error state).
Proof.
  intros state dataSourceId ruleId other rule updates Hne added updated
    deleted.
  subst added updated deleted.
  unfold addColorRule, updateColorRule, deleteColorRule, withSources.
  cbn [availableDataSources selectedDataSourceId weatherData isLoading error].
  split.
  { intros Hnone. rewrite !mutateSource_absent by exact Hnone.
    destruct state; repeat split; reflexivity. }
  repeat split;
    apply findSource_mutate_other; auto; intros d; reflexivity.
Qed.

Lemma rule_edits_are_confined_to_their_source_witness :
  addColorRule sampleSources "humidity" coldRule = sampleSources
  /\ findSource "temperature"
       (availableDataSources (deleteColorRule sampleSources "humidity" "g"))
     = Some temperatureSource.
Proof.
  destruct (rule_edits_are_confined_to_their_source sampleSources "humidity"
              "g" "temperature" coldRule
              (mkRuleUpdates None None None None))
    as (Hnone & _ & _ & Hother & _).
  - vm_compute. discriminate.
  - split; [apply Hnone; reflexivity |].
    refine (eq_trans Hother _). reflexivity.
Defined.

(** X29: a rule added to a data source is appended to its rules, and it
    changes the colour of those values only that it matches: for a value
    the new rule does not match, the classification with the new rule
    set is the classification with the old one. *)
Theorem addColorRule_affects_matching_values_only :
  forall (state : DataSourceState) (dataSourceId : string)
         (source : DataSource) (rule : ColorRule) (v : Q),
    findSource dataSourceId (availableDataSources state) = Some source ->
    WeatherService.ruleMatches v rule = false ->
    let state' := addColorRule state dataSourceId rule in
    findSource dataSourceId (availableDataSources state')
    = Some (withRules source (colorRules source ++ [rule])%list)
    /\ WeatherService.applyColorRules v (colorRules source ++ [rule])%list
       = WeatherService.applyColorRules v (colorRules source).
Proof.
  intros state dataSourceId source rule v Hfind Hfail state'. subst state'.
  split.
  - unfold addColorRule, withSources. cbn [availableDataSources].
    apply (findSource_mutate dataSourceId
             (fun ds => withRules ds (colorRules ds ++ [rule])%list));
      [intros d; reflexivity | exact Hfind].
  - rewrite (applyColorRules_filter v (colorRules source ++ [rule])%list).
    rewrite (applyColorRules_filter v (colorRules source)).
    rewrite filter_app. cbn [filter]. rewrite Hfail. now rewrite app_nil_r.
Qed.

Lemma addColorRule_affects_matching_values_only_witness :
  WeatherService.applyColorRules (15 # 1) [tierGreen; tierRed; coldRule]
  = WeatherService.applyColorRules (15 # 1) [tierGreen; tierRed].
Proof.
  destruct (addColorRule_affects_matching_values_only sampleSources
              "temperature" temperatureSource coldRule (15 # 1))
    as [_ H].
  - reflexivity.
  - reflexivity.
  - exact H.
Defined.

End RuleEditorCoverage.

(** ** The default window of a refresh *)

Section DefaultWindowCoverage.
Import Orchestrator.

(** X30: a refresh made without a selection asks for the seven days that
    end 24 hours before the clock, and the validator leaves that window
    as it is (for any clock from 1940-01-09 on); with only an end given,
    the window is the seven days before that end. *)
Theorem fetchWeatherData_default_window :
  forall (env : Env) (selectedEnd : Z),
    Validator.oldestDate + 8 * Validator.msPerDay <= now env ->
    selectedWindow env None None
    = (now env - 8 * Validator.msPerDay, now env - Validator.msPerDay)
    /\ resolvedWindow env None None = selectedWindow env None None
    /\ selectedWindow env None (Some selectedEnd)
       = (selectedEnd - 7 * Validator.msPerDay, selectedEnd).
Proof.
  intros env selectedEnd Hclock.
  unfold resolvedWindow, selectedWindow, requestedWindow.
  cbn [PolygonSlice.orElse].
  change (24 * 60 * 60 * 1000) with Validator.msPerDay.
  change (7 * 24 * 60 * 60 * 1000) with (7 * Validator.msPerDay).
  split; [f_equal; lia |]. split; [| reflexivity].
  rewrite resolve_cases. unfold Validator.maxRangeDays.
  assert (0 < Validator.msPerDay) by (unfold Validator.msPerDay; lia).
  destruct (Z.ltb_spec (now env)
              (now env - Validator.msPerDay - 7 * Validator.msPerDay));
    [lia |].
  destruct (Z.ltb_spec (30 * Validator.msPerDay)
              (now env - Validator.msPerDay
               - (now env - Validator.msPerDay - 7 * Validator.msPerDay)));
    [lia |].
  destruct (Z.ltb_spec
              (now env - Validator.msPerDay - 7 * Validator.msPerDay)
              Validator.oldestDate); [lia | reflexivity].
Qed.

Lemma fetchWeatherData_default_window_witness :
  resolvedWindow sampleEnv None None = (7992000000, 8596800000).
Proof.
  destruct (fetchWeatherData_default_window sampleEnv 0) as (Hs & Hr & _).
  - vm_compute. discriminate.
  - rewrite Hr, Hs. reflexivity.
Defined.

End DefaultWindowCoverage.
